(** * Chatbot API: model router, chat-completion handler, conversation store
      and model catalogue

    A shallow embedding of the route handlers of the chatbot API
    ([/api/chatbot], [/api/chatbot/conversations],
    [/api/chatbot/conversations/[id]] and [/api/chatbot/models]) together
    with the properties that the design document states about them and
    further properties that the code shows.

    Conventions of the embedding:
    - a string holds the UTF-8 bytes of the JavaScript string it stands for;
      its JavaScript length is counted in UTF-16 code units ([Js.length]);
    - request bodies are JSON values ([JSON]); the zod schemas are parsing
      functions that return the validated record or the list of offending
      fields;
    - a handler is a computation in the monad [M]: it reads the per-request
      environment ([Env]: authenticated user, clock, the id [nanoid] is about
      to return, the model cookie, the language-model backend, the
      availability of Redis), threads the state ([State]: the Redis handle
      and the log of external calls) and may throw ([Exn]), as the
      [try]/[catch] blocks of the handlers do, or wait for a promise that
      never settles ([Pending]);
    - Redis is a key space of string values and of sorted sets, each key with
      an optional expiry instant; a key whose expiry has passed is absent. *)

From Stdlib Require Import Ascii QArith.
From stdpp Require Import gmap strings list sorting.

Open Scope string_scope.
Open Scope list_scope.
Open Scope Z_scope.

(** ** JavaScript strings *)

Module Js.

(** [s.startsWith(p)] *)
Fixpoint startsWith (s p : string) : bool :=
  match p with
  | EmptyString => true
  | String c p' =>
      match s with
      | EmptyString => false
      | String d s' => if Ascii.eqb c d then startsWith s' p' else false
      end
  end.

(** [s.includes(p)] *)
Fixpoint includes (s p : string) : bool :=
  startsWith s p ||
  match s with
  | EmptyString => false
  | String _ s' => includes s' p
  end.

(** [s.split(',')]: the empty string splits into one empty piece. *)
Fixpoint split_comma (s : string) : list string :=
  match s with
  | EmptyString => [EmptyString]
  | String c s' =>
      let rest := split_comma s' in
      if Ascii.eqb c ","%char then EmptyString :: rest
      else match rest with
           | h :: t => String c h :: t
           | [] => [String c EmptyString]
           end
  end.

(** Truthiness of an optional string: [undefined], [null] and [""] are falsy. *)
Definition truthy (o : option string) : bool :=
  match o with
  | Some s => negb (String.eqb s "")
  | None => false
  end.

(** [o || d] on an optional string. *)
Definition or_else (o : option string) (d : string) : string :=
  match o with
  | Some s => if String.eqb s "" then d else s
  | None => d
  end.

(** [s.toLowerCase()] on a string of ASCII characters: the letters [A] to
    [Z] are lowered and nothing else changes. It is applied to constants of
    the source only; the models route, which lowers the strings of a
    request, takes the lowering of the JavaScript engine from its
    surroundings ([toLowerCase] of [Config]). *)
Definition lower (c : ascii) : ascii :=
  let n := nat_of_ascii c in
  if (65 <=? n)%nat && (n <=? 90)%nat then ascii_of_nat (n + 32) else c.

Fixpoint toLowerCase (s : string) : string :=
  match s with
  | EmptyString => EmptyString
  | String c s' => String (lower c) (toLowerCase s')
  end.

(** The distinct elements of a list, each at its first occurrence
    ([[...new Set(xs)]]). *)
Fixpoint unique (xs : list string) : list string :=
  match xs with
  | [] => []
  | x :: xs' => x :: filter (fun y => y <> x) (unique xs')
  end.

(** [n || d] on an optional number: [undefined] and [0] are falsy. *)
Definition or_number (o : option Z) (d : Z) : Z :=
  match o with
  | Some n => if n =? 0 then d else n
  | None => d
  end.

(** The names that every object inherits from [Object.prototype]: [o[name]]
    is defined for them on an object literal that has no such property of
    its own. *)
Definition inherited : list string :=
  [ "constructor"; "__proto__"; "hasOwnProperty"; "isPrototypeOf";
    "propertyIsEnumerable"; "toLocaleString"; "toString"; "valueOf";
    "__defineGetter__"; "__defineSetter__"; "__lookupGetter__";
    "__lookupSetter__" ].

(** A property name that is an array index: the decimal writing, without
    sign or leading zero, of an integer below [2^32 - 1]. *)
Definition digit (c : ascii) : option N :=
  let n := N_of_ascii c in
  if (48 <=? n)%N && (n <=? 57)%N then Some (n - 48)%N else None.

Fixpoint number (s : string) (acc : N) : option N :=
  match s with
  | EmptyString => Some acc
  | String c s' =>
      match digit c with
      | Some d => number s' (10 * acc + d)%N
      | None => None
      end
  end.

Definition array_index (name : string) : option N :=
  match name with
  | EmptyString => None
  | String c rest =>
      if Ascii.eqb c "0" && negb (String.eqb rest "") then None
      else match number name 0 with
           | Some n => if (n <? 4294967295)%N then Some n else None
           | None => None
           end
  end.

Definition by_index {A} (a b : N * A) : Prop := (a.1 <= b.1)%N.

#[global] Instance by_index_dec {A} (a b : N * A) : Decision (by_index a b).
Proof. unfold by_index. apply _. Defined.

(** [Object.entries(o)] on an object whose own properties were created in
    the order of the list: the array indexes first, in ascending order, then
    the other names in the order of their creation. [Object.keys] and
    [JSON.stringify] follow the same order. *)
Definition entries {A} (o : list (string * A)) : list (string * A) :=
  (snd <$> merge_sort by_index
             (omap (fun kv => (fun n => (n, kv)) <$> array_index kv.1) o))
  ++ filter (fun kv => array_index kv.1 = None) o.

(** [Number.isInteger(q)] *)
Definition isInteger (q : Q) : bool := (Qden (Qred q) =? 1)%positive.

(** The UTF-16 code units that a byte of UTF-8 stands for: a byte that
    continues a character adds nothing, a byte that starts a character adds
    one unit, and two when the character lies outside the basic plane (it is
    a surrogate pair in JavaScript). *)
Definition units (c : ascii) : nat :=
  let n := nat_of_ascii c in
  if (n <? 128)%nat then 1%nat
  else if (n <? 192)%nat then 0%nat
  else if (n <? 240)%nat then 1%nat
  else 2%nat.

(** [s.length]: the number of UTF-16 code units of the string. *)
Fixpoint length (s : string) : nat :=
  match s with
  | EmptyString => 0%nat
  | String c s' => (units c + length s')%nat
  end.

End Js.

(** ** Model router ([getProvider]) *)

Inductive Provider := openai | anthropic | google | groq | xai.

#[global] Instance Provider_eq_dec : EqDecision Provider.
Proof. solve_decision. Defined.

(** [DEFAULT_MODELS] *)
Definition DEFAULT_MODELS (p : Provider) : string :=
  match p with
  | openai => "gpt-4o-mini"
  | anthropic => "claude-3-haiku-20240307"
  | google => "gemini-1.5-flash"
  | groq => "llama-3.1-8b-instant"
  | xai => "grok-beta"
  end.

Record Backend := { provider : Provider; modelId : string }.

#[global] Instance Backend_eq_dec : EqDecision Backend.
Proof. solve_decision. Defined.

Definition getProvider (model : string) : Backend :=
  if Js.startsWith model "gpt-" || Js.includes model "openai" then
    {| provider := openai; modelId := model |}
  else if Js.startsWith model "claude-" || Js.includes model "anthropic" then
    {| provider := anthropic; modelId := model |}
  else if Js.startsWith model "gemini-" || Js.includes model "google" then
    {| provider := google; modelId := model |}
  else if Js.includes model "llama" || Js.includes model "groq" then
    {| provider := groq; modelId := model |}
  else if Js.includes model "grok" || Js.includes model "xai" then
    {| provider := xai; modelId := model |}
  else
    {| provider := openai; modelId := DEFAULT_MODELS openai |}.

(** The router as the design document words it: a fixed, ordered table of
    rules, each a predicate over the identifier and a target backend; the
    first rule whose predicate holds decides, and an identifier that no rule
    matches goes to the fixed default. *)
Module RuleTable.

Record Rule := { matches : string -> bool; target : Provider }.

Definition rules : list Rule :=
  [ {| matches := fun m => Js.startsWith m "gpt-" || Js.includes m "openai";
       target := openai |};
    {| matches := fun m => Js.startsWith m "claude-" || Js.includes m "anthropic";
       target := anthropic |};
    {| matches := fun m => Js.startsWith m "gemini-" || Js.includes m "google";
       target := google |};
    {| matches := fun m => Js.includes m "llama" || Js.includes m "groq";
       target := groq |};
    {| matches := fun m => Js.includes m "grok" || Js.includes m "xai";
       target := xai |} ].

Definition default_backend : Backend :=
  {| provider := openai; modelId := "gpt-4o-mini" |}.

Fixpoint resolve (table : list Rule) (model : string) : Backend :=
  match table with
  | [] => default_backend
  | r :: table' =>
      if matches r model then {| provider := target r; modelId := model |}
      else resolve table' model
  end.

End RuleTable.

(** ** JSON values and the zod schemas *)

#[local] Unset Elimination Schemes.
Inductive JSON :=
| JNull
| JBool (b : bool)
| JNum (q : Q)
| JStr (s : string)
| JArr (items : list JSON)
| JObj (fields : list (string * JSON)).
#[local] Set Elimination Schemes.

Module Zod.

(** The outcome of [schema.parse]: the validated value, or the paths of the
    offending fields (the [errors] of a [ZodError]). *)
Inductive result (A : Type) :=
| Ok (a : A)
| Issues (paths : list string).
Arguments Ok {A} a.
Arguments Issues {A} paths.

(** zod validates every field and reports all issues together. *)
Definition ap {A B} (f : result (A -> B)) (x : result A) : result B :=
  match f, x with
  | Ok g, Ok a => Ok (g a)
  | Ok _, Issues e => Issues e
  | Issues e, Ok _ => Issues e
  | Issues e1, Issues e2 => Issues (e1 ++ e2)
  end.

Notation "f <*> x" := (ap f x) (at level 50, left associativity).

(** [obj.key]; a key that occurs twice keeps its last value, as [JSON.parse]
    does. A missing key is [undefined] ([None]). *)
Definition field (key : string) (fields : list (string * JSON)) : option JSON :=
  snd <$> List.find (fun kv => String.eqb (fst kv) key) (rev fields).

(** [z.string()] *)
Definition string_ (path : string) (v : option JSON) : result string :=
  match v with
  | Some (JStr s) => Ok s
  | _ => Issues [path]
  end.

(** [z.string().min(lo).max(hi)]: zod compares the bounds with [s.length]. *)
Definition string_between (lo hi : nat) (path : string) (v : option JSON)
  : result string :=
  match v with
  | Some (JStr s) =>
      if (lo <=? Js.length s)%nat && (Js.length s <=? hi)%nat
      then Ok s else Issues [path]
  | _ => Issues [path]
  end.

(** [z.number().min(lo).max(hi)] *)
Definition number_between (lo hi : Q) (path : string) (v : option JSON)
  : result Q :=
  match v with
  | Some (JNum q) =>
      if Qle_bool lo q && Qle_bool q hi then Ok q else Issues [path]
  | _ => Issues [path]
  end.

(** [z.boolean()] *)
Definition boolean (path : string) (v : option JSON) : result bool :=
  match v with
  | Some (JBool b) => Ok b
  | _ => Issues [path]
  end.

(** [schema.optional()]: [undefined] passes, anything else (also [null]) goes
    to the schema. *)
Definition optional {A} (schema : string -> option JSON -> result A)
    (path : string) (v : option JSON) : result (option A) :=
  match v with
  | None => Ok None
  | Some _ => Ok Some <*> schema path v
  end.

(** [schema.optional().default(d)] *)
Definition optional_default {A} (schema : string -> option JSON -> result A)
    (d : A) (path : string) (v : option JSON) : result A :=
  match v with
  | None => Ok d
  | Some _ => schema path v
  end.

(** [z.enum([...])] against a table of the allowed spellings. *)
Definition enum {A} (table : list (string * A)) (path : string)
    (v : option JSON) : result A :=
  match v with
  | Some (JStr s) =>
      match List.find (fun kv => String.eqb (fst kv) s) table with
      | Some kv => Ok (snd kv)
      | None => Issues [path]
      end
  | _ => Issues [path]
  end.

(** [z.array(item)] *)
Definition array {A} (item : string -> option JSON -> result A)
    (path : string) (v : option JSON) : result (list A) :=
  match v with
  | Some (JArr items) =>
      fold_right (fun j acc => Ok cons <*> item path (Some j) <*> acc)
                 (Ok []) items
  | _ => Issues [path]
  end.

(** [z.object({...})]: the fields of an object, passed to the field schemas. *)
Definition object {A} (shape : list (string * JSON) -> result A)
    (path : string) (v : option JSON) : result A :=
  match v with
  | Some (JObj fields) => shape fields
  | _ => Issues [path]
  end.

End Zod.

Import Zod.

(** ** Data model *)

Inductive Role := user | assistant | system.

#[global] Instance Role_eq_dec : EqDecision Role.
Proof. solve_decision. Defined.

(** A message as it travels in a chat request and to the backend
    ([CoreMessage]). *)
Record ChatMessage := { role : Role; content : string }.

(** A message as stored in a conversation. *)
Record Message := {
  msg_role : Role;
  msg_content : string;
  msg_timestamp : string
}.

Record Conversation := {
  conv_id : string;
  conv_title : string;
  conv_messages : list Message;
  conv_model : string;
  conv_createdAt : string;
  conv_updatedAt : string;
  conv_userId : string
}.

#[global] Instance ChatMessage_eq_dec : EqDecision ChatMessage.
Proof. solve_decision. Defined.
#[global] Instance Message_eq_dec : EqDecision Message.
Proof. solve_decision. Defined.
#[global] Instance Conversation_eq_dec : EqDecision Conversation.
Proof. solve_decision. Defined.

Definition roles3 : list (string * Role) :=
  [("user", user); ("assistant", assistant); ("system", system)].

Definition roles2 : list (string * Role) :=
  [("user", user); ("assistant", assistant)].

(** [CreateConversationSchema] *)
Record CreateConversation := {
  create_title : string;
  create_model : option string;
  create_systemPrompt : option string
}.

Definition CreateConversationSchema : option JSON -> result CreateConversation :=
  object (fun o =>
    Ok Build_CreateConversation
      <*> string_between 1 100 "title" (field "title" o)
      <*> optional string_ "model" (field "model" o)
      <*> optional string_ "systemPrompt" (field "systemPrompt" o)) "".

(** [UpdateConversationSchema] *)
Record UpdateMessage := {
  upd_role : Role;
  upd_content : string;
  upd_timestamp : option string
}.

Record UpdateConversation := {
  update_title : option string;
  update_messages : option (list UpdateMessage)
}.

Definition UpdateConversationSchema : option JSON -> result UpdateConversation :=
  object (fun o =>
    Ok Build_UpdateConversation
      <*> optional (string_between 1 100) "title" (field "title" o)
      <*> optional (array (object (fun m =>
            Ok Build_UpdateMessage
              <*> enum roles3 "messages.role" (field "role" m)
              <*> string_ "messages.content" (field "content" m)
              <*> optional string_ "messages.timestamp" (field "timestamp" m))))
            "messages" (field "messages" o)) "".

(** [AddMessageSchema] *)
Definition AddMessageSchema : option JSON -> result ChatMessage :=
  object (fun o =>
    Ok Build_ChatMessage
      <*> enum roles2 "role" (field "role" o)
      <*> string_ "content" (field "content" o)) "".

(** [ChatbotRequestSchema] *)
Record ChatbotRequest := {
  req_messages : list ChatMessage;
  req_conversationId : option string;
  req_model : option string;
  req_temperature : option Q;
  req_maxTokens : option Q;
  req_stream : bool;
  req_systemPrompt : option string
}.

Definition ChatbotRequestSchema : option JSON -> result ChatbotRequest :=
  object (fun o =>
    Ok Build_ChatbotRequest
      <*> array (object (fun m =>
            Ok Build_ChatMessage
              <*> enum roles3 "messages.role" (field "role" m)
              <*> string_ "messages.content" (field "content" m)))
            "messages" (field "messages" o)
      <*> optional string_ "conversationId" (field "conversationId" o)
      <*> optional string_ "model" (field "model" o)
      <*> optional (number_between 0 2) "temperature" (field "temperature" o)
      <*> optional (number_between 1 4000) "maxTokens" (field "maxTokens" o)
      <*> optional_default boolean true "stream" (field "stream" o)
      <*> optional string_ "systemPrompt" (field "systemPrompt" o)) "".

(** ** Redis

    The store keeps string values (the serialised conversations; a stored
    string is modelled by the conversation it parses to) and sorted sets (the
    per-user indexes: member to score). Every key carries an optional expiry
    instant in milliseconds; a key is absent from that instant on. The keys of
    the two kinds differ in their prefix ([conversation:] and
    [conversations:]), so each kind has a map of its own. *)

Module Redis.

Record t := {
  strings : gmap string (Conversation * option Z);
  zsets : gmap string (gmap string Z * option Z)
}.

Definition empty : t := {| strings := ∅; zsets := ∅ |}.

Definition alive (now : Z) (expiry : option Z) : bool :=
  match expiry with
  | None => true
  | Some t => now <? t
  end.

Definition live {A} (now : Z) (e : option (A * option Z)) : option A :=
  match e with
  | Some (a, expiry) => if alive now expiry then Some a else None
  | None => None
  end.

(** [GET key] *)
Definition get (key : string) (now : Z) (r : t) : option Conversation * t :=
  (live now (strings r !! key), r).

(** [SET key value EX seconds] *)
Definition set (key : string) (value : Conversation) (ex : Z) (now : Z) (r : t)
  : unit * t :=
  (tt, {| strings := <[key := (value, Some (now + ex * 1000))]> (strings r);
          zsets := zsets r |}).

(** [DEL key]: the number of keys removed. *)
Definition del (key : string) (now : Z) (r : t) : Z * t :=
  let existed :=
    bool_decide (is_Some (live now (strings r !! key)))
    || bool_decide (is_Some (live now (zsets r !! key))) in
  ((if existed then 1 else 0),
   {| strings := delete key (strings r); zsets := delete key (zsets r) |}).

(** [ZADD key score member]: an absent (or expired) key starts a new sorted
    set without expiry; an existing one keeps its expiry. *)
Definition zadd (key : string) (score : Z) (member : string) (now : Z) (r : t)
  : unit * t :=
  let entry :=
    match zsets r !! key with
    | Some (z, expiry) =>
        if alive now expiry then (<[member := score]> z, expiry)
        else ({[member := score]}, None)
    | None => ({[member := score]}, None)
    end in
  (tt, {| strings := strings r; zsets := <[key := entry]> (zsets r) |}).

(** [ZREM key member]: a sorted set that becomes empty is removed. *)
Definition zrem (key member : string) (now : Z) (r : t) : Z * t :=
  match zsets r !! key with
  | Some (z, expiry) =>
      if alive now expiry then
        match z !! member with
        | Some _ =>
            let z' := delete member z in
            (1, {| strings := strings r;
                   zsets := if bool_decide (z' = ∅) then delete key (zsets r)
                            else <[key := (z', expiry)]> (zsets r) |})
        | None => (0, r)
        end
      else (0, r)
  | None => (0, r)
  end.

(** [EXPIRE key seconds] *)
Definition expire (key : string) (seconds : Z) (now : Z) (r : t) : Z * t :=
  let at_ := Some (now + seconds * 1000) in
  match strings r !! key, zsets r !! key with
  | Some (v, expiry), _ =>
      if alive now expiry
      then (1, {| strings := <[key := (v, at_)]> (strings r); zsets := zsets r |})
      else (0, r)
  | None, Some (z, expiry) =>
      if alive now expiry
      then (1, {| strings := strings r; zsets := <[key := (z, at_)]> (zsets r) |})
      else (0, r)
  | None, None => (0, r)
  end.

(** Descending order of a sorted set: higher score first, and among equal
    scores the lexicographically greater member first. *)
Definition newer_b (a b : string * Z) : bool :=
  (b.2 <? a.2) || ((b.2 =? a.2) && String.leb b.1 a.1).

Definition newer (a b : string * Z) : Prop := newer_b a b = true.

#[global] Instance newer_dec a b : Decision (newer a b).
Proof. unfold newer. apply _. Defined.

Definition descending (z : gmap string Z) : list string :=
  fst <$> merge_sort newer (map_to_list z).

(** The elements at the positions [start .. stop] (both included) of a list,
    with Redis' treatment of the indexes: a negative index counts from the
    end, and the range is cut to the list. *)
Definition range {A} (l : list A) (start stop : Z) : list A :=
  let len := Z.of_nat (length l) in
  let start := if start <? 0 then Z.max (len + start) 0 else start in
  let stop := if stop <? 0 then len + stop else stop in
  let stop := Z.min stop (len - 1) in
  if (stop <? start) || (len <=? start) then []
  else take (Z.to_nat (stop - start + 1)) (drop (Z.to_nat start) l).

Definition members (key : string) (now : Z) (r : t) : gmap string Z :=
  default ∅ (live now (zsets r !! key)).

(** [ZREVRANGE key start stop] *)
Definition zrevrange (key : string) (start stop : Z) (now : Z) (r : t)
  : list string * t :=
  (range (descending (members key now r)) start stop, r).

(** [ZCARD key] *)
Definition zcard (key : string) (now : Z) (r : t) : Z * t :=
  (Z.of_nat (size (members key now r)), r).

End Redis.

(** ** The language-model backend (the [ai] package)

    One call of [streamText] against a backend is described by what the
    backend does: the call itself may throw, or the backend produces its text
    chunks in order and then either completes (reporting token usage and a
    finish reason) or fails. *)

Record Usage := {
  promptTokens : Z;
  completionTokens : Z;
  totalTokens : Z
}.

Inductive Completion :=
| Completes (usage : Usage) (finishReason : string)
| Fails (error : string).

Inductive BackendRun :=
| ThrowsOnCall
| Streams (chunks : list string) (completion : Completion).

(** ** Stream events (what the handler writes with [dataStream.writeData]) *)

Inductive StreamEvent :=
| TextChunk (content : string) (conversationId : option string)
| Finished (conversationId : option string) (usage : Usage) (finishReason : string)
| Error (conversationId : option string) (message : string).

(** ** Requests, responses and effects *)

(** The [selectedModel] cookie: absent (or empty), present but not JSON, or
    the JSON value that [JSON.parse] makes of it. *)
Inductive Cookie :=
| NoCookie
| CookieNotJson
| CookieJson (parsed : JSON).

Inductive Call :=
| CallRedis (command key : string)
| CallGenerate (backend : Backend) (messages : list ChatMessage)
               (temperature maxTokens : Q).

Definition is_store_call (c : Call) : bool :=
  match c with CallRedis _ _ => true | CallGenerate _ _ _ _ => false end.

Definition is_backend_call (c : Call) : bool :=
  match c with CallRedis _ _ => false | CallGenerate _ _ _ _ => true end.

(** What a request finds around it. A request reads the clock as one
    instant: [nowMs] is that instant in milliseconds ([Date.now()]) and
    [nowISO] its ISO rendering ([new Date().toISOString()]). [redisUp] tells
    whether the Redis server answers throughout this request; a client whose
    server does not answer throws. When [redisUp] is false the server is
    lost in the course of the request: it still answers the commands sent
    while the log of the calls holds fewer than [redisLostAt] entries, and
    none from then on (none at all when [redisLostAt] is 0). *)
Record Env := {
  currentUserId : option string;
  nowMs : Z;
  nowISO : string;
  nanoid : string;
  selectedModelCookie : Cookie;
  llm : Backend -> list ChatMessage -> Q -> Q -> BackendRun;
  redisUp : bool;
  redisLostAt : nat
}.

(** What persists between requests: the Redis handle of [@/lib/redis/config]
    ([None] when Redis is not configured, the handle is [null]) and the log
    of the calls made to the store and to the backends. *)
Record State := {
  redis : option Redis.t;
  calls : list Call
}.

(** What a computation comes to: a value, an exception, or nothing at all
    ([Pending]: it awaits a promise that never settles). A promise is
    described the same way: fulfilled, rejected or pending. *)
Inductive Exn :=
| ZodError (issues : list string)
| SyntaxError
| RuntimeError (what : string).

Inductive Outcome (A : Type) :=
| Return (a : A)
| Throw (e : Exn)
| Pending.
Arguments Return {A} a.
Arguments Throw {A} e.
Arguments Pending {A}.

(** The bodies of the answers. The [usage] of a completion is the promise
    [result.usage] as the handler passes it, without [await]. *)
Inductive Body :=
| Failure_ (error : string) (details : list string)
| ConversationList (conversations : list Conversation) (total : Z) (hasMore : bool)
| OneConversation (conversation : Conversation)
| MessageAdded (conversation : Conversation) (addedMessage : Message)
| Deleted (deleted : bool)
| DeletedCount (deletedCount : Z)
| Completion_ (message : ChatMessage) (conversationId : option string)
              (model : string) (usage : Outcome Usage)
| DataStream (events : list StreamEvent).

Record Response := { status : Z; body : Body }.

(** [Response.json(body, { status })]; the status defaults to 200. *)
Definition json (status : Z) (b : Body) : Response :=
  {| status := status; body := b |}.

Definition success (b : Body) : Response := json 200 b.

Definition failure (status : Z) (error : string) : Response :=
  json status (Failure_ error []).

(** ** The handler monad: environment, state and exceptions *)

Definition M (A : Type) : Type := Env -> State -> Outcome A * State.

Definition ret {A} (a : A) : M A := fun _ st => (Return a, st).

Definition bind {A B} (m : M A) (f : A -> M B) : M B := fun env st =>
  match m env st with
  | (Return a, st') => f a env st'
  | (Throw e, st') => (Throw e, st')
  | (Pending, st') => (Pending, st')
  end.

Notation "'let*' x := m 'in' k" := (bind m (fun x => k))
  (at level 10, x pattern, m at level 100, k at level 200).

Notation "m ;;; k" := (bind m (fun _ => k))
  (at level 100, k at level 200, right associativity).

(** [Promise.all(xs.map(f))], the requests taken in the order of the list. *)
Fixpoint mapM {A B} (f : A -> M B) (xs : list A) : M (list B) :=
  match xs with
  | [] => ret []
  | x :: xs' =>
      let* y := f x in
      let* ys := mapM f xs' in
      ret (y :: ys)
  end.

Definition throw {A} (e : Exn) : M A := fun _ st => (Throw e, st).

(** [try { body } catch (error) { handler }] *)
Definition try_catch {A} (body : M A) (handler : Exn -> M A) : M A :=
  fun env st =>
    match body env st with
    | (Return a, st') => (Return a, st')
    | (Throw e, st') => handler e env st'
    | (Pending, st') => (Pending, st')
    end.

Definition ask {A} (f : Env -> A) : M A := fun env st => (Return (f env), st).

(** [schema.parse(body)] *)
Definition parse {A} (schema : option JSON -> result A) (body : JSON) : M A :=
  match schema (Some body) with
  | Ok a => ret a
  | Issues paths => throw (ZodError paths)
  end.

(** [await req.json()]: a body that is not JSON makes it throw. *)
Definition req_json (body : option JSON) : M JSON :=
  match body with
  | Some j => ret j
  | None => throw SyntaxError
  end.

(** [getCurrentUserId()] *)
Definition getCurrentUserId : M (option string) := ask currentUserId.

(** The test [if (!redis)] on the handle. *)
Definition redisConfigured : M bool :=
  fun _ st => (Return (bool_decide (is_Some (redis st))), st).

(** The server answers the command that a request sends from the state
    [st]. *)
Definition answers (env : Env) (st : State) : bool :=
  redisUp env || (List.length (calls st) <? redisLostAt env)%nat.

(** One command sent through the Redis client. The handlers only reach a
    command behind their test of the handle. *)
Definition command {A} (name key : string) (run : Z -> Redis.t -> A * Redis.t)
  : M A :=
  fun env st =>
    match redis st with
    | None => (Throw (RuntimeError "redis is null"), st)
    | Some r =>
        let logged := calls st ++ [CallRedis name key] in
        if answers env st then
          let '(a, r') := run (nowMs env) r in
          (Return a, {| redis := Some r'; calls := logged |})
        else
          (Throw (RuntimeError "redis does not answer"),
           {| redis := Some r; calls := logged |})
    end.

(** The prompt is sent to the backend, which runs on it. *)
Definition generate (b : Backend) (messages : list ChatMessage)
    (temperature maxTokens : Q) : M BackendRun :=
  fun env st =>
    (Return (llm env b messages temperature maxTokens),
     {| redis := redis st;
        calls := calls st ++ [CallGenerate b messages temperature maxTokens] |}).

(** Thirty days, in seconds. *)
Definition TTL : Z := 30 * 24 * 60 * 60.

(** A [userId] as the handlers test it: [!userId] holds of [undefined] and
    of the empty string. *)
Definition authenticated (userId : option string) : option string :=
  match userId with
  | Some u => if String.eqb u "" then None else Some u
  | None => None
  end.

(** ** Keys *)

Definition getConversationKey (userId conversationId : string) : string :=
  "conversation:" +:+ userId +:+ ":" +:+ conversationId.

Definition getUserConversationsKey (userId : string) : string :=
  "conversations:" +:+ userId.

(** ** [/api/chatbot/conversations] *)

Module ConversationsRoute.

(** [GET]: list the conversations of the user. [limit] and [offset] are the
    query parameters after [parseInt] ([None] when the parameter is absent or
    empty; a parameter that is not a number is not covered). *)
Definition GET (limitParam offsetParam : option Z) : M Response :=
  try_catch
    (let* userId := getCurrentUserId in
     match authenticated userId with
     | None => ret (failure 401 "Unauthorized")
     | Some userId =>
         let limit := Z.min (default 20 limitParam) 100 in
         let offset := Z.max (default 0 offsetParam) 0 in
         let* configured := redisConfigured in
         if negb configured then ret (success (ConversationList [] 0 false))
         else
           let userKey := getUserConversationsKey userId in
           let* conversationIds :=
             command "ZREVRANGE" userKey
               (Redis.zrevrange userKey offset (offset + limit - 1)) in
           if bool_decide (conversationIds = []) then
             ret (success (ConversationList [] 0 false))
           else
             let* conversations :=
               mapM (fun id =>
                       let key := getConversationKey userId id in
                       command "GET" key (Redis.get key))
                    conversationIds in
             let validConversations := omap (fun c => c) conversations in
             let* total := command "ZCARD" userKey (Redis.zcard userKey) in
             ret (success (ConversationList validConversations total
                              (offset + limit <? total)))
     end)
    (fun _ => ret (failure 500 "Failed to retrieve conversations")).

(** [POST]: create a conversation. *)
Definition POST (body : option JSON) : M Response :=
  try_catch
    (let* userId := getCurrentUserId in
     match authenticated userId with
     | None => ret (failure 401 "Unauthorized")
     | Some userId =>
         let* body := req_json body in
         let* data := parse CreateConversationSchema body in
         let title := create_title data in
         let model := default "gpt-4o-mini" (create_model data) in
         let systemPrompt := create_systemPrompt data in
         let* conversationId := ask nanoid in
         let* now := ask nowISO in
         let conversation :=
           {| conv_id := conversationId;
              conv_title := title;
              conv_messages :=
                if Js.truthy systemPrompt
                then [ {| msg_role := system;
                          msg_content := default "" systemPrompt;
                          msg_timestamp := now |} ]
                else [];
              conv_model := model;
              conv_createdAt := now;
              conv_updatedAt := now;
              conv_userId := userId |} in
         let* configured := redisConfigured in
         (if configured then
            let key := getConversationKey userId conversationId in
            command "SET" key (Redis.set key conversation TTL);;;
            let userKey := getUserConversationsKey userId in
            let* dateNow := ask nowMs in
            command "ZADD" userKey (Redis.zadd userKey dateNow conversationId);;;
            command "EXPIRE" userKey (Redis.expire userKey TTL);;;
            ret tt
          else ret tt);;;
         ret (success (OneConversation conversation))
     end)
    (fun error =>
       match error with
       | ZodError issues => ret (json 400 (Failure_ "Invalid request format" issues))
       | _ => ret (failure 500 "Failed to create conversation")
       end).

(** The loop of [DELETE] over the ids. *)
Fixpoint deleteEach (userId : string) (conversationIds : list string)
    (deletedCount : Z) : M Z :=
  match conversationIds with
  | [] => ret deletedCount
  | conversationId :: rest =>
      let key := getConversationKey userId conversationId in
      let* deleted := command "DEL" key (Redis.del key) in
      if negb (deleted =? 0) then
        let userKey := getUserConversationsKey userId in
        command "ZREM" userKey (Redis.zrem userKey conversationId);;;
        deleteEach userId rest (deletedCount + 1)
      else deleteEach userId rest deletedCount
  end.

(** [DELETE]: delete several conversations; [ids] is the query parameter. *)
Definition DELETE (ids : option string) : M Response :=
  try_catch
    (let* userId := getCurrentUserId in
     match authenticated userId with
     | None => ret (failure 401 "Unauthorized")
     | Some userId =>
         let conversationIds :=
           match ids with Some s => Js.split_comma s | None => [] end in
         if bool_decide (conversationIds = []) then
           ret (failure 400 "No conversation IDs provided")
         else
           let* configured := redisConfigured in
           if negb configured then ret (success (DeletedCount 0))
           else
             let* deletedCount := deleteEach userId conversationIds 0 in
             ret (success (DeletedCount deletedCount))
     end)
    (fun _ => ret (failure 500 "Failed to delete conversations")).

End ConversationsRoute.

(** ** [/api/chatbot/conversations/[id]] *)

Module ConversationRoute.

Definition getConversation (userId conversationId : string)
  : M (option Conversation) :=
  let* configured := redisConfigured in
  if negb configured then ret None
  else
    let key := getConversationKey userId conversationId in
    command "GET" key (Redis.get key).

(** [saveConversation] sets [updatedAt] on the object it is given; the caller
    answers with that same object, so the updated conversation is returned
    along with the flag. *)
Definition saveConversation (userId : string) (conversation : Conversation)
  : M (bool * Conversation) :=
  let* configured := redisConfigured in
  if negb configured then ret (false, conversation)
  else
    let key := getConversationKey userId (conv_id conversation) in
    let* now := ask nowISO in
    let conversation :=
      {| conv_id := conv_id conversation;
         conv_title := conv_title conversation;
         conv_messages := conv_messages conversation;
         conv_model := conv_model conversation;
         conv_createdAt := conv_createdAt conversation;
         conv_updatedAt := now;
         conv_userId := conv_userId conversation |} in
    command "SET" key (Redis.set key conversation TTL);;;
    let userKey := getUserConversationsKey userId in
    let* dateNow := ask nowMs in
    command "ZADD" userKey (Redis.zadd userKey dateNow (conv_id conversation));;;
    ret (true, conversation).

(** [GET]: one conversation. *)
Definition GET (id : string) : M Response :=
  try_catch
    (let* userId := getCurrentUserId in
     match authenticated userId with
     | None => ret (failure 401 "Unauthorized")
     | Some userId =>
         let* conversation := getConversation userId id in
         match conversation with
         | None => ret (failure 404 "Conversation not found")
         | Some conversation => ret (success (OneConversation conversation))
         end
     end)
    (fun _ => ret (failure 500 "Failed to retrieve conversation")).

(** [PUT]: replace the title and/or the messages. *)
Definition PUT (id : string) (body : option JSON) : M Response :=
  try_catch
    (let* userId := getCurrentUserId in
     match authenticated userId with
     | None => ret (failure 401 "Unauthorized")
     | Some userId =>
         let* body := req_json body in
         let* data := parse UpdateConversationSchema body in
         let* conversation := getConversation userId id in
         match conversation with
         | None => ret (failure 404 "Conversation not found")
         | Some conversation =>
             let* now := ask nowISO in
             let conversation :=
               {| conv_id := conv_id conversation;
                  conv_title := default (conv_title conversation) (update_title data);
                  conv_messages :=
                    match update_messages data with
                    | Some messages =>
                        (fun msg =>
                           {| msg_role := upd_role msg;
                              msg_content := upd_content msg;
                              msg_timestamp := Js.or_else (upd_timestamp msg) now |})
                          <$> messages
                    | None => conv_messages conversation
                    end;
                  conv_model := conv_model conversation;
                  conv_createdAt := conv_createdAt conversation;
                  conv_updatedAt := conv_updatedAt conversation;
                  conv_userId := conv_userId conversation |} in
             let* (saved, conversation) := saveConversation userId conversation in
             if negb saved then ret (failure 500 "Failed to save conversation")
             else ret (success (OneConversation conversation))
         end
     end)
    (fun error =>
       match error with
       | ZodError issues => ret (json 400 (Failure_ "Invalid request format" issues))
       | _ => ret (failure 500 "Failed to update conversation")
       end).

(** [DELETE]: delete one conversation. *)
Definition DELETE (id : string) : M Response :=
  try_catch
    (let* userId := getCurrentUserId in
     match authenticated userId with
     | None => ret (failure 401 "Unauthorized")
     | Some userId =>
         let* configured := redisConfigured in
         if negb configured then ret (success (Deleted false))
         else
           let* conversation := getConversation userId id in
           match conversation with
           | None => ret (failure 404 "Conversation not found")
           | Some _ =>
               let key := getConversationKey userId id in
               let* deleted := command "DEL" key (Redis.del key) in
               (if negb (deleted =? 0) then
                  let userKey := getUserConversationsKey userId in
                  command "ZREM" userKey (Redis.zrem userKey id);;; ret tt
                else ret tt);;;
               ret (success (Deleted (0 <? deleted)))
           end
     end)
    (fun _ => ret (failure 500 "Failed to delete conversation")).

(** [PATCH]: append one message. *)
Definition PATCH (id : string) (body : option JSON) : M Response :=
  try_catch
    (let* userId := getCurrentUserId in
     match authenticated userId with
     | None => ret (failure 401 "Unauthorized")
     | Some userId =>
         let* body := req_json body in
         let* data := parse AddMessageSchema body in
         let* conversation := getConversation userId id in
         match conversation with
         | None => ret (failure 404 "Conversation not found")
         | Some conversation =>
             let* now := ask nowISO in
             let newMessage :=
               {| msg_role := role data;
                  msg_content := content data;
                  msg_timestamp := now |} in
             let conversation :=
               {| conv_id := conv_id conversation;
                  conv_title := conv_title conversation;
                  conv_messages := conv_messages conversation ++ [newMessage];
                  conv_model := conv_model conversation;
                  conv_createdAt := conv_createdAt conversation;
                  conv_updatedAt := conv_updatedAt conversation;
                  conv_userId := conv_userId conversation |} in
             let* (saved, conversation) := saveConversation userId conversation in
             if negb saved then ret (failure 500 "Failed to save message")
             else ret (success (MessageAdded conversation newMessage))
         end
     end)
    (fun error =>
       match error with
       | ZodError issues => ret (json 400 (Failure_ "Invalid request format" issues))
       | _ => ret (failure 500 "Failed to add message")
       end).

End ConversationRoute.

(** [await promise] *)
Definition await {A} (promise : Outcome A) : M A := fun _ st => (promise, st).

(** ** [streamText] of the [ai] package, as the chat handler uses it

    [streamText] checks its settings, sends the prompt to the backend and
    returns at once with the stream of the output, which is read afterwards.
    The callbacks the caller registered run as the stream is read: [onChunk]
    for every chunk in the order of arrival, [onFinish] once when the
    backend has completed, [onError] when the backend fails during the
    stream. The promises [result.text] and [result.usage] settle when the
    stream has been read to its end; as long as nothing reads it they stay
    pending. *)

Module Sdk.

Record Callbacks := {
  onChunk : option (string -> list StreamEvent);
  onFinish : option (Usage -> string -> list StreamEvent);
  onError : option (string -> list StreamEvent)
}.

(** What [streamText] returns: the output of the backend and the callbacks;
    [consumed] tells whether something reads the stream. *)
Record Result := {
  chunks : list string;
  completion : Completion;
  callbacks : Callbacks;
  consumed : bool
}.

(** [streamText({ model, messages, temperature, maxTokens, ... })]. The
    settings are checked before anything is sent: [maxTokens] has to be an
    integer (that it is at least 1 follows from the schema of the request),
    otherwise the call throws and the backend is not called. *)
Definition streamText (backend : Backend) (messages : list ChatMessage)
    (temperature maxTokens : Q) (callbacks : Callbacks) : M Result :=
  if Js.isInteger maxTokens then
    let* run := generate backend messages temperature maxTokens in
    match run with
    | ThrowsOnCall => throw (RuntimeError "streamText")
    | Streams chunks completion =>
        ret {| chunks := chunks; completion := completion;
               callbacks := callbacks; consumed := false |}
    end
  else throw (RuntimeError "maxTokens must be an integer").

Definition fire {A} (callback : option (A -> list StreamEvent)) (a : A)
  : list StreamEvent :=
  match callback with
  | Some f => f a
  | None => []
  end.

(** What the callbacks write while the stream is read to its end. *)
Definition read (result : Result) : list StreamEvent :=
  (flat_map (fire (onChunk (callbacks result))) (chunks result) ++
   match completion result with
   | Completes usage finishReason =>
       match onFinish (callbacks result) with
       | Some f => f usage finishReason
       | None => []
       end
   | Fails error => fire (onError (callbacks result)) error
   end)%list.

(** What is given to [pipeDataStreamToResponse]: the [ServerResponse] of
    Node that it expects, or the [DataStreamWriter] of
    [createDataStreamResponse]. *)
Inductive Target := ServerResponse | DataStreamWriter.

(** [result.pipeDataStreamToResponse(response)] starts with
    [response.writeHead(...)] and then reads the stream into the response.
    A [DataStreamWriter] has no [writeHead]: given one, the call throws a
    [TypeError] before the stream is read. *)
Definition pipeDataStreamToResponse (result : Result) (response : Target)
  : Outcome (list StreamEvent) :=
  match response with
  | ServerResponse => Return (read result)
  | DataStreamWriter => Throw (RuntimeError "response.writeHead is not a function")
  end.

(** [result.text]: the whole text once the stream has been read to its end;
    the promise rejects when the backend fails. *)
Definition text (result : Result) : Outcome string :=
  if consumed result then
    match completion result with
    | Completes _ _ => Return (String.concat "" (chunks result))
    | Fails error => Throw (RuntimeError error)
    end
  else Pending.

(** [result.usage] *)
Definition usage (result : Result) : Outcome Usage :=
  if consumed result then
    match completion result with
    | Completes usage _ => Return usage
    | Fails error => Throw (RuntimeError error)
    end
  else Pending.

End Sdk.

(** ** [/api/chatbot] *)

Module ChatRoute.

Definition SYSTEM_PROMPTS_default : string :=
  "You are a helpful, harmless, and honest AI assistant. Provide accurate, detailed, and well-structured responses to user queries.".

(** [convertToCoreMessages] of the [ai] package, on messages that carry a
    role and a text: each message is kept, in order. *)
Definition convertToCoreMessages (messages : list ChatMessage) : list ChatMessage :=
  messages.

(** The model the request runs on: the requested one, else the [id] of the
    model saved in the cookie, else the default. [None] stands for a value
    that is not a string: [parsedModel.id] is whatever the JSON of the
    cookie holds under [id], and [undefined] when the parsed value is not an
    object or has no [id]. Reading [id] of [null] throws inside the inner
    [try], whose [catch] keeps the default. *)
Definition selectModel (requestedModel : option string) (savedModel : Cookie)
  : option string :=
  let selectedModel := Js.or_else requestedModel (DEFAULT_MODELS openai) in
  match savedModel with
  | CookieJson parsedModel =>
      if Js.truthy requestedModel then Some selectedModel
      else
        match parsedModel with
        | JNull => Some selectedModel
        | JObj fields =>
            match field "id" fields with
            | Some (JStr id) => Some id
            | _ => None
            end
        | _ => None
        end
  | CookieNotJson => Some selectedModel
  | NoCookie => Some selectedModel
  end.

(** The messages sent to the backend: the system message, then the history. *)
Definition coreMessages (validatedData : ChatbotRequest) : list ChatMessage :=
  let systemMessage :=
    {| role := system;
       content := Js.or_else (req_systemPrompt validatedData)
                             SYSTEM_PROMPTS_default |} in
  convertToCoreMessages (systemMessage :: req_messages validatedData).

Definition temperature (validatedData : ChatbotRequest) : Q :=
  default (7 # 10)%Q (req_temperature validatedData).

Definition maxTokens (validatedData : ChatbotRequest) : Q :=
  default (2000 # 1)%Q (req_maxTokens validatedData).

(** The [execute] callback given to [createDataStreamResponse]: what it
    writes to the data stream with [dataStream.writeData]. Both calls of the
    [try] block throw, if they do, before anything is written. *)
Definition execute (conversationId : option string) (backend : Backend)
    (validatedData : ChatbotRequest) : M (list StreamEvent) :=
  try_catch
    (let* result :=
       Sdk.streamText backend (coreMessages validatedData)
         (temperature validatedData) (maxTokens validatedData)
         {| Sdk.onFinish := Some (fun usage finishReason =>
                                    [Finished conversationId usage finishReason]);
            Sdk.onChunk := Some (fun text => [TextChunk text conversationId]);
            Sdk.onError := None |} in
     await (Sdk.pipeDataStreamToResponse result Sdk.DataStreamWriter))
    (fun _ => ret [Error conversationId "Failed to generate response"]).

(** The handler past the validation of the body. [getProvider] calls
    [model.startsWith], which throws on a value that is not a string. *)
Definition respond (validatedData : ChatbotRequest) : M Response :=
  let conversationId := req_conversationId validatedData in
  let* userId := getCurrentUserId in
  let* savedModel := ask selectedModelCookie in
  match selectModel (req_model validatedData) savedModel with
  | None => throw (RuntimeError "model.startsWith is not a function")
  | Some selectedModel =>
      let backend := getProvider selectedModel in
      if req_stream validatedData then
        let* written := execute conversationId backend validatedData in
        ret (success (DataStream written))
      else
        let* result :=
          Sdk.streamText backend (coreMessages validatedData)
            (temperature validatedData) (maxTokens validatedData)
            {| Sdk.onFinish := None; Sdk.onChunk := None;
               Sdk.onError := None |} in
        let* response := await (Sdk.text result) in
        ret (success (Completion_ {| role := assistant; content := response |}
                                  conversationId selectedModel
                                  (Sdk.usage result)))
  end.

Definition POST (body : option JSON) : M Response :=
  try_catch
    (let* body := req_json body in
     let* validatedData := parse ChatbotRequestSchema body in
     respond validatedData)
    (fun error =>
       match error with
       | ZodError issues => ret (json 400 (Failure_ "Invalid request format" issues))
       | _ => ret (failure 500 "Internal server error")
       end).

(** The names under which [DEFAULT_MODELS] holds the providers. *)
Definition provider_key (p : Provider) : string :=
  match p with
  | openai => "openai"
  | anthropic => "anthropic"
  | google => "google"
  | groq => "groq"
  | xai => "xai"
  end.

Definition SYSTEM_PROMPTS : list (string * string) :=
  [ ("default", SYSTEM_PROMPTS_default);
    ("creative",
     "You are a creative and imaginative AI assistant. Help users with creative tasks, brainstorming, and innovative solutions.");
    ("technical",
     "You are a technical AI assistant specializing in programming, engineering, and technical problem-solving. Provide precise, detailed technical guidance.");
    ("analytical",
     "You are an analytical AI assistant focused on data analysis, research, and logical reasoning. Provide thorough, evidence-based responses.");
    ("casual",
     "You are a friendly and casual AI assistant. Engage in natural, conversational dialogue while being helpful and informative.") ].

(** [GET]: what the API says of itself; the answer is always 200. *)
Record Info := {
  message : string;
  availableModels : list (string * string);
  systemPrompts : list string;
  endpoints : list (string * string)
}.

Definition GET : Info :=
  {| message := "Chatbot API is running";
     availableModels :=
       (fun p => (provider_key p, DEFAULT_MODELS p))
         <$> [openai; anthropic; google; groq; xai];
     systemPrompts := fst <$> SYSTEM_PROMPTS;
     endpoints := [ ("chat", "/api/chatbot");
                    ("conversations", "/api/chatbot/conversations");
                    ("models", "/api/chatbot/models") ] |}.

End ChatRoute.

(** ** [/api/chatbot/models]

    The handlers of this route read the configured models ([getModels] of
    [@/lib/config/models]) and ask whether a provider is enabled
    ([isProviderEnabled] of [@/lib/utils/registry]); both are taken as they
    come. *)

(** A model of the configuration ([Model] of [@/lib/types/models]). The
    handlers read [id], [providerId] and [enabled]; the other fields travel
    with the model ([...model]). *)
Record Model := {
  model_id : string;
  model_providerId : string;
  model_enabled : bool;
  model_rest : list (string * JSON)
}.

(** What the handlers take from outside their file: [getModels] answers
    with the models or fails ([None]); [isProviderEnabled] is the switch of
    the registry; [toLowerCase] is [String.prototype.toLowerCase] of the
    JavaScript engine, whose case mapping is not spelt out here (the
    properties hold of every mapping). *)
Record Config := {
  getModels : option (list Model);
  isProviderEnabled : string -> bool;
  toLowerCase : string -> string
}.

(** The handlers of this route await nothing that can stay pending: what
    they compute returns or throws. *)
Module Sync.

Inductive Outcome (A : Type) :=
| Return (a : A)
| Throw (e : Exn).
Arguments Return {A} a.
Arguments Throw {A} e.

End Sync.

Module ModelsRoute.
Import Sync.

(** Truthiness of a JSON value ([undefined] is [None]). *)
Definition truthy_value (v : option JSON) : bool :=
  match v with
  | None => false
  | Some JNull => false
  | Some (JBool b) => b
  | Some (JNum q) => negb (Qeq_bool q 0)
  | Some (JStr s) => negb (String.eqb s "")
  | Some (JArr _) => true
  | Some (JObj _) => true
  end.

Record Details := {
  details_description : string;
  details_contextWindow : Z;
  details_maxOutputTokens : Z;
  details_capabilities : list string;
  details_pricingTier : string;
  details_provider : string
}.

Definition MODEL_DETAILS : list (string * Details) :=
  [ ("gpt-4o",
     {| details_description :=
          "Most advanced multimodal model with high intelligence";
        details_contextWindow := 128000;
        details_maxOutputTokens := 4096;
        details_capabilities := ["text"; "vision"; "tool-calling"];
        details_pricingTier := "premium";
        details_provider := "OpenAI" |});
    ("gpt-4o-mini",
     {| details_description :=
          "Affordable and intelligent small model for fast, lightweight tasks";
        details_contextWindow := 128000;
        details_maxOutputTokens := 16384;
        details_capabilities := ["text"; "vision"; "tool-calling"];
        details_pricingTier := "standard";
        details_provider := "OpenAI" |});
    ("gpt-4-turbo",
     {| details_description :=
          "Previous generation flagship model with broad capabilities";
        details_contextWindow := 128000;
        details_maxOutputTokens := 4096;
        details_capabilities := ["text"; "vision"; "tool-calling"];
        details_pricingTier := "premium";
        details_provider := "OpenAI" |});
    ("gpt-3.5-turbo",
     {| details_description := "Fast, inexpensive model for simple tasks";
        details_contextWindow := 16385;
        details_maxOutputTokens := 4096;
        details_capabilities := ["text"; "tool-calling"];
        details_pricingTier := "economy";
        details_provider := "OpenAI" |});
    ("claude-3-5-sonnet-20241022",
     {| details_description :=
          "Most advanced Claude model with superior reasoning";
        details_contextWindow := 200000;
        details_maxOutputTokens := 8192;
        details_capabilities := ["text"; "vision"; "tool-calling"];
        details_pricingTier := "premium";
        details_provider := "Anthropic" |});
    ("claude-3-5-haiku-20241022",
     {| details_description := "Fast and affordable Claude model";
        details_contextWindow := 200000;
        details_maxOutputTokens := 8192;
        details_capabilities := ["text"; "vision"; "tool-calling"];
        details_pricingTier := "standard";
        details_provider := "Anthropic" |});
    ("claude-3-haiku-20240307",
     {| details_description := "Fastest model for simple text tasks";
        details_contextWindow := 200000;
        details_maxOutputTokens := 4096;
        details_capabilities := ["text"; "tool-calling"];
        details_pricingTier := "economy";
        details_provider := "Anthropic" |});
    ("gemini-1.5-pro",
     {| details_description := "Advanced reasoning and long context model";
        details_contextWindow := 2000000;
        details_maxOutputTokens := 8192;
        details_capabilities := ["text"; "vision"; "tool-calling"];
        details_pricingTier := "premium";
        details_provider := "Google" |});
    ("gemini-1.5-flash",
     {| details_description :=
          "Fast and efficient model for high-frequency tasks";
        details_contextWindow := 1000000;
        details_maxOutputTokens := 8192;
        details_capabilities := ["text"; "vision"; "tool-calling"];
        details_pricingTier := "standard";
        details_provider := "Google" |});
    ("llama-3.1-8b-instant",
     {| details_description := "Fast Llama model optimized for speed";
        details_contextWindow := 128000;
        details_maxOutputTokens := 4096;
        details_capabilities := ["text"; "tool-calling"];
        details_pricingTier := "economy";
        details_provider := "Groq" |});
    ("llama-3.1-70b-versatile",
     {| details_description := "Large Llama model with strong capabilities";
        details_contextWindow := 128000;
        details_maxOutputTokens := 4096;
        details_capabilities := ["text"; "tool-calling"];
        details_pricingTier := "standard";
        details_provider := "Groq" |});
    ("grok-beta",
     {| details_description := "Grok model with real-time information access";
        details_contextWindow := 128000;
        details_maxOutputTokens := 4096;
        details_capabilities := ["text"; "real-time-info"];
        details_pricingTier := "premium";
        details_provider := "xAI" |}) ].

(** [MODEL_DETAILS[id]]. An id that names an inherited property
    ([Js.inherited]) finds a value that has none of the fields read by the
    enrichment, which then takes its defaults as for an id that is not in
    the table. *)
Definition details_of (id : string) : option Details :=
  snd <$> List.find (fun kv => String.eqb kv.1 id) MODEL_DETAILS.

(** A model of the answer: the model of the configuration with the fields
    that the enrichment sets (they replace fields of the same name that the
    model may carry). *)
Record Enriched := {
  source : Model;
  description : string;
  contextWindow : Z;
  maxOutputTokens : Z;
  capabilities : list string;
  pricingTier : string;
  isEnabled : bool
}.

Definition enrich (config : Config) (model : Model) : Enriched :=
  let details := details_of (model_id model) in
  {| source := model;
     description :=
       Js.or_else (details_description <$> details) "AI language model";
     contextWindow := Js.or_number (details_contextWindow <$> details) 4096;
     maxOutputTokens := Js.or_number (details_maxOutputTokens <$> details) 2048;
     capabilities := default ["text"] (details_capabilities <$> details);
     pricingTier := Js.or_else (details_pricingTier <$> details) "standard";
     isEnabled :=
       model_enabled model && isProviderEnabled config (model_providerId model) |}.

Definition providerId (model : Enriched) : string :=
  model_providerId (source model).

(** The three filters of the query; a parameter that is absent or empty
    filters nothing. *)
Definition by_provider (config : Config) (provider : option string)
    (models : list Enriched) : list Enriched :=
  match provider with
  | Some p =>
      if String.eqb p "" then models
      else filter (fun model =>
                     toLowerCase config (providerId model) = toLowerCase config p)
                  models
  | None => models
  end.

Definition by_capability (capability : option string) (models : list Enriched)
  : list Enriched :=
  match capability with
  | Some c =>
      if String.eqb c "" then models
      else filter (fun model => c ∈ capabilities model) models
  | None => models
  end.

Definition by_pricingTier (tier : option string) (models : list Enriched)
  : list Enriched :=
  match tier with
  | Some t =>
      if String.eqb t "" then models
      else filter (fun model => pricingTier model = t) models
  | None => models
  end.

(** [acc[key].push(model)] when [acc] has the property [key] of its own. *)
Fixpoint push (key : string) (model : Enriched)
    (acc : list (string * list Enriched)) : option (list (string * list Enriched)) :=
  match acc with
  | [] => None
  | (k, models) :: acc' =>
      if String.eqb k key then Some ((k, models ++ [model]) :: acc')
      else cons (k, models) <$> push key model acc'
  end.

(** One round of the [reduce] that groups the models by provider: [acc] is
    the object under construction, its own properties in the order of their
    creation. For a provider id that names an inherited property and is not
    yet a property of [acc], [acc[id]] is the inherited value, which has no
    [push]: the call throws. *)
Definition group_step (acc : list (string * list Enriched)) (model : Enriched)
  : Outcome (list (string * list Enriched)) :=
  match push (providerId model) model acc with
  | Some acc' => Return acc'
  | None =>
      if bool_decide (providerId model ∈ Js.inherited)
      then Throw (RuntimeError "acc[model.providerId].push is not a function")
      else Return (acc ++ [(providerId model, [model])])
  end.

Fixpoint group (models : list Enriched) (acc : list (string * list Enriched))
  : Outcome (list (string * list Enriched)) :=
  match models with
  | [] => Return acc
  | model :: models' =>
      match group_step acc model with
      | Return acc' => group models' acc'
      | Throw e => Throw e
      end
  end.

Record ProviderStats := {
  stats_provider : string;
  stats_totalModels : nat;
  stats_enabledModels : nat;
  stats_capabilities : list string;
  stats_pricingTiers : list string
}.

Definition stats (entry : string * list Enriched) : ProviderStats :=
  {| stats_provider := entry.1;
     stats_totalModels := length entry.2;
     stats_enabledModels := length (filter (fun m => isEnabled m = true) entry.2);
     stats_capabilities := Js.unique (entry.2 ≫= capabilities);
     stats_pricingTiers := Js.unique (pricingTier <$> entry.2) |}.

Record Listing := {
  models : list Enriched;
  modelsByProvider : list (string * list Enriched);
  providerStats : list ProviderStats;
  totalModels : nat;
  availableProviders : list string;
  availableCapabilities : list string;
  availablePricingTiers : list string
}.

Inductive Body :=
| Failed (error : string)
| Listed (data : Listing)
| Updated (message : string) (model : Model) (preferences : JSON).

Record Response := { status : Z; body : Body }.

(** [GET]: list the models; the three arguments are the query parameters
    [provider], [capability] and [pricing_tier]. *)
Definition GET (config : Config) (provider capability pricing_tier : option string)
  : Response :=
  match
    match getModels config with
    | None => Throw (RuntimeError "getModels")
    | Some configModels =>
        let enrichedModels := enrich config <$> configModels in
        let filteredModels :=
          by_pricingTier pricing_tier
            (by_capability capability
               (by_provider config provider enrichedModels)) in
        match group filteredModels [] with
        | Throw e => Throw e
        | Return modelsByProvider =>
            Return
              {| models := filteredModels;
                 modelsByProvider := Js.entries modelsByProvider;
                 providerStats := stats <$> Js.entries modelsByProvider;
                 totalModels := length filteredModels;
                 availableProviders := fst <$> Js.entries modelsByProvider;
                 availableCapabilities :=
                   Js.unique (filteredModels ≫= capabilities);
                 availablePricingTiers :=
                   Js.unique (pricingTier <$> filteredModels) |}
        end
    end
  with
  | Return data => {| status := 200; body := Listed data |}
  | Throw _ => {| status := 500; body := Failed "Failed to retrieve models" |}
  end.

(** The property [name] of a value that is not [null]: a value that is not
    an object has none. *)
Definition property (name : string) (value : JSON) : option JSON :=
  match value with
  | JObj fields => field name fields
  | _ => None
  end.

(** [const { modelId, preferences } = await req.json()]: destructuring
    throws on [null]. *)
Definition destructure (body : option JSON)
  : Outcome (option JSON * option JSON) :=
  match body with
  | None => Throw SyntaxError
  | Some JNull => Throw (RuntimeError "Cannot destructure property of null")
  | Some value => Return (property "modelId" value, property "preferences" value)
  end.

(** [id === modelId] for the [id] of a model, which is a string. *)
Definition same_id (id : string) (modelId : option JSON) : bool :=
  match modelId with
  | Some (JStr s) => String.eqb id s
  | _ => false
  end.

(** [POST]: check a model preference. *)
Definition POST (config : Config) (body : option JSON) : Response :=
  match
    match destructure body with
    | Throw e => Throw e
    | Return (modelId, preferences) =>
        if negb (truthy_value modelId) then
          Return {| status := 400; body := Failed "Model ID is required" |}
        else
          match getModels config with
          | None => Throw (RuntimeError "getModels")
          | Some configModels =>
              match List.find (fun m => same_id (model_id m) modelId)
                              configModels with
              | None =>
                  Return {| status := 404; body := Failed "Model not found" |}
              | Some model =>
                  if negb (model_enabled model)
                     || negb (isProviderEnabled config (model_providerId model))
                  then Return {| status := 400;
                                 body := Failed "Model is not available" |}
                  else Return
                         {| status := 200;
                            body := Updated "Model preferences updated" model
                                      (if truthy_value preferences
                                       then default (JObj []) preferences
                                       else JObj []) |}
              end
          end
    end
  with
  | Return response => response
  | Throw _ => {| status := 500; body := Failed "Failed to update preferences" |}
  end.

End ModelsRoute.

(** ** Vocabulary of the properties *)

(** The endpoint surface: one request to one of the handlers. *)
Inductive Request :=
| ListRequest (limit offset : option Z)
| CreateRequest (body : option JSON)
| DeleteManyRequest (ids : option string)
| GetRequest (id : string)
| ReplaceRequest (id : string) (body : option JSON)
| DeleteRequest (id : string)
| AppendRequest (id : string) (body : option JSON)
| ChatRequest (body : option JSON).

Definition handle (request : Request) : M Response :=
  match request with
  | ListRequest limit offset => ConversationsRoute.GET limit offset
  | CreateRequest body => ConversationsRoute.POST body
  | DeleteManyRequest ids => ConversationsRoute.DELETE ids
  | GetRequest id => ConversationRoute.GET id
  | ReplaceRequest id body => ConversationRoute.PUT id body
  | DeleteRequest id => ConversationRoute.DELETE id
  | AppendRequest id body => ConversationRoute.PATCH id body
  | ChatRequest body => ChatRoute.POST body
  end.

(** Requests served one after the other, each in its own environment. *)
Definition serve (requests : list (Env * Request)) (st : State) : State :=
  fold_left (fun st er => (handle er.2 er.1 st).2) requests st.

(** At the instant [now] no key of the store has expired. *)
Definition unexpired (now : Z) (r : Redis.t) : bool :=
  bool_decide (map_Forall (fun _ entry => Redis.alive now entry.2 = true)
                          (Redis.strings r)) &&
  bool_decide (map_Forall (fun _ entry => Redis.alive now entry.2 = true)
                          (Redis.zsets r)).

Definition nothing_expired (st : State) (now : Z) : bool :=
  match redis st with
  | Some r => unexpired now r
  | None => true
  end.

(** A run of requests during which no request finds an expired key. *)
Fixpoint unexpiring (requests : list (Env * Request)) (st : State) : bool :=
  match requests with
  | [] => true
  | er :: rest =>
      nothing_expired st (nowMs er.1) &&
      unexpiring rest (handle er.2 er.1 st).2
  end.

(** The same environment without a signed-in user. *)
Definition anonymous (env : Env) : Env :=
  {| currentUserId := None;
     nowMs := nowMs env;
     nowISO := nowISO env;
     nanoid := nanoid env;
     selectedModelCookie := selectedModelCookie env;
     llm := llm env;
     redisUp := redisUp env;
     redisLostAt := redisLostAt env |}.

(** A handler answers with success: it returns a response of status 200. *)
Definition succeeds (o : Outcome Response) : Prop :=
  exists response, o = Return response /\ status response = 200.

Definition event_conversationId (e : StreamEvent) : option string :=
  match e with
  | TextChunk _ c => c
  | Finished c _ _ => c
  | Error c _ => c
  end.

(** The conversation id that a chat response carries is [conversationId]. *)
Definition echoes (conversationId : option string) (b : Body) : Prop :=
  match b with
  | DataStream events =>
      Forall (fun e => event_conversationId e = conversationId) events
  | Completion_ _ c _ _ => c = conversationId
  | _ => True
  end.

(** The call that a validated chat request makes to the backend of the
    model it runs on. *)
Definition backendCall (validatedData : ChatbotRequest) (model : string) : Call :=
  CallGenerate (getProvider model)
    (ChatRoute.coreMessages validatedData)
    (ChatRoute.temperature validatedData)
    (ChatRoute.maxTokens validatedData).

(** What the backend does on that call. *)
Definition backendRun (validatedData : ChatbotRequest) (env : Env)
    (model : string) : BackendRun :=
  llm env (getProvider model)
    (ChatRoute.coreMessages validatedData)
    (ChatRoute.temperature validatedData)
    (ChatRoute.maxTokens validatedData).

(** The model that a validated chat request runs on ([None]: a value that
    is not a string). *)
Definition selected (validatedData : ChatbotRequest) (env : Env) : option string :=
  ChatRoute.selectModel (req_model validatedData) (selectedModelCookie env).

(** The state once [streamText] has been called for a validated chat
    request: the call to the backend is in the log, unless the settings were
    refused. *)
Definition called (validatedData : ChatbotRequest) (model : string) (st : State)
  : State :=
  if Js.isInteger (ChatRoute.maxTokens validatedData) then
    {| redis := redis st;
       calls := calls st ++ [backendCall validatedData model] |}
  else st.

(** *** The store *)

Definition ms (seconds : Z) : Z := seconds * 1000.

(** A user id without [":"]: the key scheme [conversation:<user>:<id>]
    tells two users apart only then. *)
Fixpoint no_colon (s : string) : bool :=
  match s with
  | EmptyString => true
  | String c s' => negb (Ascii.eqb c ":"%char) && no_colon s'
  end.

Definition plain_user (env : Env) : Prop :=
  forall userId, currentUserId env = Some userId -> no_colon userId = true.

(** The request runs for the signed-in user [userId]. *)
Definition acting (env : Env) (userId : string) : Prop :=
  authenticated (currentUserId env) = Some userId.

(** At the instant [now], the index of the user lists the conversation. *)
Definition indexed (r : Redis.t) (now : Z) (userId conversationId : string) : Prop :=
  is_Some (Redis.members (getUserConversationsKey userId) now r !! conversationId).

(** At the instant [now], the record of the conversation exists. *)
Definition recorded (r : Redis.t) (now : Z) (userId conversationId : string) : Prop :=
  is_Some (Redis.live now
             (Redis.strings r !! getConversationKey userId conversationId)).

(** Index and records in lockstep at the instant [now]. *)
Definition lockstep (r : Redis.t) (now : Z) : Prop :=
  forall userId conversationId,
    no_colon userId = true ->
    indexed r now userId conversationId <-> recorded r now userId conversationId.

Definition store_lockstep (st : State) (now : Z) : Prop :=
  match redis st with
  | Some r => lockstep r now
  | None => True
  end.

(** The same, on the maps as they are, whatever the expiry instants. *)
Definition raw_indexed (r : Redis.t) (userId conversationId : string) : Prop :=
  exists z expiry,
    Redis.zsets r !! getUserConversationsKey userId = Some (z, expiry) /\
    is_Some (z !! conversationId).

Definition raw_recorded (r : Redis.t) (userId conversationId : string) : Prop :=
  is_Some (Redis.strings r !! getConversationKey userId conversationId).

Definition raw_lockstep (r : Redis.t) : Prop :=
  forall userId conversationId,
    no_colon userId = true ->
    raw_indexed r userId conversationId <-> raw_recorded r userId conversationId.

(** No key expires before the instant [horizon]. *)
Definition lasts (horizon : Z) (expiry : option Z) : Prop :=
  match expiry with
  | Some t => horizon <= t
  | None => True
  end.

Definition settled (horizon : Z) (r : Redis.t) : Prop :=
  (forall key v expiry,
      Redis.strings r !! key = Some (v, expiry) -> lasts horizon expiry) /\
  (forall key z expiry,
      Redis.zsets r !! key = Some (z, expiry) -> lasts horizon expiry).

(** The record of a conversation as a request finds it. *)
Definition stored (st : State) (now : Z) (userId conversationId : string)
  : option Conversation :=
  match redis st with
  | Some r =>
      Redis.live now
        (Redis.strings r !! getConversationKey userId conversationId)
  | None => None
  end.

(** The store answers every command of the request, or none. *)
Definition steady (env : Env) : bool :=
  redisUp env || (redisLostAt env =? 0)%nat.

(** The store before anything was written to it. *)
Definition initial : State := {| redis := Some Redis.empty; calls := [] |}.

(** The state of a deployment without Redis. *)
Definition unconfigured : State := {| redis := None; calls := [] |}.

(** *** Reasoning about handlers

    [wp m env st Q]: run in [env] from [st], the computation [m] ends in an
    outcome and a state that satisfy [Q]. *)

Definition wp {A} (m : M A) (env : Env) (st : State)
    (Q : Outcome A -> State -> Prop) : Prop :=
  Q (m env st).1 (m env st).2.

(** The store during the retention window that ends at [horizon]: nothing
    expires before [horizon], and the index lists exactly the conversations
    that have a record. *)
Definition invariant (horizon : Z) (r : Redis.t) : Prop :=
  settled horizon r /\ raw_lockstep r.

(** A property of Redis that holds of a state (of any state without
    Redis). *)
Definition holds (I : Redis.t -> Prop) (st : State) : Prop :=
  match redis st with
  | Some r => I r
  | None => True
  end.

(** Every record sits under the key of its own id. *)
Definition filed (r : Redis.t) : Prop :=
  forall userId conversationId conversation expiry,
    no_colon userId = true ->
    Redis.strings r !! getConversationKey userId conversationId
      = Some (conversation, expiry) ->
    conv_id conversation = conversationId.

(** Writing a record and listing it in the index of its user, as
    [saveConversation] does. *)
Definition saved (now : Z) (u : string) (conv : Conversation) (r : Redis.t)
  : Redis.t :=
  (Redis.zadd (getUserConversationsKey u) now (conv_id conv) now
     (Redis.set (getConversationKey u (conv_id conv)) conv TTL now r).2).2.

(** The same followed by [EXPIRE] on the index, as the creation does. *)
Definition created (now : Z) (u : string) (conv : Conversation) (r : Redis.t)
  : Redis.t :=
  (Redis.expire (getUserConversationsKey u) TTL now (saved now u conv r)).2.

(** Removing a record and its entry in the index. *)
Definition removed (now : Z) (u c : string) (r : Redis.t) : Redis.t :=
  (Redis.zrem (getUserConversationsKey u) c now
     (Redis.del (getConversationKey u c) now r).2).2.

(** On the keys of the user, [r'] holds what [r] holds: the records of the
    user and the index of the user. *)
Definition same_for (userId : string) (r r' : Redis.t) : Prop :=
  (forall conversationId,
      Redis.strings r' !! getConversationKey userId conversationId
      = Redis.strings r !! getConversationKey userId conversationId) /\
  Redis.zsets r' !! getUserConversationsKey userId
  = Redis.zsets r !! getUserConversationsKey userId.

(** *** What the handlers write *)

(** The conversation that the creation builds. *)
Definition new_conversation (env : Env) (userId : string)
    (data : CreateConversation) : Conversation :=
  {| conv_id := nanoid env;
     conv_title := create_title data;
     conv_messages :=
       if Js.truthy (create_systemPrompt data)
       then [ {| msg_role := system;
                 msg_content := default "" (create_systemPrompt data);
                 msg_timestamp := nowISO env |} ]
       else [];
     conv_model := default "gpt-4o-mini" (create_model data);
     conv_createdAt := nowISO env;
     conv_updatedAt := nowISO env;
     conv_userId := userId |}.

(** The conversation that [PUT] saves in the place of [old]. *)
Definition replaced (env : Env) (data : UpdateConversation) (old : Conversation)
  : Conversation :=
  {| conv_id := conv_id old;
     conv_title := default (conv_title old) (update_title data);
     conv_messages :=
       match update_messages data with
       | Some messages =>
           (fun msg =>
              {| msg_role := upd_role msg;
                 msg_content := upd_content msg;
                 msg_timestamp := Js.or_else (upd_timestamp msg) (nowISO env) |})
             <$> messages
       | None => conv_messages old
       end;
     conv_model := conv_model old;
     conv_createdAt := conv_createdAt old;
     conv_updatedAt := nowISO env;
     conv_userId := conv_userId old |}.

(** The conversation that [PATCH] saves in the place of [old]. *)
Definition appended (env : Env) (data : ChatMessage) (old : Conversation)
  : Conversation :=
  {| conv_id := conv_id old;
     conv_title := conv_title old;
     conv_messages :=
       conv_messages old ++
       [ {| msg_role := role data;
            msg_content := content data;
            msg_timestamp := nowISO env |} ];
     conv_model := conv_model old;
     conv_createdAt := conv_createdAt old;
     conv_updatedAt := nowISO env;
     conv_userId := conv_userId old |}.

(** One round of the loop of the deletion of several conversations. *)
Definition delete_one (now : Z) (u id : string) (r : Redis.t) : Redis.t :=
  if (Redis.del (getConversationKey u id) now r).1 =? 0
  then (Redis.del (getConversationKey u id) now r).2
  else removed now u id r.

(** Writing the record alone, as a save does when the store is lost before
    the index is written. *)
Definition recorded_only (now : Z) (u : string) (conv : Conversation)
    (r : Redis.t) : Redis.t :=
  (Redis.set (getConversationKey u (conv_id conv)) conv TTL now r).2.

(** What one request of the user [u] may do to Redis: the whole of what the
    handler does, or the first part of it when the store is lost on the
    way. *)
Inductive changes (env : Env) (u : string) (r : Redis.t)
  : Request -> Redis.t -> Prop :=
| changes_nothing request : changes env u r request r
| changes_create payload data :
    CreateConversationSchema (Some payload) = Ok data ->
    changes env u r (CreateRequest (Some payload))
      (created (nowMs env) u (new_conversation env u data) r)
| changes_replace id payload data old :
    UpdateConversationSchema (Some payload) = Ok data ->
    Redis.live (nowMs env) (Redis.strings r !! getConversationKey u id)
      = Some old ->
    changes env u r (ReplaceRequest id (Some payload))
      (saved (nowMs env) u (replaced env data old) r)
| changes_append id payload data old :
    AddMessageSchema (Some payload) = Ok data ->
    Redis.live (nowMs env) (Redis.strings r !! getConversationKey u id)
      = Some old ->
    changes env u r (AppendRequest id (Some payload))
      (saved (nowMs env) u (appended env data old) r)
| changes_delete id old :
    Redis.live (nowMs env) (Redis.strings r !! getConversationKey u id)
      = Some old ->
    changes env u r (DeleteRequest id) (removed (nowMs env) u id r)
| changes_delete_many ids :
    changes env u r (DeleteManyRequest (Some ids))
      (foldl (fun r id => delete_one (nowMs env) u id r) r (Js.split_comma ids))
| changes_create_cut payload data :
    CreateConversationSchema (Some payload) = Ok data ->
    changes env u r (CreateRequest (Some payload))
      (recorded_only (nowMs env) u (new_conversation env u data) r)
| changes_create_unexpiring payload data :
    CreateConversationSchema (Some payload) = Ok data ->
    changes env u r (CreateRequest (Some payload))
      (saved (nowMs env) u (new_conversation env u data) r)
| changes_replace_cut id payload data old :
    UpdateConversationSchema (Some payload) = Ok data ->
    Redis.live (nowMs env) (Redis.strings r !! getConversationKey u id)
      = Some old ->
    changes env u r (ReplaceRequest id (Some payload))
      (recorded_only (nowMs env) u (replaced env data old) r)
| changes_append_cut id payload data old :
    AddMessageSchema (Some payload) = Ok data ->
    Redis.live (nowMs env) (Redis.strings r !! getConversationKey u id)
      = Some old ->
    changes env u r (AppendRequest id (Some payload))
      (recorded_only (nowMs env) u (appended env data old) r)
| changes_delete_cut id old :
    Redis.live (nowMs env) (Redis.strings r !! getConversationKey u id)
      = Some old ->
    changes env u r (DeleteRequest id)
      (Redis.del (getConversationKey u id) (nowMs env) r).2
| changes_delete_some ids dealt rest :
    Js.split_comma ids = dealt ++ rest ->
    changes env u r (DeleteManyRequest (Some ids))
      (foldl (fun r id => delete_one (nowMs env) u id r) r dealt)
| changes_delete_some_cut ids dealt id rest :
    Js.split_comma ids = dealt ++ id :: rest ->
    changes env u r (DeleteManyRequest (Some ids))
      (Redis.del (getConversationKey u id) (nowMs env)
         (foldl (fun r id => delete_one (nowMs env) u id r) r dealt)).2.

(** A title as the schemas ask for it: its JavaScript length is between 1
    and 100. *)
Definition valid_title (title : string) : Prop :=
  (1 <= Js.length title <= 100)%nat.

(** Every record sits under the key of its own id and of its own user, and
    carries a valid title. *)
Definition well_kept (r : Redis.t) : Prop :=
  forall userId conversationId conversation expiry,
    no_colon userId = true ->
    Redis.strings r !! getConversationKey userId conversationId
      = Some (conversation, expiry) ->
    conv_id conversation = conversationId /\
    conv_userId conversation = userId /\
    valid_title (conv_title conversation).

(** The conversations that a request names: the one about to be created,
    the one of the path, or those of the [ids] parameter. *)
Definition targets (env : Env) (request : Request) : list string :=
  match request with
  | ListRequest _ _ => []
  | CreateRequest _ => [nanoid env]
  | DeleteManyRequest ids =>
      match ids with Some s => Js.split_comma s | None => [] end
  | GetRequest id => [id]
  | ReplaceRequest id _ => [id]
  | DeleteRequest id => [id]
  | AppendRequest id _ => [id]
  | ChatRequest _ => []
  end.

(** No sorted set sits under the key of a record. *)
Definition apart (r : Redis.t) : Prop :=
  forall userId conversationId,
    Redis.zsets r !! getConversationKey userId conversationId = None.

(** At the instant [now] the user has a record under the id. *)
Definition has (now : Z) (u : string) (r : Redis.t) (id : string) : Prop :=
  is_Some (Redis.live now (Redis.strings r !! getConversationKey u id)).

(** *** The listing of the models *)

(** A criterion of the query holds: the parameter is absent or empty, or
    the model has what it asks for. *)
Definition meets (criterion : option string) (asked : string -> Prop) : Prop :=
  match criterion with
  | Some c => c = "" \/ asked c
  | None => True
  end.

#[global] Instance meets_dec criterion (asked : string -> Prop)
  `{forall c, Decision (asked c)} : Decision (meets criterion asked).
Proof. destruct criterion; simpl; apply _. Defined.

Definition wanted (config : Config)
    (provider capability pricing_tier : option string)
    (model : ModelsRoute.Enriched) : Prop :=
  meets provider (fun p => toLowerCase config (ModelsRoute.providerId model)
                           = toLowerCase config p) /\
  meets capability (fun c => c ∈ ModelsRoute.capabilities model) /\
  meets pricing_tier (fun t => ModelsRoute.pricingTier model = t).

#[global] Instance wanted_dec config provider capability pricing_tier model :
  Decision (wanted config provider capability pricing_tier model).
Proof. unfold wanted. apply _. Defined.

(** The answer of a handler of the models route is a listing. *)
Definition lists (response : ModelsRoute.Response) (data : ModelsRoute.Listing)
  : Prop :=
  response = {| ModelsRoute.status := 200; ModelsRoute.body := ModelsRoute.Listed data |}.

(** The object under construction, after the models [seen]: one property
    for each provider met, holding the models of that provider in the order
    they were met. *)
Definition grouped (seen : list ModelsRoute.Enriched)
    (acc : list (string * list ModelsRoute.Enriched))
  : Prop :=
  NoDup acc.*1 /\
  (forall k ms, (k, ms) ∈ acc ->
                ms <> [] /\ ms = filter (fun m => ModelsRoute.providerId m = k) seen) /\
  (forall m, m ∈ seen -> ModelsRoute.providerId m ∈ acc.*1) /\
  sum_list_with (fun kv => length kv.2) acc = length seen.

(** What every entry of the table of the details gives: the capability
    ["text"], an output limit that is positive and within the context
    window, one of the three pricing tiers, and a description. *)
Definition sound (details : ModelsRoute.Details) : Prop :=
  "text" ∈ ModelsRoute.details_capabilities details /\
  0 < ModelsRoute.details_maxOutputTokens details
    <= ModelsRoute.details_contextWindow details /\
  ModelsRoute.details_pricingTier details ∈ ["premium"; "standard"; "economy"] /\
  ModelsRoute.details_description details <> "".

(** The conversations that an answer carries. *)
Definition conversations_of (b : Body) : list Conversation :=
  match b with
  | ConversationList conversations _ _ => conversations
  | OneConversation conversation => [conversation]
  | MessageAdded conversation _ => [conversation]
  | _ => []
  end.

(** *** Sample requests *)

Definition sample_usage : Usage :=
  {| promptTokens := 12; completionTokens := 2; totalTokens := 14 |}.

(** A backend that answers every prompt with two chunks and completes. *)
Definition sample_llm (b : Backend) (messages : list ChatMessage)
    (temperature maxTokens : Q) : BackendRun :=
  Streams ["Hel"; "lo"] (Completes sample_usage "stop").

(** A backend that fails after two chunks. *)
Definition failing_llm (b : Backend) (messages : list ChatMessage)
    (temperature maxTokens : Q) : BackendRun :=
  Streams ["Hel"; "lo"] (Fails "connection lost").

(** The environment of a request of user ["u1"] at the instant [t], with
    [id] the next identifier of [nanoid]. *)
Definition at_ (t : Z) (iso id : string) : Env :=
  {| currentUserId := Some "u1";
     nowMs := t;
     nowISO := iso;
     nanoid := id;
     selectedModelCookie := NoCookie;
     llm := sample_llm;
     redisUp := true;
     redisLostAt := 0 |}.

(** The same environment for another user. *)
Definition as_user (userId : string) (env : Env) : Env :=
  {| currentUserId := Some userId;
     nowMs := nowMs env;
     nowISO := nowISO env;
     nanoid := nanoid env;
     selectedModelCookie := selectedModelCookie env;
     llm := llm env;
     redisUp := redisUp env;
     redisLostAt := redisLostAt env |}.

(** The same environment with another backend. *)
Definition with_llm (backend : Backend -> list ChatMessage -> Q -> Q -> BackendRun)
    (env : Env) : Env :=
  {| currentUserId := currentUserId env;
     nowMs := nowMs env;
     nowISO := nowISO env;
     nanoid := nanoid env;
     selectedModelCookie := selectedModelCookie env;
     llm := backend;
     redisUp := redisUp env;
     redisLostAt := redisLostAt env |}.

(** The same environment with a Redis server that is lost once the log of
    the calls holds [n] entries. *)
Definition lost_at (n : nat) (env : Env) : Env :=
  {| currentUserId := currentUserId env;
     nowMs := nowMs env;
     nowISO := nowISO env;
     nanoid := nanoid env;
     selectedModelCookie := selectedModelCookie env;
     llm := llm env;
     redisUp := false;
     redisLostAt := n |}.

(** The same environment with a Redis server that does not answer. *)
Definition silent (env : Env) : Env :=
  {| currentUserId := currentUserId env;
     nowMs := nowMs env;
     nowISO := nowISO env;
     nanoid := nanoid env;
     selectedModelCookie := selectedModelCookie env;
     llm := llm env;
     redisUp := false;
     redisLostAt := 0 |}.

Definition day : Z := 24 * 60 * 60 * 1000.

(** A configuration of four models; the providers ["openai"] and
    ["anthropic"] are enabled. *)
Definition sample_config : Config :=
  {| getModels :=
       Some [ {| model_id := "gpt-4o"; model_providerId := "openai";
                 model_enabled := true; model_rest := [] |};
              {| model_id := "claude-3-haiku-20240307";
                 model_providerId := "anthropic";
                 model_enabled := true; model_rest := [] |};
              {| model_id := "gpt-4o-mini"; model_providerId := "openai";
                 model_enabled := false; model_rest := [] |};
              {| model_id := "house-model"; model_providerId := "local";
                 model_enabled := true; model_rest := [] |} ];
     isProviderEnabled := fun p => String.eqb p "openai" || String.eqb p "anthropic";
     toLowerCase := Js.toLowerCase |}.

Definition titled (title : string) : option JSON :=
  Some (JObj [("title", JStr title)]).

Definition says (role content : string) : JSON :=
  JObj [("role", JStr role); ("content", JStr content)].

Definition asks (content : string) (stream : bool) : JSON :=
  JObj [("messages", JArr [says "user" content]); ("stream", JBool stream)].

(** Two conversations of ["u1"]: ["A"], created first, and ["B"]. *)
Definition two_conversations : State :=
  serve [ (at_ 1000 "t1" "A", CreateRequest (titled "first"));
          (at_ 2000 "t2" "B", CreateRequest (titled "second")) ] initial.

(** The two conversations of ["u1"] and one, ["C"], of ["u2"]. *)
Definition three_conversations : State :=
  serve [ (at_ 1000 "t1" "A", CreateRequest (titled "first"));
          (at_ 2000 "t2" "B", CreateRequest (titled "second"));
          (as_user "u2" (at_ 2500 "t2b" "C"), CreateRequest (titled "theirs")) ]
        initial.

(** ["A"] created on day 0 and ["B"] on day 20. *)
Definition twenty_days_apart : State :=
  serve [ (at_ 0 "day 0" "A", CreateRequest (titled "first"));
          (at_ (20 * day) "day 20" "B", CreateRequest (titled "second")) ]
        initial.

(** A creation during which the store is lost after the first command: the
    [SET] of the record is answered, the [ZADD] of the index is not. *)
Definition cut_short : State :=
  serve [ (lost_at 1 (at_ 1000 "t1" "A"), CreateRequest (titled "first")) ]
        initial.

(** A request whose [selectedModel] cookie is JSON without an [id]. *)
Definition model_without_id : Env :=
  {| currentUserId := Some "u1";
     nowMs := 1000;
     nowISO := "t1";
     nanoid := "";
     selectedModelCookie := CookieJson (JObj [("name", JStr "GPT-4o mini")]);
     llm := sample_llm;
     redisUp := true;
     redisLostAt := 0 |}.

(** * Properties *)

(** ** The model router *)

Module RouterFacts.
Import RuleTable.

(** What "the first matching rule wins" means for [resolve]. *)
Lemma resolve_first_match (pre post : list Rule) (r : Rule) (model : string) :
  Forall (fun r' => matches r' model = false) pre ->
  matches r model = true ->
  resolve (pre ++ r :: post) model = {| provider := target r; modelId := model |}.
Proof.
  induction 1 as [|r' pre Hr' _ IH]; intros Hr; simpl.
  - by rewrite Hr.
  - rewrite Hr'. by apply IH.
Qed.

Lemma resolve_no_match (table : list Rule) (model : string) :
  Forall (fun r => matches r model = false) table ->
  resolve table model = default_backend.
Proof.
  induction 1 as [|r table Hr _ IH]; simpl; [done|]. by rewrite Hr.
Qed.

Lemma getProvider_resolve (model : string) :
  getProvider model = resolve rules model.
Proof.
  unfold getProvider, rules, resolve, matches, target, default_backend.
  repeat match goal with |- context [if ?b then _ else _] => destruct b; [reflexivity|] end.
  reflexivity.
Qed.

End RouterFacts.

(** C3. [getProvider] is a function of the model identifier alone and is
    defined on every identifier; it returns what the ordered rule table
    returns, where the first rule that matches decides and an identifier that
    no rule matches goes to the default OpenAI backend with the default
    model. ["claude-3-haiku-20240307"] goes to Anthropic by its prefix,
    ["some-llama-model"] to Groq by the substring, and an identifier that
    matches several rules goes to the earliest of them, not to the longest
    match. *)
Theorem getProvider_first_matching_rule :
  (forall model, getProvider model = RuleTable.resolve RuleTable.rules model) /\
  (forall model,
      Forall (fun r => RuleTable.matches r model = false) RuleTable.rules ->
      getProvider model = {| provider := openai; modelId := "gpt-4o-mini" |}) /\
  getProvider "claude-3-haiku-20240307"
    = {| provider := anthropic; modelId := "claude-3-haiku-20240307" |} /\
  getProvider "some-llama-model"
    = {| provider := groq; modelId := "some-llama-model" |} /\
  getProvider "anthropic-llama-via-openai"
    = {| provider := openai; modelId := "anthropic-llama-via-openai" |} /\
  getProvider "mistral-large"
    = {| provider := openai; modelId := "gpt-4o-mini" |}.
Proof.
  split; [exact RouterFacts.getProvider_resolve|].
  split.
  - intros model Hnone. rewrite RouterFacts.getProvider_resolve.
    by apply RouterFacts.resolve_no_match.
  - repeat split; reflexivity.
Qed.
(** ** The chat-completion handler *)

Module ChatFacts.

(** [streamText] on settings that pass and on settings that do not. *)
Lemma streamText_sent b messages temperature maxTokens callbacks env st :
  Js.isInteger maxTokens = true ->
  Sdk.streamText b messages temperature maxTokens callbacks env st
  = (match llm env b messages temperature maxTokens with
     | ThrowsOnCall => Throw (RuntimeError "streamText")
     | Streams chunks completion =>
         Return {| Sdk.chunks := chunks; Sdk.completion := completion;
                   Sdk.callbacks := callbacks; Sdk.consumed := false |}
     end,
     {| redis := redis st;
        calls := calls st ++ [CallGenerate b messages temperature maxTokens] |}).
Proof.
  intros Hint. unfold Sdk.streamText. rewrite Hint.
  unfold bind, generate, throw, ret.
  by destruct (llm env b messages temperature maxTokens).
Qed.

Lemma streamText_refused b messages temperature maxTokens callbacks env st :
  Js.isInteger maxTokens = false ->
  Sdk.streamText b messages temperature maxTokens callbacks env st
  = (Throw (RuntimeError "maxTokens must be an integer"), st).
Proof. intros Hint. unfold Sdk.streamText. by rewrite Hint. Qed.

(** Whatever the backend does, [execute] writes one [Error] event: the
    settings are refused, or the call throws, or the stream is handed to
    [pipeDataStreamToResponse], which throws on the [DataStreamWriter]. *)
Lemma execute_writes conversationId model d env st :
  ChatRoute.execute conversationId (getProvider model) d env st
  = (Return [Error conversationId "Failed to generate response"],
     called d model st).
Proof.
  unfold ChatRoute.execute, try_catch, bind, called, backendCall.
  destruct (Js.isInteger (ChatRoute.maxTokens d)) eqn:Hint.
  - rewrite streamText_sent by done.
    by destruct (llm env _ _ _ _).
  - by rewrite streamText_refused by done.
Qed.

(** The handler on a body that passes the schema. *)
Lemma respond_no_model d env st :
  selected d env = None ->
  ChatRoute.respond d env st
  = (Throw (RuntimeError "model.startsWith is not a function"), st).
Proof.
  unfold selected. intros Hnone.
  unfold ChatRoute.respond, bind, getCurrentUserId, ask. simpl.
  by rewrite Hnone.
Qed.

Lemma respond_streaming d model env st :
  selected d env = Some model ->
  req_stream d = true ->
  ChatRoute.respond d env st
  = (Return (success (DataStream [Error (req_conversationId d)
                                        "Failed to generate response"])),
     called d model st).
Proof.
  unfold selected. intros Hmodel Hs.
  unfold ChatRoute.respond, bind, getCurrentUserId, ask. simpl.
  rewrite Hmodel, Hs.
  fold (bind (ChatRoute.execute (req_conversationId d) (getProvider model) d)
          (fun written => ret (success (DataStream written))) env st).
  unfold bind. by rewrite execute_writes.
Qed.

Lemma respond_buffered d model env st :
  selected d env = Some model ->
  req_stream d = false ->
  ChatRoute.respond d env st
  = (if Js.isInteger (ChatRoute.maxTokens d) then
       match backendRun d env model with
       | Streams _ _ => Pending
       | ThrowsOnCall => Throw (RuntimeError "streamText")
       end
     else Throw (RuntimeError "maxTokens must be an integer"),
     called d model st).
Proof.
  unfold selected. intros Hmodel Hs.
  unfold ChatRoute.respond, bind, getCurrentUserId, ask. simpl.
  rewrite Hmodel, Hs. unfold called, backendCall, backendRun.
  destruct (Js.isInteger (ChatRoute.maxTokens d)) eqn:Hint.
  - rewrite streamText_sent by done.
    by destruct (llm env _ _ _ _).
  - by rewrite streamText_refused by done.
Qed.

Lemma POST_valid payload d env st :
  ChatbotRequestSchema (Some payload) = Ok d ->
  ChatRoute.POST (Some payload) env st
  = match ChatRoute.respond d env st with
    | (Return response, st') => (Return response, st')
    | (Throw (ZodError issues), st') =>
        (Return (json 400 (Failure_ "Invalid request format" issues)), st')
    | (Throw _, st') => (Return (failure 500 "Internal server error"), st')
    | (Pending, st') => (Pending, st')
    end.
Proof.
  intros Hd. unfold ChatRoute.POST, try_catch, bind, req_json, parse, ret.
  rewrite Hd. simpl.
  destruct (ChatRoute.respond d env st) as [[response|[issues| |what]|] st'];
    reflexivity.
Qed.

Lemma POST_invalid payload paths env st :
  ChatbotRequestSchema (Some payload) = Issues paths ->
  ChatRoute.POST (Some payload) env st
  = (Return (json 400 (Failure_ "Invalid request format" paths)), st).
Proof.
  intros Hd. unfold ChatRoute.POST, try_catch, bind, req_json, parse, ret, throw.
  by rewrite Hd.
Qed.

(** The handler never touches the store: Redis is as before, and the calls
    it adds are calls to a backend. *)
Lemma called_frame d model st :
  redis (called d model st) = redis st /\
  exists new, calls (called d model st) = calls st ++ new /\
              forallb is_backend_call new = true.
Proof.
  unfold called. destruct (Js.isInteger _); simpl.
  - split; [done|]. by eexists.
  - split; [done|]. exists []. by rewrite app_nil_r.
Qed.

Lemma respond_frame d env st :
  redis (ChatRoute.respond d env st).2 = redis st /\
  exists new, calls (ChatRoute.respond d env st).2 = calls st ++ new /\
              forallb is_backend_call new = true.
Proof.
  destruct (selected d env) as [model|] eqn:Hmodel.
  - destruct (req_stream d) eqn:Hs.
    + rewrite (respond_streaming _ _ _ _ Hmodel Hs). apply called_frame.
    + rewrite (respond_buffered _ _ _ _ Hmodel Hs). apply called_frame.
  - rewrite (respond_no_model _ _ _ Hmodel). simpl. split; [done|].
    exists []. by rewrite app_nil_r.
Qed.

Lemma POST_frame body env st :
  redis (ChatRoute.POST body env st).2 = redis st /\
  exists new, calls (ChatRoute.POST body env st).2 = calls st ++ new /\
              forallb is_backend_call new = true.
Proof.
  assert (Hnothing : exists new, calls st = calls st ++ new /\
                                 forallb is_backend_call new = true).
  { exists []. by rewrite app_nil_r. }
  destruct body as [payload|]; [|by split].
  destruct (ChatbotRequestSchema (Some payload)) as [d|paths] eqn:Hd.
  - rewrite (POST_valid _ _ _ _ Hd).
    pose proof (respond_frame d env st) as Hf.
    destruct (ChatRoute.respond d env st) as [[response|[issues| |what]|] st'];
      exact Hf.
  - rewrite (POST_invalid _ _ _ _ Hd). by split.
Qed.

End ChatFacts.

(** C1. A streaming chat request is answered with a stream that holds one
    [Error] event and nothing else, whatever the backend does: the
    [execute] callback hands the stream of [streamText] to
    [pipeDataStreamToResponse] together with its [DataStreamWriter], the
    call throws inside the [try] block before the stream is read, and the
    [catch] block writes the [Error] event. The callbacks that would write
    the [TextChunk] and [Finished] events never run. So it is for a backend
    that fails after two chunks, and for one that completes after them. *)
Theorem stream_holds_one_error_event :
  (forall (payload : JSON) (d : ChatbotRequest) (env : Env) (st : State)
          (model : string),
      ChatbotRequestSchema (Some payload) = Ok d ->
      req_stream d = true ->
      selected d env = Some model ->
      (ChatRoute.POST (Some payload) env st).1
      = Return (success (DataStream [Error (req_conversationId d)
                                           "Failed to generate response"]))) /\
  (ChatRoute.POST (Some (asks "Hello" true))
                  (with_llm failing_llm (at_ 1000 "t1" "")) initial).1
  = Return (success (DataStream [Error None "Failed to generate response"])) /\
  (ChatRoute.POST (Some (asks "Hello" true))
                  (with_llm sample_llm (at_ 1000 "t1" "")) initial).1
  = Return (success (DataStream [Error None "Failed to generate response"])).
Proof.
  split; [|split; reflexivity].
  intros payload d env st model Hd Hs Hmodel.
  rewrite (ChatFacts.POST_valid _ _ _ _ Hd).
  by rewrite (ChatFacts.respond_streaming _ _ _ _ Hmodel Hs).
Qed.

(** C4. A chat request whose message history is empty passes
    [ChatbotRequestSchema] (the array has no minimum length): the handler
    calls the backend with the system message alone and answers 200 with the
    stream, not 400. (When the cookie holds a model whose [id] is not a
    string the handler answers 500, as it does for every request.) *)
Theorem empty_history_reaches_the_backend (env : Env) (st : State) :
  let d := {| req_messages := []; req_conversationId := None;
              req_model := None; req_temperature := None;
              req_maxTokens := None; req_stream := true;
              req_systemPrompt := None |} in
  ChatbotRequestSchema (Some (JObj [("messages", JArr [])])) = Ok d /\
  ChatRoute.POST (Some (JObj [("messages", JArr [])])) env st
  = match ChatRoute.selectModel None (selectedModelCookie env) with
    | Some model =>
        (Return (success (DataStream [Error None "Failed to generate response"])),
         {| redis := redis st;
            calls := calls st ++
              [CallGenerate
                 (getProvider model)
                 [ {| role := system; content := ChatRoute.SYSTEM_PROMPTS_default |} ]
                 (7 # 10)%Q (2000 # 1)%Q] |})
    | None => (Return (failure 500 "Internal server error"), st)
    end.
Proof.
  intros d. split; [reflexivity|].
  rewrite (ChatFacts.POST_valid _ d) by reflexivity.
  destruct (ChatRoute.selectModel None (selectedModelCookie env))
    as [model|] eqn:Hmodel.
  - by rewrite (ChatFacts.respond_streaming d model).
  - by rewrite (ChatFacts.respond_no_model d).
Qed.

(** C9. The chat-completion handler reads the current user and never tests
    it: without a user, a valid request is answered 200 with the stream and
    the backend is called, where the conversation handlers answer 401. (When
    the cookie holds a model whose [id] is not a string the handler answers
    500, as it does with a user.) *)
Theorem chat_completion_without_user (env : Env) (st : State) :
  let hello :=
    JObj [("messages",
           JArr [JObj [("role", JStr "user"); ("content", JStr "Hello")]])] in
  let d := {| req_messages := [ {| role := user; content := "Hello" |} ];
              req_conversationId := None;
              req_model := None; req_temperature := None;
              req_maxTokens := None; req_stream := true;
              req_systemPrompt := None |} in
  currentUserId (anonymous env) = None /\
  ChatRoute.POST (Some hello) (anonymous env) st
  = match ChatRoute.selectModel None (selectedModelCookie env) with
    | Some model =>
        (Return (success (DataStream [Error None "Failed to generate response"])),
         {| redis := redis st;
            calls := calls st ++
              [CallGenerate
                 (getProvider model)
                 (ChatRoute.coreMessages d) (7 # 10)%Q (2000 # 1)%Q] |})
    | None => (Return (failure 500 "Internal server error"), st)
    end.
Proof.
  intros hello d. split; [reflexivity|].
  rewrite (ChatFacts.POST_valid _ d) by reflexivity.
  destruct (ChatRoute.selectModel None (selectedModelCookie env))
    as [model|] eqn:Hmodel.
  - by rewrite (ChatFacts.respond_streaming d model).
  - by rewrite (ChatFacts.respond_no_model d).
Qed.

(** C10. A chat-completion request, streaming or buffered, valid or not,
    leaves Redis as it was and makes no call to the store (the calls it adds
    are backend calls); the [conversationId] of the request is only carried
    back, in every stream event and in the buffered response. *)
Theorem chat_completion_leaves_store_alone
    (request : option JSON) (env : Env) (st : State) :
  redis (ChatRoute.POST request env st).2 = redis st /\
  (exists new, calls (ChatRoute.POST request env st).2 = calls st ++ new /\
               forallb (fun c => negb (is_store_call c)) new = true) /\
  (forall payload d response,
      request = Some payload ->
      ChatbotRequestSchema (Some payload) = Ok d ->
      (ChatRoute.POST request env st).1 = Return response ->
      echoes (req_conversationId d) (body response)).
Proof.
  destruct (ChatFacts.POST_frame request env st) as [Hredis (new & Hcalls & Hnew)].
  split; [done|]. split.
  - exists new. split; [done|].
    rewrite forallb_forall in *. intros c Hc. specialize (Hnew c Hc).
    by destruct c.
  - intros payload d response -> Hd. rewrite (ChatFacts.POST_valid _ _ _ _ Hd).
    destruct (selected d env) as [model|] eqn:Hmodel.
    + destruct (req_stream d) eqn:Hs.
      * rewrite (ChatFacts.respond_streaming _ _ _ _ Hmodel Hs). simpl.
        intros [= <-]. simpl. by repeat constructor.
      * rewrite (ChatFacts.respond_buffered _ _ _ _ Hmodel Hs).
        destruct (Js.isInteger _); [destruct (backendRun d env model)|]; simpl;
          intros [= <-]; simpl; done.
    + rewrite (ChatFacts.respond_no_model _ _ _ Hmodel). simpl.
      by intros [= <-].
Qed.
(** C5. A buffered chat request whose prompt reaches the backend is never
    answered: the handler awaits [result.text], a promise that settles when
    the stream has been read to its end, and nothing in the branch reads the
    stream (nor would the answer carry the usage: [result.usage] is passed
    without [await]). The request is answered, with 500 and no text, only
    when [streamText] itself throws. The stream of the same request holds no
    [TextChunk] event whose content could be compared. *)
Theorem buffered_request_is_not_answered
    (buffered : JSON) (d : ChatbotRequest) (env : Env) (st : State)
    (model : string) :
  ChatbotRequestSchema (Some buffered) = Ok d ->
  req_stream d = false ->
  selected d env = Some model ->
  ChatRoute.POST (Some buffered) env st
  = (if Js.isInteger (ChatRoute.maxTokens d) then
       match backendRun d env model with
       | Streams _ _ => Pending
       | ThrowsOnCall => Return (failure 500 "Internal server error")
       end
     else Return (failure 500 "Internal server error"),
     called d model st).
Proof.
  intros Hd Hs Hmodel.
  rewrite (ChatFacts.POST_valid _ _ _ _ Hd).
  rewrite (ChatFacts.respond_buffered _ _ _ _ Hmodel Hs).
  destruct (Js.isInteger _); [|done].
  by destruct (backendRun d env model).
Qed.

Lemma buffered_request_is_not_answered_witness :
  ChatRoute.POST (Some (asks "Hello" false)) (at_ 1000 "t1" "") initial
  = (Pending,
     {| redis := Some Redis.empty;
        calls :=
          [CallGenerate
             {| provider := openai; modelId := "gpt-4o-mini" |}
             [ {| role := system; content := ChatRoute.SYSTEM_PROMPTS_default |};
               {| role := user; content := "Hello" |} ]
             (7 # 10)%Q (2000 # 1)%Q] |}).
Proof.
  exact (buffered_request_is_not_answered
           (asks "Hello" false)
           {| req_messages := [ {| role := user; content := "Hello" |} ];
              req_conversationId := None; req_model := None;
              req_temperature := None; req_maxTokens := None;
              req_stream := false; req_systemPrompt := None |}
           (at_ 1000 "t1" "") initial "gpt-4o-mini" eq_refl eq_refl eq_refl).
Defined.

(** ** Keys *)

Module KeyFacts.

Lemma app_colon_inj (u u' rest rest' : string) :
  no_colon u = true -> no_colon u' = true ->
  u +:+ ":" +:+ rest = u' +:+ ":" +:+ rest' -> u = u' /\ rest = rest'.
Proof.
  revert u'. induction u as [|a u IH]; intros [|a' u'] Hu Hu'; simpl in *.
  - intros [= Heq]. by subst.
  - intros [= Ha _]. apply andb_prop in Hu' as [Ha' _]. by subst.
  - intros [= Ha _]. apply andb_prop in Hu as [Ha' _]. by subst.
  - intros [= Ha Heq]. subst a'.
    apply andb_prop in Hu as [_ Hu]. apply andb_prop in Hu' as [_ Hu'].
    destruct (IH u' Hu Hu' Heq) as [-> ->]. done.
Qed.

(** Two users without [":"] never share a record key. *)
Lemma conversation_key_inj (u u' c c' : string) :
  no_colon u = true -> no_colon u' = true ->
  getConversationKey u c = getConversationKey u' c' -> u = u' /\ c = c'.
Proof.
  intros Hu Hu'. unfold getConversationKey; simpl. intros [= Heq].
  by apply app_colon_inj.
Qed.

Lemma user_key_inj (u u' : string) :
  getUserConversationsKey u = getUserConversationsKey u' -> u = u'.
Proof. unfold getUserConversationsKey; simpl. by intros [= Heq]. Qed.

(** A [":"] in a user id lets two users share a record key, which is why
    the statements about several users ask for ids without it. *)
Lemma colon_in_user_id_collides :
  getConversationKey "a" "b:c" = getConversationKey "a:b" "c".
Proof. reflexivity. Qed.

(** A record key is never an index key. *)
Lemma keys_differ (u c u' : string) :
  getConversationKey u c <> getUserConversationsKey u'.
Proof. unfold getConversationKey, getUserConversationsKey; simpl. by intros [=]. Qed.

End KeyFacts.

(** ** Redis commands on a store where nothing has expired *)

Module RedisFacts.

Lemma alive_lasts horizon now expiry :
  lasts horizon expiry -> now < horizon -> Redis.alive now expiry = true.
Proof. destruct expiry as [t|]; simpl; [|done]. intros. apply Z.ltb_lt. lia. Qed.

Lemma live_strings horizon now r key :
  settled horizon r -> now < horizon ->
  Redis.live now (Redis.strings r !! key) = fst <$> Redis.strings r !! key.
Proof.
  intros [Hs _] Hnow. destruct (Redis.strings r !! key) as [[v e]|] eqn:Hk; [|done].
  simpl. by rewrite (alive_lasts horizon now e (Hs _ _ _ Hk) Hnow).
Qed.

Lemma live_zsets horizon now r key :
  settled horizon r -> now < horizon ->
  Redis.live now (Redis.zsets r !! key) = fst <$> Redis.zsets r !! key.
Proof.
  intros [_ Hz] Hnow. destruct (Redis.zsets r !! key) as [[z e]|] eqn:Hk; [|done].
  simpl. by rewrite (alive_lasts horizon now e (Hz _ _ _ Hk) Hnow).
Qed.

(** Where nothing has expired, what a request sees is what the maps hold. *)
Lemma recorded_raw horizon now r u c :
  settled horizon r -> now < horizon -> recorded r now u c <-> raw_recorded r u c.
Proof.
  intros Hs Hnow. unfold recorded, raw_recorded.
  rewrite (live_strings horizon) by done. by rewrite fmap_is_Some.
Qed.

Lemma indexed_raw horizon now r u c :
  settled horizon r -> now < horizon -> indexed r now u c <-> raw_indexed r u c.
Proof.
  intros Hs Hnow. unfold indexed, raw_indexed, Redis.members.
  rewrite (live_zsets horizon) by done.
  destruct (Redis.zsets r !! getUserConversationsKey u) as [[z e]|]; simpl.
  - split; [eauto|]. by intros (? & ? & [= <- <-] & ?).
  - rewrite lookup_empty. split; [by intros []|]. by intros (? & ? & [=] & ?).
Qed.

Lemma lockstep_raw horizon now r :
  settled horizon r -> now < horizon -> raw_lockstep r -> lockstep r now.
Proof.
  intros Hs Hnow Hraw u c Hu.
  rewrite (indexed_raw horizon), (recorded_raw horizon) by done. by apply Hraw.
Qed.

Section Commands.
Variables (horizon now : Z) (r : Redis.t).
Hypothesis Hsettled : settled horizon r.
Hypothesis Hnow : now < horizon.

Lemma alive_zset key z expiry :
  Redis.zsets r !! key = Some (z, expiry) -> Redis.alive now expiry = true.
Proof.
  intros Hk. destruct Hsettled as [_ Hz]. eapply alive_lasts; [|done]. by eapply Hz.
Qed.

(** [SET] *)
Lemma settled_set key v ex :
  horizon <= now + ex * 1000 -> settled horizon (Redis.set key v ex now r).2.
Proof.
  intros Hex. destruct Hsettled as [Hs Hz]. split; simpl; [|done].
  intros k v' e. rewrite lookup_insert. case_decide; [|by apply Hs].
  by intros [= <- <-].
Qed.

Lemma recorded_set key v ex u c :
  raw_recorded (Redis.set key v ex now r).2 u c
  <-> raw_recorded r u c \/ key = getConversationKey u c.
Proof.
  unfold raw_recorded; simpl. rewrite lookup_insert. case_decide.
  - split; [by right|done].
  - split; [by left|]. by intros [|].
Qed.

Lemma indexed_set key v ex u c :
  raw_indexed (Redis.set key v ex now r).2 u c <-> raw_indexed r u c.
Proof. done. Qed.

(** [ZADD] *)
Lemma settled_zadd key score member :
  settled horizon (Redis.zadd key score member now r).2.
Proof.
  destruct Hsettled as [Hs Hz]. split; simpl; [done|].
  intros k z e. rewrite lookup_insert. case_decide; [|by apply Hz].
  destruct (Redis.zsets r !! key) as [[z0 e0]|] eqn:Hk.
  - destruct (Redis.alive now e0); intros [= <- <-]; [by eapply Hz|done].
  - by intros [= <- <-].
Qed.

Lemma recorded_zadd key score member u c :
  raw_recorded (Redis.zadd key score member now r).2 u c <-> raw_recorded r u c.
Proof. done. Qed.

Lemma indexed_zadd key score member u c :
  raw_indexed (Redis.zadd key score member now r).2 u c
  <-> raw_indexed r u c \/ (key = getUserConversationsKey u /\ member = c).
Proof.
  unfold raw_indexed; simpl. rewrite lookup_insert. case_decide as Hkey.
  - subst key. destruct (Redis.zsets r !! getUserConversationsKey u)
      as [[z0 e0]|] eqn:Hk.
    + rewrite (alive_zset _ _ _ Hk).
      split.
      * intros (z & e & [= <- <-] & Hm). rewrite lookup_insert in Hm.
        case_decide; [by right|]. left. eauto.
      * intros H. eexists _, _. split; [done|]. rewrite lookup_insert.
        case_decide; [done|]. destruct H as [(z & e & [= <- <-] & Hm)|[_ ?]]; done.
    + split.
      * intros (z & e & [= <- <-] & Hm). rewrite lookup_singleton in Hm.
        case_decide; [by right|]. by destruct Hm.
      * intros [(z & e & [=] & _)|[_ ->]]. eexists _, _. split; [done|].
        by rewrite lookup_singleton_eq.
  - split; [by left|]. intros [|[? _]]; done.
Qed.

(** [EXPIRE] *)
Lemma settled_expire key seconds :
  horizon <= now + seconds * 1000 ->
  settled horizon (Redis.expire key seconds now r).2.
Proof.
  intros Hex. pose proof Hsettled as [Hs Hz]. unfold Redis.expire.
  destruct (Redis.strings r !! key) as [[v e]|] eqn:Hks.
  - destruct (Redis.alive now e); [|done]. split; simpl; [|done].
    intros k v' e'. rewrite lookup_insert. case_decide; [|by apply Hs].
    by intros [= <- <-].
  - destruct (Redis.zsets r !! key) as [[z e]|] eqn:Hkz; [|done].
    destruct (Redis.alive now e); [|done]. split; simpl; [done|].
    intros k z' e'. rewrite lookup_insert. case_decide; [|by apply Hz].
    by intros [= <- <-].
Qed.

Lemma recorded_expire key seconds u c :
  raw_recorded (Redis.expire key seconds now r).2 u c <-> raw_recorded r u c.
Proof.
  unfold raw_recorded, Redis.expire.
  destruct (Redis.strings r !! key) as [[v e]|] eqn:Hks.
  - destruct (Redis.alive now e); [|done]. simpl. rewrite lookup_insert.
    case_decide; [|done]. subst key. rewrite Hks. by split.
  - destruct (Redis.zsets r !! key) as [[z e]|]; [|done].
    by destruct (Redis.alive now e).
Qed.

Lemma indexed_expire key seconds u c :
  raw_indexed (Redis.expire key seconds now r).2 u c <-> raw_indexed r u c.
Proof.
  unfold raw_indexed, Redis.expire.
  destruct (Redis.strings r !! key) as [[v e]|] eqn:Hks.
  - by destruct (Redis.alive now e).
  - destruct (Redis.zsets r !! key) as [[z e]|] eqn:Hkz; [|done].
    destruct (Redis.alive now e); [|done]. simpl. rewrite lookup_insert.
    case_decide; [|done]. subst key. rewrite Hkz. split.
    + intros (? & ? & [= <- <-] & ?). eauto.
    + intros (? & ? & [= <- <-] & ?). eauto.
Qed.

(** [DEL] *)
Lemma settled_del key : settled horizon (Redis.del key now r).2.
Proof.
  destruct Hsettled as [Hs Hz]. split; simpl.
  - intros k v e Hk. apply lookup_delete_Some in Hk as [_ Hk]. by eapply Hs.
  - intros k z e Hk. apply lookup_delete_Some in Hk as [_ Hk]. by eapply Hz.
Qed.

Lemma recorded_del key u c :
  raw_recorded (Redis.del key now r).2 u c
  <-> raw_recorded r u c /\ key <> getConversationKey u c.
Proof.
  unfold raw_recorded; simpl. rewrite lookup_delete. case_decide.
  - split; [by intros []|]. by intros [_ ?].
  - by split; [|intros []].
Qed.

Lemma indexed_del key u c :
  raw_indexed (Redis.del key now r).2 u c
  <-> raw_indexed r u c /\ key <> getUserConversationsKey u.
Proof.
  unfold raw_indexed; simpl. rewrite lookup_delete. case_decide.
  - split; [by intros (? & ? & [=] & _)|]. by intros [_ ?].
  - by split; [|intros []].
Qed.

(** [DEL] reports a removal exactly when the key was there. *)
Lemma del_count key :
  (Redis.del key now r).1 = 0
  <-> Redis.strings r !! key = None /\ Redis.zsets r !! key = None.
Proof.
  unfold Redis.del; simpl.
  rewrite (live_strings horizon), (live_zsets horizon) by done.
  destruct (Redis.strings r !! key), (Redis.zsets r !! key); simpl;
    repeat (rewrite bool_decide_eq_true_2 by eauto);
    repeat (rewrite bool_decide_eq_false_2 by (by intros [])); simpl;
    split; try done; by intros [].
Qed.

(** [ZREM] *)
Lemma settled_zrem key member : settled horizon (Redis.zrem key member now r).2.
Proof.
  pose proof Hsettled as [Hs Hz]. unfold Redis.zrem.
  destruct (Redis.zsets r !! key) as [[z e]|] eqn:Hk; [|done].
  destruct (Redis.alive now e); [|done].
  destruct (z !! member); [|done]. split; simpl; [done|].
  intros k z' e' Hk'. case_bool_decide.
  - apply lookup_delete_Some in Hk' as [_ Hk']. by eapply Hz.
  - rewrite lookup_insert in Hk'. case_decide; [|by eapply Hz].
    injection Hk' as <- <-. by eapply Hz.
Qed.

Lemma recorded_zrem key member u c :
  raw_recorded (Redis.zrem key member now r).2 u c <-> raw_recorded r u c.
Proof.
  unfold raw_recorded, Redis.zrem.
  destruct (Redis.zsets r !! key) as [[z e]|]; [|done].
  destruct (Redis.alive now e); [|done]. by destruct (z !! member).
Qed.

Lemma indexed_zrem key member u c :
  raw_indexed (Redis.zrem key member now r).2 u c
  <-> raw_indexed r u c /\ ~ (key = getUserConversationsKey u /\ member = c).
Proof.
  unfold raw_indexed, Redis.zrem.
  destruct (Redis.zsets r !! key) as [[z e]|] eqn:Hk.
  - rewrite (alive_zset _ _ _ Hk).
    destruct (z !! member) as [score|] eqn:Hm; simpl.
    + case_bool_decide as Hempty.
      * rewrite lookup_delete. case_decide as Hkey.
        -- subst key. split; [by intros (? & ? & [=] & _)|].
           intros [(z' & e' & Hk' & [s Hc]) Hne]. rewrite Hk in Hk'.
           injection Hk' as <- <-. destruct (decide (member = c)) as [->|Hmc].
           ++ by destruct Hne.
           ++ assert (delete member z !! c = Some s) as Hd
                by by rewrite lookup_delete_ne.
              rewrite Hempty, lookup_empty in Hd. done.
        -- split; [|by intros []]. intros H. split; [done|]. by intros [? _].
      * rewrite lookup_insert. case_decide as Hkey.
        -- subst key. rewrite Hk. split.
           ++ intros (? & ? & [= <- <-] & Hc). rewrite lookup_delete in Hc.
              case_decide; [by destruct Hc|]. split; [eauto|]. by intros [_ ?].
           ++ intros [(? & ? & [= <- <-] & Hc) Hne]. eexists _, _. split; [done|].
              rewrite lookup_delete. case_decide; [by destruct Hne|done].
        -- split; [|by intros []]. intros H. split; [done|]. by intros [? _].
    + split; [|by intros []]. intros H. split; [done|]. intros [-> ->].
      destruct H as (? & ? & Hk' & Hc).
      pose proof (eq_trans (eq_sym Hk) Hk') as [= <- <-].
      rewrite Hm in Hc. by destruct Hc.
  - split; [|by intros []]. intros H. split; [done|]. intros [-> _].
    destruct H as (? & ? & Hk' & _).
    by pose proof (eq_trans (eq_sym Hk) Hk') as [=].
Qed.

End Commands.

End RedisFacts.

(** ** The lockstep of index and records, command by command *)

Module LockstepFacts.
Import KeyFacts RedisFacts.

Lemma invariant_empty horizon : invariant horizon Redis.empty.
Proof.
  split; [by split|]. intros u c _. unfold raw_indexed, raw_recorded; simpl.
  rewrite !lookup_empty. split; [by intros (? & ? & [=] & _)|by intros []].
Qed.

Lemma invariant_lockstep horizon now r :
  invariant horizon r -> now < horizon -> lockstep r now.
Proof. intros [Hs Hl] Hnow. by eapply lockstep_raw. Qed.

Section Window.
Variables (horizon now : Z).
Hypothesis Hnow : now < horizon.
Hypothesis Hhorizon : horizon <= now + TTL * 1000.

Lemma invariant_saved u conv r :
  no_colon u = true -> invariant horizon r -> invariant horizon (saved now u conv r).
Proof.
  intros Hu [Hs Hl]. unfold saved.
  pose proof (settled_set horizon now r Hs
                (getConversationKey u (conv_id conv)) conv TTL Hhorizon) as Hs1.
  split; [by apply settled_zadd|].
  intros u' c' Hu'.
  rewrite (indexed_zadd horizon now _ Hs1 Hnow), indexed_set.
  rewrite recorded_zadd, recorded_set. rewrite (Hl u' c' Hu').
  split; (intros [H|H]; [by left|right]).
  - destruct H as [H ->]. apply user_key_inj in H as ->. done.
  - apply conversation_key_inj in H as [-> ->]; done.
Qed.

Lemma invariant_created u conv r :
  no_colon u = true -> invariant horizon r -> invariant horizon (created now u conv r).
Proof.
  intros Hu Hinv. destruct (invariant_saved u conv r Hu Hinv) as [Hs Hl].
  unfold created. split; [by apply settled_expire|].
  intros u' c' Hu'. rewrite indexed_expire, recorded_expire. by apply Hl.
Qed.

Lemma invariant_removed u c r :
  no_colon u = true -> invariant horizon r -> invariant horizon (removed now u c r).
Proof.
  intros Hu [Hs Hl]. unfold removed.
  pose proof (settled_del horizon now r Hs (getConversationKey u c)) as Hs1.
  split; [by apply settled_zrem|].
  intros u' c' Hu'.
  rewrite (indexed_zrem horizon now _ Hs1 Hnow), indexed_del.
  rewrite recorded_zrem, recorded_del. rewrite (Hl u' c' Hu').
  split.
  - intros [[H _] Hne]. split; [done|]. intros Hk.
    apply conversation_key_inj in Hk as [-> ->]; [|done..]. by apply Hne.
  - intros [H Hne]. split; [split; [done|apply keys_differ]|].
    intros [Hk ->]. apply user_key_inj in Hk as ->. by apply Hne.
Qed.

(** A [DEL] that found nothing leaves the lockstep as it was. *)
Lemma invariant_del_nothing u c r :
  no_colon u = true -> invariant horizon r ->
  (Redis.del (getConversationKey u c) now r).1 = 0 ->
  invariant horizon (Redis.del (getConversationKey u c) now r).2.
Proof.
  intros Hu [Hs Hl] Hcount. split; [by apply settled_del|].
  apply (del_count horizon now r Hs Hnow) in Hcount as [Hnone _].
  intros u' c' Hu'. rewrite indexed_del, recorded_del, (Hl u' c' Hu').
  split.
  - intros [H _]. split; [done|]. intros Hk. unfold raw_recorded in H.
    rewrite <- Hk, Hnone in H. by destruct H.
  - intros [H _]. split; [done|]. apply keys_differ.
Qed.

End Window.

(** Each record under the key of its own id, command by command. *)
Lemma filed_saved now u conv r :
  no_colon u = true -> filed r -> filed (saved now u conv r).
Proof.
  intros Hu Hf u' c' conv' e Hu'. unfold saved; simpl.
  rewrite lookup_insert. case_decide as Hkey; [|by apply Hf].
  intros [= <- _]. by apply conversation_key_inj in Hkey as [_ ->].
Qed.

Lemma filed_recorded now u conv r :
  no_colon u = true -> filed r -> filed (recorded_only now u conv r).
Proof.
  intros Hu Hf u' c' conv' e Hu'. unfold recorded_only; simpl.
  rewrite lookup_insert. case_decide as Hkey; [|by apply Hf].
  intros [= <- _]. by apply conversation_key_inj in Hkey as [_ ->].
Qed.

Lemma filed_expire key seconds now r :
  filed r -> filed (Redis.expire key seconds now r).2.
Proof.
  intros Hf u' c' conv' e Hu'. unfold Redis.expire.
  destruct (Redis.strings r !! key) as [[v e0]|] eqn:Hks.
  - destruct (Redis.alive now e0); [|by apply Hf]. simpl.
    rewrite lookup_insert. case_decide as Hkey; [|by apply Hf].
    subst key. intros [= <- _]. by eapply Hf.
  - destruct (Redis.zsets r !! key) as [[z e0]|]; [|by apply Hf].
    destruct (Redis.alive now e0); by apply Hf.
Qed.

Lemma filed_del key now r : filed r -> filed (Redis.del key now r).2.
Proof.
  intros Hf u' c' conv' e Hu'; simpl. intros Hk.
  apply lookup_delete_Some in Hk as [_ Hk]. by eapply Hf.
Qed.

Lemma filed_zrem key member now r : filed r -> filed (Redis.zrem key member now r).2.
Proof.
  intros Hf. unfold Redis.zrem.
  destruct (Redis.zsets r !! key) as [[z e0]|]; [|done].
  destruct (Redis.alive now e0); [|done]. by destruct (z !! member).
Qed.

End LockstepFacts.

(** ** Rules for running a handler *)

Module Rules.

Lemma wp_ret {A} (a : A) env st Q : Q (Return a) st -> wp (ret a) env st Q.
Proof. done. Qed.

Lemma wp_throw {A} e env st (Q : Outcome A -> State -> Prop) :
  Q (Throw e) st -> wp (throw e) env st Q.
Proof. done. Qed.

Lemma wp_bind {A B} (m : M A) (f : A -> M B) env st Q :
  wp m env st (fun o st' =>
                 match o with
                 | Return a => wp (f a) env st' Q
                 | Throw e => Q (Throw e) st'
                 | Pending => Q Pending st'
                 end) ->
  wp (bind m f) env st Q.
Proof. unfold wp, bind. by destruct (m env st) as [[a|e|] st']. Qed.

Lemma wp_try_catch {A} (m : M A) (handler : Exn -> M A) env st Q :
  wp m env st (fun o st' =>
                 match o with
                 | Return a => Q (Return a) st'
                 | Throw e => wp (handler e) env st' Q
                 | Pending => Q Pending st'
                 end) ->
  wp (try_catch m handler) env st Q.
Proof. unfold wp, try_catch. by destruct (m env st) as [[a|e|] st']. Qed.

Lemma wp_ask {A} (f : Env -> A) env st Q :
  Q (Return (f env)) st -> wp (ask f) env st Q.
Proof. done. Qed.

Lemma wp_await {A} (o : Outcome A) env st Q : Q o st -> wp (await o) env st Q.
Proof. done. Qed.

Lemma wp_parse {A} (schema : option JSON -> result A) payload env st Q :
  (forall a, schema (Some payload) = Ok a -> Q (Return a) st) ->
  (forall paths, schema (Some payload) = Issues paths ->
                 Q (Throw (ZodError paths)) st) ->
  wp (parse schema payload) env st Q.
Proof.
  intros Hok Hbad. unfold wp, parse.
  destruct (schema (Some payload)) as [a|paths]; [by apply Hok|by apply Hbad].
Qed.

Lemma wp_parse_ok {A} (schema : option JSON -> result A) payload a env st Q :
  schema (Some payload) = Ok a -> Q (Return a) st ->
  wp (parse schema payload) env st Q.
Proof. intros Hok HQ. unfold wp, parse. by rewrite Hok. Qed.

Lemma wp_req_json payload env st Q :
  match payload with
  | Some j => Q (Return j) st
  | None => Q (Throw SyntaxError) st
  end ->
  wp (req_json payload) env st Q.
Proof. by destruct payload. Qed.

Lemma wp_redisConfigured env st Q :
  Q (Return (bool_decide (is_Some (redis st)))) st ->
  wp redisConfigured env st Q.
Proof. done. Qed.

(** A command on a server that answers throughout the request. *)
Lemma wp_command_up {A} name key (run : Z -> Redis.t -> A * Redis.t) env st r Q :
  redis st = Some r -> redisUp env = true ->
  Q (Return (run (nowMs env) r).1)
    {| redis := Some (run (nowMs env) r).2;
       calls := calls st ++ [CallRedis name key] |} ->
  wp (command name key run) env st Q.
Proof.
  intros Hr Hup. unfold wp, command, answers. rewrite Hr, Hup.
  by destruct (run (nowMs env) r).
Qed.

(** A command on a server that answers nothing. *)
Lemma wp_command_down {A} name key (run : Z -> Redis.t -> A * Redis.t) env st r Q :
  redis st = Some r -> redisUp env = false -> redisLostAt env = 0%nat ->
  Q (Throw (RuntimeError "redis does not answer"))
    {| redis := Some r; calls := calls st ++ [CallRedis name key] |} ->
  wp (command name key run) env st Q.
Proof.
  intros Hr Hup Hzero. unfold wp, command, answers. by rewrite Hr, Hup, Hzero.
Qed.

(** A command on a server that may be lost: it answers or it does not. *)
Lemma wp_command_any {A} name key (run : Z -> Redis.t -> A * Redis.t) env st r Q :
  redis st = Some r ->
  (answers env st = true ->
   Q (Return (run (nowMs env) r).1)
     {| redis := Some (run (nowMs env) r).2;
        calls := calls st ++ [CallRedis name key] |}) ->
  (answers env st = false ->
   Q (Throw (RuntimeError "redis does not answer"))
     {| redis := Some r; calls := calls st ++ [CallRedis name key] |}) ->
  wp (command name key run) env st Q.
Proof.
  intros Hr Hyes Hno. unfold wp, command. rewrite Hr.
  destruct (answers env st); [|by apply Hno].
  specialize (Hyes eq_refl). by destruct (run (nowMs env) r).
Qed.

(** A steady store that is not up answers nothing. *)
Lemma steady_down env :
  steady env = true -> redisUp env = false -> redisLostAt env = 0%nat.
Proof.
  unfold steady. intros Hsteady Hup. rewrite Hup in Hsteady.
  by apply Nat.eqb_eq in Hsteady.
Qed.

(** A command without a Redis handle. *)
Lemma wp_command_null {A} name key (run : Z -> Redis.t -> A * Redis.t) env st Q :
  redis st = None ->
  Q (Throw (RuntimeError "redis is null")) st ->
  wp (command name key run) env st Q.
Proof. intros Hr. unfold wp, command. by rewrite Hr. Qed.

(** The result of a handler, read off [wp]. *)
Lemma wp_elim {A} (m : M A) env st Q : wp m env st Q -> Q (m env st).1 (m env st).2.
Proof. done. Qed.

Lemma wp_mono {A} (m : M A) env st (Q Q' : Outcome A -> State -> Prop) :
  (forall o st', Q o st' -> Q' o st') -> wp m env st Q -> wp m env st Q'.
Proof. unfold wp. auto. Qed.

End Rules.

(** One step of a handler: the rule of the construct at the head. *)
Ltac wp_step :=
  lazymatch goal with
  | |- wp (bind _ _) _ _ _ => apply Rules.wp_bind
  | |- wp (try_catch _ _) _ _ _ => apply Rules.wp_try_catch
  | |- wp (ret _) _ _ _ => apply Rules.wp_ret
  | |- wp (throw _) _ _ _ => apply Rules.wp_throw
  | |- wp getCurrentUserId _ _ _ => apply Rules.wp_ask
  | |- wp (ask _) _ _ _ => apply Rules.wp_ask
  | |- wp (await _) _ _ _ => apply Rules.wp_await
  | |- wp (req_json _) _ _ _ => apply Rules.wp_req_json
  | |- wp redisConfigured _ _ _ => apply Rules.wp_redisConfigured
  | |- wp (parse _ _) _ _ _ =>
      apply Rules.wp_parse; [intros ? ?|intros ? ?]
  | |- wp (command _ _ _) _ _ _ =>
      first [ eapply Rules.wp_command_up;
                [first [reflexivity|eassumption]|eassumption|]
            | eapply Rules.wp_command_down;
                [first [reflexivity|eassumption]|eassumption|eassumption|]
            | eapply Rules.wp_command_any;
                [first [reflexivity|eassumption]|intros ?|intros ?]
            | eapply Rules.wp_command_null; [first [reflexivity|eassumption]|] ]
  | |- wp (match ?e with ZodError _ => _ | _ => _ end) _ _ _ => destruct e
  | |- wp (match ?x with Some _ => _ | None => _ end) _ _ _ => destruct x eqn:?
  | |- wp (if ?b then _ else _) _ _ _ => destruct b eqn:?
  | |- match ?x with Some _ => _ | None => _ end => destruct x eqn:?
  end; cbv beta iota zeta.

Ltac wp_run := repeat wp_step.

(** Run to the end and close what reading the hypotheses closes. *)
Ltac wp_auto :=
  wp_run;
  first [reflexivity | by (split; reflexivity) | done | discriminate
        | by simpl in *].

(** ** Every handler keeps the lockstep during the retention window *)

Module HandlerFacts.
Import KeyFacts RedisFacts LockstepFacts.

Lemma authenticated_Some userId u :
  authenticated userId = Some u -> userId = Some u.
Proof.
  destruct userId as [v|]; simpl; [|done]. by destruct (String.eqb v ""); intros [= ->].
Qed.

Lemma plain_authenticated env u :
  plain_user env -> authenticated (currentUserId env) = Some u -> no_colon u = true.
Proof. intros Hp Ha. apply Hp. by apply authenticated_Some. Qed.

(** The handlers change Redis in four ways, each on the keys of the
    signed-in user: [saved], [created], [removed], and a [DEL] that found
    nothing; and, when the store is lost in the course of a request, in two
    more: a record written and not indexed, and a [DEL] without its [ZREM].
    A property of Redis that these keep is kept by every request. *)
Section Preservation.
Variables (I : Redis.t -> Prop) (env : Env).
Hypothesis Hsaved : forall u conv r,
  acting env u ->
  I r -> I (saved (nowMs env) u conv r).
Hypothesis Hcreated : forall u conv r,
  acting env u ->
  I r -> I (created (nowMs env) u conv r).
Hypothesis Hremoved : forall u c r,
  acting env u ->
  I r -> I (removed (nowMs env) u c r).
Hypothesis Hdel : forall u c r,
  acting env u -> I r ->
  (Redis.del (getConversationKey u c) (nowMs env) r).1 = 0 ->
  I (Redis.del (getConversationKey u c) (nowMs env) r).2.
Hypothesis Hrecorded : forall u conv r,
  steady env = false -> acting env u ->
  I r -> I (recorded_only (nowMs env) u conv r).
Hypothesis Hdeleted : forall u c r,
  steady env = false -> acting env u ->
  I r -> I (Redis.del (getConversationKey u c) (nowMs env) r).2.

Abbreviation kept := (fun _ st' => holds I st').

(** The cases of the store: up, answering nothing, or lost on the way. *)
Ltac store_cases :=
  destruct (steady env) eqn:Hsteady;
  [destruct (redisUp env) eqn:Hup;
   [|pose proof (Rules.steady_down _ Hsteady Hup) as Hzero]|].

(** What is left of a handler once it has run: Redis as it was, or after
    one of the changes above. *)
Ltac kept_by Hk :=
  try exact Hk; try exact Logic.I; try discriminate;
  lazymatch goal with
  | |- wp _ _ _ _ => idtac
  | |- _ => unfold holds; cbn [redis]
  end;
  lazymatch goal with
  | |- I (Redis.expire _ _ _ (Redis.zadd _ _ _ _ (Redis.set _ ?conv _ _ _).2).2).2 =>
      apply (Hcreated _ conv); [eassumption|exact Hk]
  | |- I (Redis.zadd _ _ _ _ (Redis.set _ ?conv _ _ _).2).2 =>
      apply (Hsaved _ conv); [eassumption|exact Hk]
  | |- I (Redis.set _ ?conv _ _ _).2 =>
      apply (Hrecorded _ conv); [reflexivity|eassumption|exact Hk]
  | |- I (Redis.zrem _ _ _ (Redis.del _ _ _).2).2 =>
      apply Hremoved; [eassumption|exact Hk]
  | |- I (Redis.del _ _ _).2 =>
      first [ apply Hdeleted; [reflexivity|eassumption|exact Hk]
            | apply Hdel; [eassumption|exact Hk|];
              lazymatch goal with
              | H : negb (_ =? 0) = false |- _ =>
                  apply negb_false_iff, Z.eqb_eq in H; exact H
              end ]
  | |- _ => idtac
  end.

Lemma POST_keeps body st :
  holds I st -> wp (ConversationsRoute.POST body) env st kept.
Proof.
  intros Hk. destruct st as [[r|] cs]; unfold ConversationsRoute.POST;
    store_cases; wp_run; kept_by Hk.
Qed.

(** Reading the records of a page changes nothing. *)
Lemma mapM_get_frame u ids st r :
  redis st = Some r ->
  wp (mapM (fun id => command "GET" (getConversationKey u id)
                        (Redis.get (getConversationKey u id))) ids)
     env st (fun _ st' => redis st' = Some r).
Proof.
  revert st. induction ids as [|id ids IH]; intros st Hr; simpl.
  - by wp_step.
  - wp_run; [|done].
    eapply Rules.wp_mono; [|by apply IH].
    intros [a|e|] st' Hst'; [by wp_step|done..].
Qed.

Lemma GET_list_keeps limit offset st :
  holds I st -> wp (ConversationsRoute.GET limit offset) env st kept.
Proof.
  intros Hk. destruct st as [[r|] cs]; unfold ConversationsRoute.GET;
    store_cases; wp_run; kept_by Hk.
  all: eapply Rules.wp_mono; [|by apply mapM_get_frame].
  all: intros [a|e|] st' Hst'; wp_run;
    first [exact Hk | unfold holds; rewrite Hst'; exact Hk].
Qed.

Lemma deleteEach_keeps u ids n st :
  acting env u -> holds I st ->
  wp (ConversationsRoute.deleteEach u ids n) env st kept.
Proof.
  intros Hu. revert n st. induction ids as [|id ids IH]; intros n st Hk; simpl.
  - by wp_step.
  - destruct st as [[r|] cs]; store_cases; wp_run; try apply IH; kept_by Hk.
Qed.

Lemma DELETE_many_keeps ids st :
  holds I st -> wp (ConversationsRoute.DELETE ids) env st kept.
Proof.
  intros Hk. unfold ConversationsRoute.DELETE. wp_run; try exact Hk.
  eapply Rules.wp_mono;
    [|apply deleteEach_keeps; [eassumption|exact Hk]].
  intros [a|e|] st' Hst'; wp_run; exact Hst'.
Qed.

Lemma GET_one_keeps id st :
  holds I st -> wp (ConversationRoute.GET id) env st kept.
Proof.
  intros Hk. destruct st as [[r|] cs];
    unfold ConversationRoute.GET, ConversationRoute.getConversation;
    store_cases; wp_run; kept_by Hk.
Qed.

Lemma PUT_keeps id body st :
  holds I st -> wp (ConversationRoute.PUT id body) env st kept.
Proof.
  intros Hk. destruct st as [[r|] cs];
    unfold ConversationRoute.PUT, ConversationRoute.getConversation,
      ConversationRoute.saveConversation;
    store_cases; wp_run; kept_by Hk.
Qed.

Lemma PATCH_keeps id body st :
  holds I st -> wp (ConversationRoute.PATCH id body) env st kept.
Proof.
  intros Hk. destruct st as [[r|] cs];
    unfold ConversationRoute.PATCH, ConversationRoute.getConversation,
      ConversationRoute.saveConversation;
    store_cases; wp_run; kept_by Hk.
Qed.

Lemma DELETE_one_keeps id st :
  holds I st -> wp (ConversationRoute.DELETE id) env st kept.
Proof.
  intros Hk. destruct st as [[r|] cs];
    unfold ConversationRoute.DELETE, ConversationRoute.getConversation;
    store_cases; wp_run; kept_by Hk.
Qed.

Lemma handle_keeps request st :
  holds I st -> holds I (handle request env st).2.
Proof.
  intros Hk.
  destruct request as [limit offset|payload|ids|id|id payload|id|id payload|payload];
    simpl.
  - by apply (Rules.wp_elim _ _ _ _ (GET_list_keeps _ _ _ Hk)).
  - by apply (Rules.wp_elim _ _ _ _ (POST_keeps _ _ Hk)).
  - by apply (Rules.wp_elim _ _ _ _ (DELETE_many_keeps _ _ Hk)).
  - by apply (Rules.wp_elim _ _ _ _ (GET_one_keeps _ _ Hk)).
  - by apply (Rules.wp_elim _ _ _ _ (PUT_keeps _ _ _ Hk)).
  - by apply (Rules.wp_elim _ _ _ _ (DELETE_one_keeps _ _ Hk)).
  - by apply (Rules.wp_elim _ _ _ _ (PATCH_keeps _ _ _ Hk)).
  - unfold holds. by rewrite (proj1 (ChatFacts.POST_frame payload env st)).
Qed.

End Preservation.

(** During the retention window that ends at [horizon], every request that
    finds the store steady keeps the lockstep. *)
Lemma handle_keeps_lockstep horizon env request st :
  nowMs env < horizon -> horizon <= nowMs env + TTL * 1000 -> plain_user env ->
  steady env = true ->
  holds (invariant horizon) st ->
  holds (invariant horizon) (handle request env st).2.
Proof.
  intros Hnow Hhorizon Hplain Hsteady.
  apply handle_keeps; intros u x r.
  - intros Hu%(plain_authenticated _ _ Hplain). by apply invariant_saved.
  - intros Hu%(plain_authenticated _ _ Hplain). by apply invariant_created.
  - intros Hu%(plain_authenticated _ _ Hplain). by apply invariant_removed.
  - intros Hu%(plain_authenticated _ _ Hplain). by apply invariant_del_nothing.
  - intros Hlost. by rewrite Hsteady in Hlost.
  - intros Hlost. by rewrite Hsteady in Hlost.
Qed.

Lemma serve_keeps_lockstep horizon requests st :
  Forall (fun er => nowMs er.1 < horizon /\ horizon <= nowMs er.1 + TTL * 1000
                    /\ plain_user er.1 /\ steady er.1 = true) requests ->
  holds (invariant horizon) st -> holds (invariant horizon) (serve requests st).
Proof.
  intros Hall. revert st.
  induction Hall as [|[env request] requests (Hn & Hh & Hp & Hs) _ IH];
    intros st Hk; [done|].
  simpl. apply IH. by apply handle_keeps_lockstep.
Qed.

(** A store where nothing has expired at [now] is settled until just after
    [now]. *)
Lemma unexpired_settled now r : unexpired now r = true -> settled (now + 1) r.
Proof.
  unfold unexpired. intros [Hs Hz]%andb_prop.
  apply bool_decide_eq_true_1 in Hs, Hz. split.
  - intros key v [t|] Hk; simpl; [|done].
    specialize (Hs key (v, Some t) Hk). simpl in Hs. apply Z.ltb_lt in Hs. lia.
  - intros key z [t|] Hk; simpl; [|done].
    specialize (Hz key (z, Some t) Hk). simpl in Hz. apply Z.ltb_lt in Hz. lia.
Qed.

(** A request that finds nothing expired keeps the index and the records
    in lockstep. *)
Lemma handle_keeps_raw_lockstep env request st :
  plain_user env -> steady env = true ->
  nothing_expired st (nowMs env) = true ->
  holds raw_lockstep st -> holds raw_lockstep (handle request env st).2.
Proof.
  intros Hplain Hsteady Hfresh Hraw.
  assert (holds (invariant (nowMs env + 1)) st) as Hinv.
  { unfold holds, nothing_expired in *. destruct (redis st) as [r|]; [|done].
    split; [by apply unexpired_settled|done]. }
  apply (handle_keeps_lockstep (nowMs env + 1) env request) in Hinv;
    [|lia|unfold TTL; lia|done|done].
  unfold holds in *. destruct (redis (handle request env st).2); [|done].
  by destruct Hinv.
Qed.

Lemma serve_keeps_raw_lockstep requests st :
  Forall (fun er => plain_user er.1 /\ steady er.1 = true) requests ->
  unexpiring requests st = true ->
  holds raw_lockstep st -> holds raw_lockstep (serve requests st).
Proof.
  intros Hall. revert st.
  induction Hall as [|[env request] requests [Hp Hs] _ IH]; intros st Hrun Hraw;
    [done|].
  simpl in Hrun. apply andb_prop in Hrun as [Hfresh Hrun].
  simpl. apply IH; [done|]. by apply handle_keeps_raw_lockstep.
Qed.

(** At any time, every request leaves each record under the key of its own
    id. *)
Lemma handle_keeps_filed env request st :
  plain_user env -> holds filed st -> holds filed (handle request env st).2.
Proof.
  intros Hplain.
  apply handle_keeps; intros u x r.
  - intros Hu%(plain_authenticated _ _ Hplain). by apply filed_saved.
  - intros Hu%(plain_authenticated _ _ Hplain) Hf.
    unfold created. apply filed_expire. by apply filed_saved.
  - intros Hu%(plain_authenticated _ _ Hplain) Hf.
    unfold removed. by apply filed_zrem, filed_del.
  - intros Hu%(plain_authenticated _ _ Hplain) Hf _. by apply filed_del.
  - intros _ Hu%(plain_authenticated _ _ Hplain). by apply filed_recorded.
  - intros _ _ Hf. by apply filed_del.
Qed.

Lemma serve_keeps_filed requests st :
  Forall (fun er => plain_user er.1) requests ->
  holds filed st -> holds filed (serve requests st).
Proof.
  intros Hall. revert st.
  induction Hall as [|[env request] requests Hp _ IH]; intros st Hk; [done|].
  simpl. apply IH. by apply handle_keeps_filed.
Qed.

End HandlerFacts.

(** Within thirty days of the first request nothing has expired, so the
    lockstep holds throughout the first retention window (of a store that
    every request found steady). *)
Lemma lockstep_within_retention
    (requests : list (Env * Request)) (start now : Z) :
  Forall (fun er => start <= nowMs er.1 < start + ms TTL /\ plain_user er.1
                    /\ steady er.1 = true)
         requests ->
  start <= now < start + ms TTL ->
  store_lockstep (serve requests initial) now.
Proof.
  intros Hall [_ Hnow]. unfold store_lockstep.
  assert (holds (invariant (start + ms TTL)) (serve requests initial)) as Hk.
  { apply HandlerFacts.serve_keeps_lockstep.
    - eapply Forall_impl; [exact Hall|]. unfold ms.
      intros [env request] ([Hlo Hhi] & Hp & Hs); simpl in *.
      repeat split; [lia|lia|done|done].
    - apply LockstepFacts.invariant_empty. }
  unfold holds in Hk. destruct (redis (serve requests initial)) as [r|]; [|done].
  by eapply LockstepFacts.invariant_lockstep.
Qed.

(** C8, as the code has it. As long as no key has expired (none when a
    request runs, none when the store is looked at) and no request has lost
    the store between two of its commands (the server answers all the
    commands of a request or none), for users whose id has no [":"]: after
    every sequence of requests the index of a user lists a conversation if
    and only if its record exists. Creation writes both, the deletions
    remove both, append and replace write the record again and refresh its
    score. *)
Theorem lockstep_while_nothing_expires
    (requests : list (Env * Request)) (now : Z) :
  Forall (fun er => plain_user er.1 /\ steady er.1 = true) requests ->
  unexpiring requests initial = true ->
  nothing_expired (serve requests initial) now = true ->
  store_lockstep (serve requests initial) now.
Proof.
  intros Hall Hrun Hnow.
  assert (holds raw_lockstep (serve requests initial)) as Hraw.
  { apply HandlerFacts.serve_keeps_raw_lockstep; [done..|].
    apply LockstepFacts.invariant_empty with (horizon := 0). }
  unfold store_lockstep, holds, nothing_expired in *.
  destruct (redis (serve requests initial)) as [r|]; [|done].
  apply (RedisFacts.lockstep_raw (now + 1)); [|lia|done].
  by apply HandlerFacts.unexpired_settled.
Qed.

Lemma lockstep_while_nothing_expires_witness :
  store_lockstep
    (serve [ (at_ 0 "day 0" "A", CreateRequest (titled "first"));
             (at_ (20 * day) "day 20" "B", CreateRequest (titled "second"));
             (at_ (25 * day) "day 25" "",
              AppendRequest "A" (Some (says "user" "hi"))) ] initial)
    (45 * day).
Proof.
  apply lockstep_while_nothing_expires.
  - repeat constructor; intros userId [= <-]; reflexivity.
  - by vm_compute.
  - by vm_compute.
Defined.

(** Counterexample to C8 as stated, in the two ways the code allows.
    Expiry: the record of a conversation expires thirty days after its last
    write, while the index of the user lives thirty days from the last
    creation and its entries never expire one by one; with ["A"] created on
    day 0 and ["B"] on day 20, on day 31 the index still lists ["A"], whose
    record is gone. Loss of the store: the handlers send their commands one
    by one and undo nothing; a creation whose [SET] is answered and whose
    [ZADD] is not leaves, with nothing expired, a record that the index does
    not list. *)
Lemma index_and_records_part :
  ~ store_lockstep twenty_days_apart (31 * day) /\
  nothing_expired cut_short 2000 = true /\
  ~ store_lockstep cut_short 2000.
Proof.
  split; [|split; [by vm_compute|]].
  - unfold store_lockstep.
    destruct (redis twenty_days_apart) as [r|] eqn:Hr; [|by vm_compute in Hr].
    intros Hlock. destruct (Hlock "u1" "A" eq_refl) as [Hrecord _].
    assert (Some r = redis twenty_days_apart) as Heq by done.
    vm_compute in Heq. injection Heq as Heq.
    assert (indexed r (31 * day) "u1" "A") as Hindexed
      by (subst r; vm_compute; eauto).
    apply Hrecord in Hindexed. subst r. vm_compute in Hindexed.
    by destruct Hindexed.
  - unfold store_lockstep.
    destruct (redis cut_short) as [r|] eqn:Hr; [|by vm_compute in Hr].
    intros Hlock. destruct (Hlock "u1" "A" eq_refl) as [_ Hindex].
    assert (Some r = redis cut_short) as Heq by done.
    vm_compute in Heq. injection Heq as Heq.
    assert (recorded r 2000 "u1" "A") as Hrecorded
      by (subst r; vm_compute; eauto).
    apply Hindex in Hrecorded. subst r. vm_compute in Hrecorded.
    by destruct Hrecorded.
Qed.

(** ** The conversation handlers, case by case *)

Module StoreFacts.

Lemma wp_equal {A} (m : M A) env st (x : Outcome A * State) :
  wp m env st (fun o st' => (o, st') = x) -> m env st = x.
Proof. unfold wp. by destruct (m env st). Qed.

(** [split(',')] never returns the empty array. *)
Lemma split_comma_nonempty s : Js.split_comma s <> [].
Proof.
  destruct s as [|c s]; simpl; [done|].
  destruct (Ascii.eqb c ","); [done|]. by destruct (Js.split_comma s).
Qed.

(** [getConversation] on a server that answers: the record as it is at the
    instant of the request. *)
Lemma wp_getConversation u id env st r Q :
  redis st = Some r -> redisUp env = true ->
  Q (Return (Redis.live (nowMs env)
               (Redis.strings r !! getConversationKey u id)))
    {| redis := Some r;
       calls := calls st ++ [CallRedis "GET" (getConversationKey u id)] |} ->
  wp (ConversationRoute.getConversation u id) env st Q.
Proof.
  intros Hr Hup HQ. unfold ConversationRoute.getConversation.
  do 2 wp_step. rewrite Hr, bool_decide_eq_true_2 by eauto. cbn [negb].
  eapply Rules.wp_command_up; [exact Hr|exact Hup|]. exact HQ.
Qed.

(** Without a signed-in user every conversation handler answers 401 and
    leaves the state, calls included, as it was. *)
Lemma conversation_handlers_require_user env st request :
  authenticated (currentUserId env) = None ->
  match request with
  | ChatRequest _ => True
  | _ => handle request env st = (Return (failure 401 "Unauthorized"), st)
  end.
Proof.
  intros Hauth. destruct request; simpl; [..|done]; apply wp_equal.
  - unfold ConversationsRoute.GET. do 3 wp_step. rewrite Hauth. by wp_step.
  - unfold ConversationsRoute.POST. do 3 wp_step. rewrite Hauth. by wp_step.
  - unfold ConversationsRoute.DELETE. do 3 wp_step. rewrite Hauth. by wp_step.
  - unfold ConversationRoute.GET. do 3 wp_step. rewrite Hauth. by wp_step.
  - unfold ConversationRoute.PUT. do 3 wp_step. rewrite Hauth. by wp_step.
  - unfold ConversationRoute.DELETE. do 3 wp_step. rewrite Hauth. by wp_step.
  - unfold ConversationRoute.PATCH. do 3 wp_step. rewrite Hauth. by wp_step.
Qed.

(** In a store that the handlers have filled, a conversation found under an
    id carries that id. *)
Lemma stored_under_own_id requests now u id conversation :
  Forall (fun er => plain_user er.1) requests ->
  no_colon u = true ->
  stored (serve requests initial) now u id = Some conversation ->
  conv_id conversation = id.
Proof.
  intros Hall Hu.
  assert (holds filed (serve requests initial)) as Hf.
  { apply HandlerFacts.serve_keeps_filed; [done|].
    intros u' c' conv e _. simpl. by rewrite lookup_empty. }
  unfold stored, holds in *.
  destruct (redis (serve requests initial)) as [r|]; [|done].
  destruct (Redis.strings r !! getConversationKey u id) as [[conv e]|] eqn:Hk;
    simpl; [|done].
  destruct (Redis.alive now e); [|done]. intros [= <-]. by eapply Hf.
Qed.

End StoreFacts.

(** C2, as the code has it. For a signed-in user and well-formed requests:
    when Redis is not configured, list, create, delete and delete-many answer
    200 with the empty or default result (create with the conversation it
    built from the body, the user, [nanoid] and the clock, which is kept
    nowhere), and get, replace and append answer 404; no handler touches the
    state. When Redis is configured and its server does not answer, every
    one of the seven answers 500 and Redis is as before. *)
Theorem store_unavailable
    (env : Env) (st : State) (userId id : string)
    (creation replacement addition : JSON)
    (c : CreateConversation) (u : UpdateConversation) (m : ChatMessage)
    (ids : string) (limit offset : option Z) :
  authenticated (currentUserId env) = Some userId ->
  CreateConversationSchema (Some creation) = Ok c ->
  UpdateConversationSchema (Some replacement) = Ok u ->
  AddMessageSchema (Some addition) = Ok m ->
  (redis st = None ->
   ConversationsRoute.GET limit offset env st
     = (Return (success (ConversationList [] 0 false)), st) /\
   ConversationsRoute.POST (Some creation) env st
     = (Return (success (OneConversation (new_conversation env userId c))), st) /\
   ConversationRoute.DELETE id env st = (Return (success (Deleted false)), st) /\
   ConversationsRoute.DELETE (Some ids) env st
     = (Return (success (DeletedCount 0)), st) /\
   ConversationRoute.GET id env st
     = (Return (failure 404 "Conversation not found"), st) /\
   ConversationRoute.PUT id (Some replacement) env st
     = (Return (failure 404 "Conversation not found"), st) /\
   ConversationRoute.PATCH id (Some addition) env st
     = (Return (failure 404 "Conversation not found"), st)) /\
  (redisUp env = false -> redisLostAt env = 0%nat -> is_Some (redis st) ->
   forall request,
     In request [ ListRequest limit offset; CreateRequest (Some creation);
                  DeleteRequest id; DeleteManyRequest (Some ids);
                  GetRequest id; ReplaceRequest id (Some replacement);
                  AppendRequest id (Some addition) ] ->
     exists error,
       (handle request env st).1 = Return (failure 500 error) /\
       redis (handle request env st).2 = redis st).
Proof.
  intros Hauth Hc Hu Hm. split.
  - intros Hnone. destruct st as [rd cs]; simpl in Hnone; subst rd.
    repeat split.
    + apply StoreFacts.wp_equal. unfold ConversationsRoute.GET.
      do 3 wp_step. rewrite Hauth. wp_auto.
    + apply StoreFacts.wp_equal. unfold ConversationsRoute.POST.
      do 3 wp_step. rewrite Hauth. do 3 wp_step.
      eapply Rules.wp_parse_ok; [exact Hc|]. wp_auto.
    + apply StoreFacts.wp_equal. unfold ConversationRoute.DELETE.
      do 3 wp_step. rewrite Hauth. wp_auto.
    + apply StoreFacts.wp_equal. unfold ConversationsRoute.DELETE.
      do 3 wp_step. rewrite Hauth.
      rewrite bool_decide_eq_false_2 by apply StoreFacts.split_comma_nonempty.
      wp_auto.
    + apply StoreFacts.wp_equal.
      unfold ConversationRoute.GET, ConversationRoute.getConversation.
      do 3 wp_step. rewrite Hauth. wp_auto.
    + apply StoreFacts.wp_equal.
      unfold ConversationRoute.PUT, ConversationRoute.getConversation.
      do 3 wp_step. rewrite Hauth. do 3 wp_step.
      eapply Rules.wp_parse_ok; [exact Hu|]. wp_auto.
    + apply StoreFacts.wp_equal.
      unfold ConversationRoute.PATCH, ConversationRoute.getConversation.
      do 3 wp_step. rewrite Hauth. do 3 wp_step.
      eapply Rules.wp_parse_ok; [exact Hm|]. wp_auto.
  - intros Hdown Hzero [r Hr] request Hin.
    destruct st as [rd cs]; simpl in Hr; subst rd.
    assert (forall (h : M Response) error,
               wp h env {| redis := Some r; calls := cs |}
                  (fun o st' => o = Return (failure 500 error) /\
                                redis st' = Some r) ->
               exists error,
                 (h env {| redis := Some r; calls := cs |}).1
                 = Return (failure 500 error) /\
                 redis (h env {| redis := Some r; calls := cs |}).2 = Some r)
      as Hwp by (intros h error H; by exists error).
    simpl in Hin.
    destruct Hin as [<-|[<-|[<-|[<-|[<-|[<-|[<-|[]]]]]]]]; simpl;
      eapply Hwp.
    + unfold ConversationsRoute.GET. do 3 wp_step. rewrite Hauth. wp_auto.
    + unfold ConversationsRoute.POST. do 3 wp_step. rewrite Hauth. do 3 wp_step.
      eapply Rules.wp_parse_ok; [exact Hc|]. wp_auto.
    + unfold ConversationRoute.DELETE, ConversationRoute.getConversation.
      do 3 wp_step. rewrite Hauth. wp_auto.
    + unfold ConversationsRoute.DELETE. do 3 wp_step. rewrite Hauth.
      rewrite bool_decide_eq_false_2 by apply StoreFacts.split_comma_nonempty.
      do 2 wp_step. cbn [redis]. rewrite bool_decide_eq_true_2 by eauto.
      cbn [negb]. wp_step.
      destruct (Js.split_comma ids) as [|first rest] eqn:Hids;
        [by apply StoreFacts.split_comma_nonempty in Hids|].
      cbn [ConversationsRoute.deleteEach]. wp_auto.
    + unfold ConversationRoute.GET, ConversationRoute.getConversation.
      do 3 wp_step. rewrite Hauth. wp_auto.
    + unfold ConversationRoute.PUT, ConversationRoute.getConversation.
      do 3 wp_step. rewrite Hauth. do 3 wp_step.
      eapply Rules.wp_parse_ok; [exact Hu|]. wp_auto.
    + unfold ConversationRoute.PATCH, ConversationRoute.getConversation.
      do 3 wp_step. rewrite Hauth. do 3 wp_step.
      eapply Rules.wp_parse_ok; [exact Hm|]. wp_auto.
Qed.

Lemma store_unavailable_witness :
  ConversationsRoute.GET None None (at_ 1000 "t1" "A") unconfigured
    = (Return (success (ConversationList [] 0 false)), unconfigured) /\
  ConversationRoute.GET "A" (at_ 1000 "t1" "A") unconfigured
    = (Return (failure 404 "Conversation not found"), unconfigured).
Proof.
  destruct (store_unavailable (at_ 1000 "t1" "A") unconfigured "u1" "A"
              (JObj [("title", JStr "first")]) (JObj []) (says "user" "hi")
              {| create_title := "first"; create_model := None;
                 create_systemPrompt := None |}
              {| update_title := None; update_messages := None |}
              {| role := user; content := "hi" |}
              "A,B" None None eq_refl eq_refl eq_refl eq_refl) as [Hnone _].
  destruct (Hnone eq_refl) as (Hlist & _ & _ & _ & Hget & _).
  split; assumption.
Defined.

(** Counterexample to C2 as stated: without Redis, fetching a conversation
    is answered 404, not with a success. *)
Lemma get_without_store_is_not_found :
  ~ succeeds (ConversationRoute.GET "A" (at_ 1000 "t1" "A") unconfigured).1.
Proof.
  intros (response & Hreturn & Hstatus). vm_compute in Hreturn.
  injection Hreturn as <-. by vm_compute in Hstatus.
Qed.

(** With a Redis server that does not answer, fetching a conversation that
    exists is answered 500. *)
Example get_from_silent_store :
  (ConversationRoute.GET "A" (silent (at_ 3000 "t3" "")) two_conversations).1
  = Return (failure 500 "Failed to retrieve conversation").
Proof. by vm_compute. Qed.




(** C6. With two conversations in the index of the user, the page of limit
    1 at offset 2 is empty, and the handler answers it with [total] 0 where
    the index holds 2: the early return on an empty page never reads the
    cardinality. A limit below 1 is not rejected either: with limit -1 the
    range [0 .. -2] reaches Redis, which counts -2 from the end, and one
    conversation comes back. *)
Theorem empty_page_reports_total_zero :
  (ConversationsRoute.GET (Some 1) (Some 2) (at_ 3000 "t3" "") two_conversations).1
  = Return (success (ConversationList [] 0 false)) /\
  (exists r, redis two_conversations = Some r /\
             (Redis.zcard (getUserConversationsKey "u1") 3000 r).1 = 2) /\
  (ConversationsRoute.GET (Some (-1)) (Some 0) (at_ 3000 "t3" "") two_conversations).1
  = Return (success (ConversationList
              [ {| conv_id := "B"; conv_title := "second"; conv_messages := [];
                   conv_model := "gpt-4o-mini"; conv_createdAt := "t2";
                   conv_updatedAt := "t2"; conv_userId := "u1" |} ]
              2 true)).
Proof.
  split; [by vm_compute|]. split; [|by vm_compute].
  eexists. split; [reflexivity|]. by vm_compute.
Qed.

(** ** Further properties of the handlers *)

Module MoreFacts.

(** A key that is gone stays gone. *)
Lemma live_later {A} now later (entry : option (A * option Z)) :
  now <= later -> Redis.live now entry = None -> Redis.live later entry = None.
Proof.
  intros Hle. destruct entry as [[a [t|]]|]; simpl; [|done..].
  destruct (now <? t) eqn:Hnow; [done|]. intros _.
  apply Z.ltb_ge in Hnow. by rewrite (proj2 (Z.ltb_ge later t)) by lia.
Qed.

(** After [DELETE] the record is absent, whatever [DELETE] answered. *)
Lemma DELETE_removes env st r u id later :
  authenticated (currentUserId env) = Some u ->
  redis st = Some r -> redisUp env = true -> nowMs env <= later ->
  wp (ConversationRoute.DELETE id) env st
     (fun _ st' => stored st' later u id = None /\ is_Some (redis st')).
Proof.
  intros Hauth Hr Hup Hle. destruct st as [rd cs]; simpl in Hr; subst rd.
  unfold ConversationRoute.DELETE. do 3 wp_step. rewrite Hauth.
  do 2 wp_step. cbn [redis]. rewrite bool_decide_eq_true_2 by eauto.
  cbn [negb]. wp_step.
  eapply StoreFacts.wp_getConversation; [reflexivity|exact Hup|].
  destruct (Redis.live (nowMs env) (Redis.strings r !! getConversationKey u id))
    as [conversation|] eqn:Hget.
  - wp_run; unfold stored; cbn [redis]; (split; [|by eauto]).
    + unfold Redis.zrem, Redis.del; cbn [snd fst Redis.strings Redis.zsets].
      destruct (delete _ (Redis.zsets r) !! getUserConversationsKey u)
        as [[z e]|]; [destruct (Redis.alive (nowMs env) e); [destruct (z !! id)|]|];
        cbn [Redis.strings snd]; by rewrite lookup_delete_eq.
    + unfold Redis.del; cbn [snd Redis.strings]. by rewrite lookup_delete_eq.
  - wp_run. unfold stored; cbn [redis]. split; [|by eauto].
    by eapply live_later.
Qed.

End MoreFacts.

(** X2. Deleting a conversation and then fetching it, at the same instant or
    later, is answered 404, whether or not the deletion found it. *)
Theorem get_after_delete_is_not_found
    (env later : Env) (st : State) (userId id : string) :
  authenticated (currentUserId env) = Some userId ->
  authenticated (currentUserId later) = Some userId ->
  is_Some (redis st) ->
  redisUp env = true -> redisUp later = true ->
  nowMs env <= nowMs later ->
  (ConversationRoute.GET id later (ConversationRoute.DELETE id env st).2).1
  = Return (failure 404 "Conversation not found").
Proof.
  intros Hauth Hauth' [r Hr] Hup Hup' Hle.
  pose proof (Rules.wp_elim _ _ _ _
                (MoreFacts.DELETE_removes env st r userId id (nowMs later)
                   Hauth Hr Hup Hle)) as [Hgone [r' Hr']].
  cbv beta in Hgone, Hr'.
  set (st' := (ConversationRoute.DELETE id env st).2) in *.
  unfold stored in Hgone. rewrite Hr' in Hgone.
  apply (Rules.wp_elim (ConversationRoute.GET id) later st'
           (fun o _ => o = Return (failure 404 "Conversation not found"))).
  unfold ConversationRoute.GET. do 3 wp_step. rewrite Hauth'. wp_step.
  eapply StoreFacts.wp_getConversation; [exact Hr'|exact Hup'|].
  rewrite Hgone. by wp_run.
Qed.

Lemma get_after_delete_is_not_found_witness :
  (ConversationRoute.GET "A" (at_ 4000 "t4" "")
     (ConversationRoute.DELETE "A" (at_ 3000 "t3" "") two_conversations).2).1
  = Return (failure 404 "Conversation not found").
Proof.
  apply (get_after_delete_is_not_found (at_ 3000 "t3" "") (at_ 4000 "t4" "")
           two_conversations "u1" "A");
    first [reflexivity | by vm_compute; eauto | by vm_compute].
Defined.

(** X4. Without a signed-in user (none, or one whose id is empty) each of
    the seven conversation handlers answers 401 and leaves the state, the
    log of calls included, as it was. *)
Theorem conversation_handlers_answer_401 (env : Env) (st : State) (request : Request) :
  authenticated (currentUserId env) = None ->
  match request with
  | ChatRequest _ => True
  | _ => handle request env st
         = (Return (failure 401 "Unauthorized"), st)
  end.
Proof. apply StoreFacts.conversation_handlers_require_user. Qed.

Lemma conversation_handlers_answer_401_witness :
  ConversationRoute.GET "A" (as_user "" (at_ 3000 "t3" "")) two_conversations
  = (Return (failure 401 "Unauthorized"), two_conversations).
Proof.
  exact (conversation_handlers_answer_401 (as_user "" (at_ 3000 "t3" ""))
           two_conversations (GetRequest "A") eq_refl).
Defined.


(** ** The pages of the list *)

Module ListFacts.

(** [ZREVRANGE] with a start that is not negative and room for at least one
    element: the elements from [start] on, at most [count] of them. *)
Lemma range_take_drop {A} (l : list A) (start count : Z) :
  0 <= start -> 1 <= count ->
  Redis.range l start (start + count - 1)
  = take (Z.to_nat count) (drop (Z.to_nat start) l).
Proof.
  intros Hstart Hcount. unfold Redis.range.
  rewrite (proj2 (Z.ltb_ge start 0)) by lia.
  rewrite (proj2 (Z.ltb_ge (start + count - 1) 0)) by lia.
  destruct (Z.of_nat (length l) <=? start) eqn:Hlen.
  - apply Z.leb_le in Hlen. rewrite orb_true_r.
    rewrite drop_ge by lia. by rewrite take_nil.
  - apply Z.leb_gt in Hlen. rewrite orb_false_r.
    rewrite (proj2 (Z.ltb_ge _ start)) by lia.
    destruct (Z.le_gt_cases (start + count - 1) (Z.of_nat (length l) - 1)).
    + rewrite Z.min_l by lia. f_equal. lia.
    + rewrite Z.min_r by lia.
      rewrite !take_ge; [done|rewrite length_drop; lia..].
Qed.

Lemma Sorted_weaken {A} (R R' : relation A) (l : list A) :
  (forall a b, R a b -> R' a b) -> Sorted R l -> Sorted R' l.
Proof.
  intros Himpl. induction 1 as [|a l _ IH Hhd]; constructor; [done|].
  destruct Hhd; constructor. by apply Himpl.
Qed.

Lemma omap_fmap_compose {A B C} (f : B -> option C) (g : A -> B) (l : list A) :
  omap f (g <$> l) = omap (fun a => f (g a)) l.
Proof.
  induction l as [|a l IH]; simpl; [done|].
  destruct (f (g a)); simpl; by f_equal.
Qed.

Lemma length_omap_le {A B} (f : A -> option B) (l : list A) :
  (length (omap f l) <= length l)%nat.
Proof.
  induction l as [|a l IH]; [done|]. cbn [omap list_omap length].
  destruct (f a); cbn [length]; fold (omap f l); lia.
Qed.

Lemma newer_total : Total Redis.newer.
Proof.
  intros [m1 s1] [m2 s2]. unfold Redis.newer, Redis.newer_b; simpl.
  destruct (Z.lt_trichotomy s1 s2) as [Hlt|[->|Hgt]].
  - right. by rewrite (proj2 (Z.ltb_lt s1 s2)).
  - rewrite Z.ltb_irrefl, Z.eqb_refl; simpl.
    destruct (String.leb_total m1 m2) as [Hle | Hle]; rewrite Hle; [by right|by left].
  - left. by rewrite (proj2 (Z.ltb_lt s2 s1)).
Qed.

(** The index read in descending order never goes up in score. *)
Lemma descending_scores (z : gmap string Z) :
  Sorted (fun a b : string * Z => b.2 <= a.2)
         (merge_sort Redis.newer (map_to_list z)).
Proof.
  eapply Sorted_weaken; [|apply Sorted_merge_sort, newer_total].
  intros [m1 s1] [m2 s2]. unfold Redis.newer, Redis.newer_b; simpl.
  intros Hnewer. apply orb_prop in Hnewer as [Hlt|Heq].
  - apply Z.ltb_lt in Hlt. lia.
  - apply andb_prop in Heq as [Heq _]. apply Z.eqb_eq in Heq. lia.
Qed.

(** Reading the records of a page: the records as they are, in the order of
    the page; Redis is as before. *)
Lemma mapM_get u ids env st r :
  redis st = Some r -> redisUp env = true ->
  wp (mapM (fun id => command "GET" (getConversationKey u id)
                        (Redis.get (getConversationKey u id))) ids)
     env st
     (fun o st' =>
        o = Return ((fun id => Redis.live (nowMs env)
                                 (Redis.strings r !! getConversationKey u id))
                      <$> ids) /\
        redis st' = Some r).
Proof.
  intros Hr Hup. revert st Hr.
  induction ids as [|id ids IH]; intros st Hr; simpl.
  - by wp_step.
  - wp_step. eapply Rules.wp_command_up; [exact Hr|exact Hup|]. wp_step.
    eapply Rules.wp_mono; [|by apply IH].
    intros o st' [-> Hst']. by wp_step.
Qed.

(** The same when the store may be lost: if the reading comes to its end,
    it has read the records as they are. *)
Lemma mapM_get_any u ids env st r :
  redis st = Some r ->
  wp (mapM (fun id => command "GET" (getConversationKey u id)
                        (Redis.get (getConversationKey u id))) ids)
     env st
     (fun o st' =>
        (forall found,
            o = Return found ->
            found = (fun id => Redis.live (nowMs env)
                                 (Redis.strings r !! getConversationKey u id))
                      <$> ids) /\
        redis st' = Some r).
Proof.
  revert st. induction ids as [|id ids IH]; intros st Hr; simpl.
  - wp_step. split; [by intros found [= <-]|done].
  - wp_step. eapply Rules.wp_command_any; [exact Hr|intros _|intros _];
      [|by split].
    wp_step. eapply Rules.wp_mono; [|by apply IH].
    intros [found|e|] st' [Hfound Hst']; [|by split..].
    wp_step. split; [|done]. intros ? [= <-]. by rewrite (Hfound _ eq_refl).
Qed.

(** The answer of the list on a store that answers. *)
Lemma GET_page env st r userId limitParam offsetParam :
  acting env userId -> redis st = Some r -> redisUp env = true ->
  1 <= Z.min (default 20 limitParam) 100 ->
  let limit := Z.min (default 20 limitParam) 100 in
  let offset := Z.max (default 0 offsetParam) 0 in
  let index :=
    merge_sort Redis.newer
      (map_to_list (Redis.members (getUserConversationsKey userId) (nowMs env) r)) in
  let page := take (Z.to_nat limit) (drop (Z.to_nat offset) index) in
  let items :=
    omap (fun entry : string * Z =>
            Redis.live (nowMs env)
              (Redis.strings r !! getConversationKey userId entry.1)) page in
  (ConversationsRoute.GET limitParam offsetParam env st).1
  = Return (success
      (if bool_decide (page = []) then ConversationList [] 0 false
       else ConversationList items (Z.of_nat (length index))
              (offset + limit <? Z.of_nat (length index)))).
Proof.
  intros Hauth Hr Hup Hlimit limit offset index page items.
  unfold acting in Hauth.
  destruct st as [rd cs]; simpl in Hr; subst rd.
  apply (Rules.wp_elim (ConversationsRoute.GET limitParam offsetParam) env _
           (fun o _ => o = Return _)).
  unfold ConversationsRoute.GET. do 3 wp_step. rewrite Hauth.
  do 2 wp_step. cbn [redis]. rewrite bool_decide_eq_true_2 by eauto.
  cbn [negb]. wp_step.
  eapply Rules.wp_command_up; [reflexivity|exact Hup|].
  unfold Redis.zrevrange; cbn [fst snd].
  fold limit offset. rewrite range_take_drop by (subst limit offset; lia).
  unfold Redis.descending. fold index.
  rewrite <- fmap_drop, <- fmap_take. fold page.
  assert (items = omap (fun entry : string * Z =>
                          Redis.live (nowMs env)
                            (Redis.strings r !! getConversationKey userId entry.1))
                       page) as Hitems by reflexivity.
  assert (Z.of_nat (length index)
          = (Redis.zcard (getUserConversationsKey userId) (nowMs env) r).1)
    as Hcard.
  { unfold Redis.zcard; cbn [fst]. subst index.
    by rewrite (Permutation_length (merge_sort_Permutation _ _)),
      length_map_to_list. }
  clearbody items page. destruct page as [|entry page'].
  - simpl. by wp_run.
  - rewrite (bool_decide_eq_false_2 (_ :: _ = [])) by done.
    cbn [fmap list_fmap]. rewrite bool_decide_eq_false_2 by done. wp_step.
    eapply Rules.wp_mono; [|by apply (mapM_get userId)].
    intros o st' [-> Hst']. wp_step.
    eapply Rules.wp_command_up; [exact Hst'|exact Hup|]. wp_step.
    rewrite Hcard, Hitems. do 3 f_equal.
    change (entry.1 :: page'.*1) with (fst <$> (entry :: page')).
    by rewrite !omap_fmap_compose.
Qed.

End ListFacts.

(** X1. The list on a store that answers, for a limit of at least 1 (after the
    cap at 100) and an offset (raised to 0 when negative): the page is read
    from the index in descending order of score, skipping [offset] entries
    and taking at most [limit]; an empty page is answered with total 0 and
    no more to come; a page that is not empty is answered with the records
    of its ids that still exist, in the order of the page, with the
    cardinality of the index as total, and with more to come if and only if
    [offset + limit] is below that total. *)
Theorem list_page
    (env : Env) (st : State) (r : Redis.t) (userId : string)
    (limitParam offsetParam : option Z) :
  authenticated (currentUserId env) = Some userId ->
  redis st = Some r ->
  redisUp env = true ->
  1 <= Z.min (default 20 limitParam) 100 ->
  let limit := Z.min (default 20 limitParam) 100 in
  let offset := Z.max (default 0 offsetParam) 0 in
  let index :=
    merge_sort Redis.newer
      (map_to_list (Redis.members (getUserConversationsKey userId) (nowMs env) r)) in
  let page := take (Z.to_nat limit) (drop (Z.to_nat offset) index) in
  let items :=
    omap (fun entry : string * Z =>
            Redis.live (nowMs env)
              (Redis.strings r !! getConversationKey userId entry.1)) page in
  Sorted (fun a b : string * Z => b.2 <= a.2) index /\
  (length items <= length page <= Z.to_nat limit)%nat /\
  (ConversationsRoute.GET limitParam offsetParam env st).1
  = Return (success
      (if bool_decide (page = []) then ConversationList [] 0 false
       else ConversationList items (Z.of_nat (length index))
              (offset + limit <? Z.of_nat (length index)))).
Proof.
  intros Hauth Hr Hup Hlimit limit offset index page items.
  split; [apply ListFacts.descending_scores|]. split.
  { split; [apply ListFacts.length_omap_le|]. subst page. rewrite length_take. lia. }
  by apply ListFacts.GET_page.
Qed.

Lemma list_page_witness :
  (ConversationsRoute.GET (Some 1) (Some 1) (at_ 3000 "t3" "") two_conversations).1
  = Return (success (ConversationList
              [ {| conv_id := "A"; conv_title := "first"; conv_messages := [];
                   conv_model := "gpt-4o-mini"; conv_createdAt := "t1";
                   conv_updatedAt := "t1"; conv_userId := "u1" |} ]
              2 false)).
Proof.
  pose proof (list_page (at_ 3000 "t3" "") two_conversations
                (default Redis.empty (redis two_conversations)) "u1"
                (Some 1) (Some 1) eq_refl eq_refl eq_refl) as H.
  destruct H as (_ & _ & H); [by vm_compute|].
  rewrite H. by vm_compute.
Defined.
(** ** What a request leaves alone *)

Module FrameFacts.
Import KeyFacts.

(** A deployment with Redis keeps its handle. *)
Lemma deleteEach_handle u ids n env st :
  is_Some (redis st) ->
  wp (ConversationsRoute.deleteEach u ids n) env st
     (fun _ st' => is_Some (redis st')).
Proof.
  revert n st. induction ids as [|id ids IH]; intros n st [r Hr]; simpl.
  - wp_step. eauto.
  - destruct st as [rd cs]; simpl in Hr; subst rd.
    wp_run; try (by eauto); apply IH; eauto.
Qed.

(** The loop of the deletion comes to an end. *)
Lemma deleteEach_ends u ids n env st :
  wp (ConversationsRoute.deleteEach u ids n) env st (fun o _ => o <> Pending).
Proof.
  revert n st. induction ids as [|id ids IH]; intros n st; simpl.
  - by wp_step.
  - destruct st as [[r|] cs]; wp_run; try done; apply IH.
Qed.

Lemma handle_handle request env st :
  is_Some (redis st) -> is_Some (redis (handle request env st).2).
Proof.
  intros [r Hr]. destruct st as [rd cs]; simpl in Hr; subst rd.
  apply (Rules.wp_elim (handle request) env _ (fun _ st' => is_Some (redis st'))).
  destruct request as [limit offset|payload|ids|id|id payload|id|id payload|payload];
    simpl.
  - unfold ConversationsRoute.GET. wp_run; try (by eauto).
    eapply Rules.wp_mono; [|by apply HandlerFacts.mapM_get_frame].
    intros [a|e|] st' Hst'; wp_run; cbn [redis]; eauto.
  - unfold ConversationsRoute.POST. wp_run;
      by eauto.
  - unfold ConversationsRoute.DELETE. wp_run; try (by eauto).
    eapply Rules.wp_mono; [|apply deleteEach_handle; by eauto].
    intros [a|e|] st' Hst'; wp_run; exact Hst'.
  - unfold ConversationRoute.GET, ConversationRoute.getConversation.
    wp_run; by eauto.
  - unfold ConversationRoute.PUT, ConversationRoute.getConversation,
      ConversationRoute.saveConversation.
    wp_run; by eauto.
  - unfold ConversationRoute.DELETE, ConversationRoute.getConversation.
    wp_run; by eauto.
  - unfold ConversationRoute.PATCH, ConversationRoute.getConversation,
      ConversationRoute.saveConversation.
    wp_run; by eauto.
  - unfold wp. rewrite (proj1 (ChatFacts.POST_frame payload env _)). by eauto.
Qed.

(** A deployment without Redis stays without. *)
Lemma handle_no_handle request env st :
  redis st = None -> redis (handle request env st).2 = None.
Proof.
  intros Hnone.
  pose proof (HandlerFacts.handle_keeps (fun _ => False) env) as Hk.
  specialize (Hk (fun _ _ _ _ H => H) (fun _ _ _ _ H => H) (fun _ _ _ _ H => H)
                 (fun _ _ _ _ H _ => H) (fun _ _ _ _ _ H => H)
                 (fun _ _ _ _ _ H => H) request st).
  unfold holds in Hk. rewrite Hnone in Hk. specialize (Hk Logic.I).
  by destruct (redis (handle request env st).2).
Qed.

Section OtherUser.
Variables (now : Z) (u other : string) (r0 : Redis.t).
Hypothesis Hu : no_colon u = true.
Hypothesis Hother : no_colon other = true.
Hypothesis Hne : u <> other.

Lemma record_keys_differ c c' : getConversationKey u c <> getConversationKey other c'.
Proof. intros Hk. apply conversation_key_inj in Hk as [? _]; done. Qed.

Lemma index_keys_differ : getUserConversationsKey u <> getUserConversationsKey other.
Proof. by intros ?%user_key_inj. Qed.

Lemma same_for_set c v ex r :
  same_for other r0 r -> same_for other r0 (Redis.set (getConversationKey u c) v ex now r).2.
Proof.
  intros [Hs Hz]. split; [|done]. intros c'. simpl.
  rewrite lookup_insert_ne by apply record_keys_differ. apply Hs.
Qed.

Lemma same_for_zadd score member r :
  same_for other r0 r ->
  same_for other r0 (Redis.zadd (getUserConversationsKey u) score member now r).2.
Proof.
  intros [Hs Hz]. split; [done|]. simpl.
  rewrite lookup_insert_ne by apply index_keys_differ. apply Hz.
Qed.

Lemma same_for_expire seconds r :
  same_for other r0 r ->
  same_for other r0 (Redis.expire (getUserConversationsKey u) seconds now r).2.
Proof.
  intros [Hs Hz]. unfold Redis.expire.
  destruct (Redis.strings r !! getUserConversationsKey u) as [[v e]|].
  - destruct (Redis.alive now e); [|done]. split; [|done]. intros c'. simpl.
    rewrite lookup_insert_ne; [apply Hs|]. intros Hk. symmetry in Hk.
    by apply keys_differ in Hk.
  - destruct (Redis.zsets r !! getUserConversationsKey u) as [[z e]|]; [|done].
    destruct (Redis.alive now e); [|done]. split; [done|]. simpl.
    rewrite lookup_insert_ne by apply index_keys_differ. apply Hz.
Qed.

Lemma same_for_del c r :
  same_for other r0 r -> same_for other r0 (Redis.del (getConversationKey u c) now r).2.
Proof.
  intros [Hs Hz]. split; simpl.
  - intros c'. rewrite lookup_delete_ne by apply record_keys_differ. apply Hs.
  - rewrite lookup_delete_ne by apply keys_differ. apply Hz.
Qed.

Lemma same_for_zrem member r :
  same_for other r0 r ->
  same_for other r0 (Redis.zrem (getUserConversationsKey u) member now r).2.
Proof.
  intros [Hs Hz]. unfold Redis.zrem.
  destruct (Redis.zsets r !! getUserConversationsKey u) as [[z e]|]; [|done].
  destruct (Redis.alive now e); [|done]. destruct (z !! member); [|done].
  split; [done|]. simpl. case_bool_decide.
  - rewrite lookup_delete_ne by apply index_keys_differ. apply Hz.
  - rewrite lookup_insert_ne by apply index_keys_differ. apply Hz.
Qed.

End OtherUser.

End FrameFacts.

(** X8. A request of one user leaves the records and the index of every other
    user as they were (for user ids without [":"]), whatever the request and
    whether it succeeds or fails. *)
Theorem other_users_untouched
    (env : Env) (request : Request) (st : State) (r : Redis.t) (other : string) :
  plain_user env ->
  no_colon other = true ->
  ~ acting env other ->
  redis st = Some r ->
  exists r', redis (handle request env st).2 = Some r' /\ same_for other r r'.
Proof.
  intros Hplain Hother Hne Hr.
  destruct (FrameFacts.handle_handle request env st) as [r' Hr']; [by eauto|].
  exists r'. split; [done|].
  assert (forall u, acting env u -> no_colon u = true /\ u <> other) as Hacting.
  { intros u Hu. split; [by eapply HandlerFacts.plain_authenticated|].
    by intros ->. }
  assert (holds (same_for other r) (handle request env st).2) as Hk;
    [|unfold holds in Hk; by rewrite Hr' in Hk].
  apply HandlerFacts.handle_keeps; [..|unfold holds; by rewrite Hr].
  - intros u conv r1 [Hu Hdiff]%Hacting H. unfold saved.
    by apply FrameFacts.same_for_zadd, FrameFacts.same_for_set.
  - intros u conv r1 [Hu Hdiff]%Hacting H. unfold created, saved.
    by apply FrameFacts.same_for_expire, FrameFacts.same_for_zadd,
      FrameFacts.same_for_set.
  - intros u c r1 [Hu Hdiff]%Hacting H. unfold removed.
    by apply FrameFacts.same_for_zrem, FrameFacts.same_for_del.
  - intros u c r1 [Hu Hdiff]%Hacting H _. by apply FrameFacts.same_for_del.
  - intros u conv r1 _ [Hu Hdiff]%Hacting H. unfold recorded_only.
    by apply FrameFacts.same_for_set.
  - intros u c r1 _ [Hu Hdiff]%Hacting H. by apply FrameFacts.same_for_del.
Qed.

Lemma other_users_untouched_witness :
  exists r',
    redis (handle (DeleteManyRequest (Some "A,C")) (at_ 3000 "t3" "")
             three_conversations).2 = Some r' /\
    same_for "u2" (default Redis.empty (redis three_conversations)) r'.
Proof.
  apply other_users_untouched.
  - intros userId [= <-]. reflexivity.
  - reflexivity.
  - intros Hacting. vm_compute in Hacting. discriminate.
  - by vm_compute.
Defined.

(** ** The effect of each request on Redis *)

Module EffectFacts.

(** [DEL] finds a record that [GET] has just found. *)
Lemma del_found key now r old :
  Redis.live now (Redis.strings r !! key) = Some old ->
  (Redis.del key now r).1 = 1.
Proof.
  intros Hlive. unfold Redis.del; cbn [fst]. rewrite Hlive.
  by rewrite bool_decide_eq_true_2 by eauto.
Qed.

(** The loop of the deletion with a store that may be lost: the ids are
    dealt with one after the other, up to the one at which the store is
    lost; of that one the record may be deleted and the index not. *)
Lemma deleteEach_effect u ids n env st r :
  redis st = Some r ->
  wp (ConversationsRoute.deleteEach u ids n) env st
     (fun _ st' =>
        exists dealt rest,
          ids = dealt ++ rest /\
          (redis st'
           = Some (foldl (fun r id => delete_one (nowMs env) u id r) r dealt) \/
           exists id rest',
             rest = id :: rest' /\
             redis st'
             = Some (Redis.del (getConversationKey u id) (nowMs env)
                       (foldl (fun r id => delete_one (nowMs env) u id r) r dealt)).2)).
Proof.
  revert n st r.
  induction ids as [|id ids IH]; intros n st r Hr; simpl.
  - wp_step. exists [], []. split; [done|]. by left.
  - assert (forall n' st1,
               redis st1 = Some (delete_one (nowMs env) u id r) ->
               wp (ConversationsRoute.deleteEach u ids n') env st1
                  (fun _ st' =>
                     exists dealt rest,
                       id :: ids = dealt ++ rest /\
                       (redis st'
                        = Some (foldl (fun r id => delete_one (nowMs env) u id r)
                                      r dealt) \/
                        exists id' rest',
                          rest = id' :: rest' /\
                          redis st'
                          = Some (Redis.del (getConversationKey u id') (nowMs env)
                                    (foldl (fun r id => delete_one (nowMs env) u id r)
                                           r dealt)).2))) as Hnext.
    { intros n' st1 Hst1. eapply Rules.wp_mono; [|by apply (IH n' st1 _ Hst1)].
      intros o st' (dealt & rest & -> & Hdone).
      exists (id :: dealt), rest. split; [done|]. exact Hdone. }
    wp_step. eapply Rules.wp_command_any; [exact Hr|intros _|intros _].
    + destruct ((Redis.del (getConversationKey u id) (nowMs env) r).1 =? 0) eqn:Hn;
        cbn [negb].
      * apply Hnext. unfold delete_one. by rewrite Hn.
      * wp_step. eapply Rules.wp_command_any; [reflexivity|intros _|intros _].
        -- apply Hnext. unfold delete_one, removed. by rewrite Hn.
        -- exists [], (id :: ids). split; [done|]. right. by exists id, ids.
    + exists [], (id :: ids). split; [done|]. by left.
Qed.

Lemma handle_changes env request st r u :
  acting env u -> redis st = Some r ->
  exists r', redis (handle request env st).2 = Some r' /\
             changes env u r request r'.
Proof.
  intros Hauth Hr. destruct st as [rd cs]; simpl in Hr; subst rd.
  unfold acting in Hauth.
  apply (Rules.wp_elim (handle request) env _
           (fun _ st' => exists r', redis st' = Some r' /\ changes env u r request r')).
  assert (forall cs', exists r', redis {| redis := Some r; calls := cs' |} = Some r' /\
                           changes env u r request r') as Hsame
    by (intros cs'; exists r; split; [done|constructor]).
  destruct request as [limit offset|payload|ids|id|id payload|id|id payload|payload];
    simpl.
  - unfold ConversationsRoute.GET. do 3 wp_step. rewrite Hauth.
    wp_run; try apply Hsame.
    eapply Rules.wp_mono; [|by apply HandlerFacts.mapM_get_frame].
    intros [a|e|] st' Hst'; wp_run; cbn [redis]; try apply Hsame.
    all: exists r; split; [done|constructor].
  - unfold ConversationsRoute.POST. do 3 wp_step. rewrite Hauth.
    wp_run; try apply Hsame; try discriminate.
    all: eexists; (split; [reflexivity|]);
      lazymatch goal with
      | Hdata : CreateConversationSchema _ = Ok ?data |- _ =>
          first [ exact (changes_create env u r _ data Hdata)
                | exact (changes_create_unexpiring env u r _ data Hdata)
                | exact (changes_create_cut env u r _ data Hdata) ]
      end.
  - unfold ConversationsRoute.DELETE. do 3 wp_step. rewrite Hauth.
    wp_run; try apply Hsame.
    eapply Rules.wp_mono; [|by apply (deleteEach_effect u)].
    destruct ids as [ids|]; [|done]. cbn beta iota in *.
    intros o st' (dealt & rest & Hids & [Hst'|(id & rest' & -> & Hst')]);
      destruct o as [a|e|]; wp_run; (eexists; split; [exact Hst'|]);
      first [ exact (changes_delete_some env u r ids dealt rest Hids)
            | exact (changes_delete_some_cut env u r ids dealt id rest' Hids) ].
  - unfold ConversationRoute.GET, ConversationRoute.getConversation.
    do 3 wp_step. rewrite Hauth.
    wp_run; apply Hsame.
  - unfold ConversationRoute.PUT, ConversationRoute.getConversation,
      ConversationRoute.saveConversation.
    do 3 wp_step. rewrite Hauth.
    wp_run; try apply Hsame; try discriminate.
    all: eexists; (split; [reflexivity|]);
      lazymatch goal with
      | Hdata : UpdateConversationSchema _ = Ok ?data,
        Hold : (Redis.get _ _ _).1 = Some ?old |- _ =>
          first [ exact (changes_replace env u r id _ data old Hdata Hold)
                | exact (changes_replace_cut env u r id _ data old Hdata Hold) ]
      end.
  - unfold ConversationRoute.DELETE, ConversationRoute.getConversation.
    do 3 wp_step. rewrite Hauth.
    wp_run; try apply Hsame; try discriminate.
    all: try (eexists; (split; [reflexivity|]);
      lazymatch goal with
      | Hold : (Redis.get _ _ _).1 = Some ?old |- _ =>
          first [ exact (changes_delete env u r id old Hold)
                | exact (changes_delete_cut env u r id old Hold) ]
      end).
    all: lazymatch goal with
         | Hzero : negb (_ =? 0) = false |- _ =>
             cbn [fst Redis.get] in *; apply negb_false_iff, Z.eqb_eq in Hzero;
             by erewrite del_found in Hzero
         end.
  - unfold ConversationRoute.PATCH, ConversationRoute.getConversation,
      ConversationRoute.saveConversation.
    do 3 wp_step. rewrite Hauth.
    wp_run; try apply Hsame; try discriminate.
    all: eexists; (split; [reflexivity|]);
      lazymatch goal with
      | Hdata : AddMessageSchema _ = Ok ?data,
        Hold : (Redis.get _ _ _).1 = Some ?old |- _ =>
          first [ exact (changes_append env u r id _ data old Hdata Hold)
                | exact (changes_append_cut env u r id _ data old Hdata Hold) ]
      end.
  - unfold wp. destruct (ChatFacts.POST_frame payload env {| redis := Some r; calls := cs |})
      as [-> _]. exists r. split; [done|constructor].
Qed.

End EffectFacts.
(** ** What passes the schemas *)

Module SchemaFacts.

Lemma ap_Ok {A B} (f : result (A -> B)) (x : result A) (b : B) :
  f <*> x = Ok b -> exists g a, f = Ok g /\ x = Ok a /\ b = g a.
Proof. destruct f as [g|], x as [a|]; simpl; intros [= <-]; eauto. Qed.

Lemma string_between_Ok lo hi path v s :
  string_between lo hi path v = Ok s ->
  v = Some (JStr s) /\ (lo <= Js.length s <= hi)%nat.
Proof.
  destruct v as [[| | |s'| |]|]; simpl; try done.
  destruct (_ && _) eqn:Hlen; intros [= <-].
  apply andb_prop in Hlen as [Hlo Hhi].
  apply Nat.leb_le in Hlo, Hhi. done.
Qed.

Lemma number_between_Ok lo hi path v q :
  number_between lo hi path v = Ok q ->
  v = Some (JNum q) /\ (lo <= q <= hi)%Q.
Proof.
  destruct v as [[| |q'| | |]|]; simpl; try done.
  destruct (_ && _) eqn:Hq; intros [= <-].
  apply andb_prop in Hq as [Hlo Hhi].
  apply Qle_bool_iff in Hlo, Hhi. done.
Qed.

Lemma optional_Ok {A} (schema : string -> option JSON -> result A) path v o :
  optional schema path v = Ok o ->
  match o with
  | Some a => schema path v = Ok a
  | None => v = None
  end.
Proof.
  destruct v as [j|]; simpl; [|by intros [= <-]].
  destruct (schema path (Some j)); simpl; by intros [= <-].
Qed.

Lemma enum_Ok {A} (table : list (string * A)) path v a :
  enum table path v = Ok a -> exists s, v = Some (JStr s) /\ (s, a) ∈ table.
Proof.
  destruct v as [[| | |s| |]|]; simpl; try done.
  destruct (List.find _ table) as [[s' a']|] eqn:Hfind; intros [= <-].
  apply find_some in Hfind as [Hin Heq]. simpl in Heq.
  apply String.eqb_eq in Heq as ->. exists s. split; [done|].
  by apply list_elem_of_In.
Qed.

(** Split a chain of [<*>] that succeeded into its fields. *)
Ltac fields H :=
  repeat lazymatch type of H with
         | _ <*> _ = Ok _ =>
             let g := fresh "g" in
             let Hx := fresh "Hfield" in
             apply ap_Ok in H as (g & ? & H & Hx & ->)
         | Ok _ = Ok _ => injection H as <-
         end.

Lemma create_title_valid payload data :
  CreateConversationSchema (Some payload) = Ok data ->
  valid_title (create_title data).
Proof.
  unfold CreateConversationSchema, object. destruct payload; try done.
  intros H. fields H. simpl.
  lazymatch goal with
  | Hf : string_between 1 100 _ _ = Ok _ |- _ =>
      by apply string_between_Ok in Hf as [_ ?]
  end.
Qed.

Lemma update_title_valid payload data title :
  UpdateConversationSchema (Some payload) = Ok data ->
  update_title data = Some title -> valid_title title.
Proof.
  unfold UpdateConversationSchema, object. destruct payload; try done.
  intros H. fields H. simpl. intros ->.
  lazymatch goal with
  | Hf : optional (string_between 1 100) _ _ = Ok _ |- _ =>
      apply optional_Ok in Hf; by apply string_between_Ok in Hf as [_ ?]
  end.
Qed.

(** An appended message is of the user or of the assistant. *)
Lemma added_role payload data :
  AddMessageSchema (Some payload) = Ok data ->
  role data = user \/ role data = assistant.
Proof.
  unfold AddMessageSchema, object. destruct payload; try done.
  intros H. fields H. simpl.
  lazymatch goal with
  | Hf : enum roles2 _ _ = Ok _ |- _ => apply enum_Ok in Hf as (s & _ & Hin)
  end.
  apply elem_of_cons in Hin as [[= _ ->]|Hin]; [by left|].
  apply list_elem_of_singleton in Hin as [= _ ->]. by right.
Qed.

Lemma chat_bounds payload data :
  ChatbotRequestSchema (Some payload) = Ok data ->
  (forall t, req_temperature data = Some t -> (0 <= t <= 2)%Q) /\
  (forall n, req_maxTokens data = Some n -> (1 <= n <= 4000)%Q).
Proof.
  unfold ChatbotRequestSchema, object. destruct payload; try done.
  intros H. fields H. simpl. split.
  - intros t ->.
    lazymatch goal with
    | Hf : optional (number_between 0 2) _ _ = Ok _ |- _ =>
        apply optional_Ok in Hf; by apply number_between_Ok in Hf as [_ ?]
    end.
  - intros n ->.
    lazymatch goal with
    | Hf : optional (number_between 1 4000) _ _ = Ok _ |- _ =>
        apply optional_Ok in Hf; by apply number_between_Ok in Hf as [_ ?]
    end.
Qed.

End SchemaFacts.
(** ** What the requests keep of the records *)

Module InvariantFacts.
Import KeyFacts EffectFacts SchemaFacts.

(** Without a signed-in user no request changes Redis. *)
Lemma handle_unsigned env request st :
  authenticated (currentUserId env) = None ->
  redis (handle request env st).2 = redis st.
Proof.
  intros Hauth.
  pose proof (StoreFacts.conversation_handlers_require_user env st request Hauth)
    as Hreq.
  destruct request; try (by rewrite Hreq).
  apply ChatFacts.POST_frame.
Qed.

(** The effect of a request on a deployment with Redis. *)
Lemma handle_effect env request st r :
  redis st = Some r ->
  exists r', redis (handle request env st).2 = Some r' /\
             match authenticated (currentUserId env) with
             | Some u => changes env u r request r'
             | None => r' = r
             end.
Proof.
  intros Hr. destruct (authenticated (currentUserId env)) as [u|] eqn:Hauth.
  - by apply handle_changes.
  - exists r. by rewrite handle_unsigned.
Qed.

Lemma record_key_inj u c c' :
  getConversationKey u c = getConversationKey u c' -> c = c'.
Proof.
  unfold getConversationKey. intros Hk. by do 3 apply String.app_inj in Hk.
Qed.

(** *** The string values after each write *)

Lemma live_Some {A} now (entry : option (A * option Z)) a :
  Redis.live now entry = Some a -> exists expiry, entry = Some (a, expiry).
Proof.
  destruct entry as [[a' e]|]; simpl; [|done].
  destruct (Redis.alive now e); intros [= <-]. eauto.
Qed.

Lemma strings_saved now u conv r :
  Redis.strings (saved now u conv r)
  = <[getConversationKey u (conv_id conv) := (conv, Some (now + TTL * 1000))]>
      (Redis.strings r).
Proof. reflexivity. Qed.

Lemma strings_recorded now u conv r :
  Redis.strings (recorded_only now u conv r)
  = <[getConversationKey u (conv_id conv) := (conv, Some (now + TTL * 1000))]>
      (Redis.strings r).
Proof. reflexivity. Qed.

(** [EXPIRE] changes no value, and only the expiry of its own key. *)
Lemma strings_expire_ne key seconds now r k :
  key <> k ->
  Redis.strings (Redis.expire key seconds now r).2 !! k = Redis.strings r !! k.
Proof.
  intros Hne. unfold Redis.expire.
  destruct (Redis.strings r !! key) as [[v e]|].
  - destruct (Redis.alive now e); [|done]. simpl. by rewrite lookup_insert_ne.
  - destruct (Redis.zsets r !! key) as [[z e]|]; [|done].
    by destruct (Redis.alive now e).
Qed.

Lemma strings_zrem key member now r :
  Redis.strings (Redis.zrem key member now r).2 = Redis.strings r.
Proof.
  unfold Redis.zrem. destruct (Redis.zsets r !! key) as [[z e]|]; [|done].
  destruct (Redis.alive now e); [|done]. by destruct (z !! member).
Qed.

Lemma strings_created now u conv r k :
  Redis.strings (created now u conv r) !! getConversationKey k.1 k.2
  = <[getConversationKey u (conv_id conv) := (conv, Some (now + TTL * 1000))]>
      (Redis.strings r) !! getConversationKey k.1 k.2.
Proof.
  unfold created. rewrite strings_expire_ne; [done|].
  intros Hk. symmetry in Hk. by apply keys_differ in Hk.
Qed.

Lemma strings_removed now u c r :
  Redis.strings (removed now u c r) = delete (getConversationKey u c) (Redis.strings r).
Proof. unfold removed. by rewrite strings_zrem. Qed.

Lemma strings_delete_one now u c r :
  Redis.strings (delete_one now u c r)
  = delete (getConversationKey u c) (Redis.strings r).
Proof.
  unfold delete_one. destruct (_ =? 0); [done|apply strings_removed].
Qed.

Lemma strings_delete_all now u ids r k :
  Redis.strings (foldl (fun r id => delete_one now u id r) r ids) !! k
  = if bool_decide (k ∈ getConversationKey u <$> ids) then None
    else Redis.strings r !! k.
Proof.
  revert r. induction ids as [|id ids IH]; intros r; simpl; [done|].
  rewrite IH, strings_delete_one, lookup_delete. cbn [fmap list_fmap].
  destruct (decide (getConversationKey u id = k)) as [<-|Hk].
  - rewrite (bool_decide_eq_true_2 (_ ∈ _ :: _)) by left.
    by destruct (bool_decide _).
  - rewrite (bool_decide_ext (k ∈ getConversationKey u id :: _)
                             (k ∈ getConversationKey u <$> ids)); [done|].
    rewrite elem_of_cons. split; [|by right]. intros [Heq|?]; [by subst|done].
Qed.

(** *** Every record under its own id and user, with a valid title *)

Lemma well_kept_insert u conv expiry r :
  no_colon u = true -> conv_userId conv = u -> valid_title (conv_title conv) ->
  well_kept r ->
  forall u' c' conv' e',
    no_colon u' = true ->
    <[getConversationKey u (conv_id conv) := (conv, expiry)]> (Redis.strings r)
      !! getConversationKey u' c' = Some (conv', e') ->
    conv_id conv' = c' /\ conv_userId conv' = u' /\ valid_title (conv_title conv').
Proof.
  intros Hu Howner Htitle Hk u' c' conv' e' Hu'.
  rewrite lookup_insert. case_decide as Hkey; [|by apply Hk].
  intros [= <- _]. by apply conversation_key_inj in Hkey as [<- <-].
Qed.

Lemma changes_well_kept env u r request r' :
  no_colon u = true -> well_kept r -> changes env u r request r' -> well_kept r'.
Proof.
  intros Hu Hk Hchanges.
  destruct Hchanges as [request|payload data Hdata|id payload data old Hdata Hold
                        |id payload data old Hdata Hold|id old Hold|ids
                        |payload data Hdata|payload data Hdata
                        |id payload data old Hdata Hold
                        |id payload data old Hdata Hold|id old Hold
                        |ids dealt rest Hids|ids dealt id rest Hids];
    [done|..]; intros u' c' conv' e' Hu'.
  - rewrite (strings_created _ _ _ _ (u', c')).
    apply well_kept_insert; try done. by eapply create_title_valid.
  - apply live_Some in Hold as [e Hold].
    destruct (Hk u id old e Hu Hold) as (Hid & Howner & Htitle).
    rewrite strings_saved. apply well_kept_insert; try done. simpl.
    destruct (update_title data) as [title|] eqn:Ht; simpl; [|done].
    by eapply update_title_valid.
  - apply live_Some in Hold as [e Hold].
    destruct (Hk u id old e Hu Hold) as (Hid & Howner & Htitle).
    rewrite strings_saved. by apply well_kept_insert.
  - rewrite strings_removed. intros [_ H]%lookup_delete_Some. by eapply Hk.
  - rewrite strings_delete_all. case_bool_decide; [done|]. by apply Hk.
  - rewrite strings_recorded.
    apply well_kept_insert; try done. by eapply create_title_valid.
  - rewrite strings_saved.
    apply well_kept_insert; try done. by eapply create_title_valid.
  - apply live_Some in Hold as [e Hold].
    destruct (Hk u id old e Hu Hold) as (Hid & Howner & Htitle).
    rewrite strings_recorded. apply well_kept_insert; try done. simpl.
    destruct (update_title data) as [title|] eqn:Ht; simpl; [|done].
    by eapply update_title_valid.
  - apply live_Some in Hold as [e Hold].
    destruct (Hk u id old e Hu Hold) as (Hid & Howner & Htitle).
    rewrite strings_recorded. by apply well_kept_insert.
  - simpl. intros [_ H]%lookup_delete_Some. by eapply Hk.
  - rewrite strings_delete_all. case_bool_decide; [done|]. by apply Hk.
  - simpl. intros [_ H]%lookup_delete_Some. revert H.
    rewrite strings_delete_all. case_bool_decide; [done|]. by apply Hk.
Qed.

Lemma handle_keeps_well_kept env request st :
  plain_user env -> holds well_kept st ->
  holds well_kept (handle request env st).2.
Proof.
  intros Hplain Hk. unfold holds in *.
  destruct (redis st) as [r|] eqn:Hr.
  - destruct (handle_effect env request st r Hr) as (r' & -> & Heffect).
    destruct (authenticated (currentUserId env)) as [u|] eqn:Hauth; [|by subst].
    eapply changes_well_kept; [|done..]. by eapply HandlerFacts.plain_authenticated.
  - by rewrite FrameFacts.handle_no_handle.
Qed.

Lemma serve_keeps_well_kept requests st :
  Forall (fun er => plain_user er.1) requests ->
  holds well_kept st -> holds well_kept (serve requests st).
Proof.
  intros Hall. revert st.
  induction Hall as [|[env request] requests Hp _ IH]; intros st Hk; [done|].
  simpl. apply IH. by apply handle_keeps_well_kept.
Qed.

(** *** The records that a request touches *)

Lemma changes_footprint env u r request r' u' c' :
  no_colon u = true -> no_colon u' = true -> filed r ->
  changes env u r request r' ->
  ~ (u' = u /\ c' ∈ targets env request) ->
  Redis.strings r' !! getConversationKey u' c'
  = Redis.strings r !! getConversationKey u' c'.
Proof.
  intros Hu Hu' Hf Hchanges Hout.
  assert (forall id, id ∈ targets env request ->
                     getConversationKey u id <> getConversationKey u' c') as Hne.
  { intros id Hid Hk. apply conversation_key_inj in Hk as [<- <-]; [|done..].
    by apply Hout. }
  destruct Hchanges as [request|payload data Hdata|id payload data old Hdata Hold
                        |id payload data old Hdata Hold|id old Hold|ids
                        |payload data Hdata|payload data Hdata
                        |id payload data old Hdata Hold
                        |id payload data old Hdata Hold|id old Hold
                        |ids dealt rest Hids|ids dealt id rest Hids];
    [done|..]; simpl in Hne.
  - rewrite (strings_created _ _ _ _ (u', c')). apply lookup_insert_ne.
    apply Hne. by left.
  - apply live_Some in Hold as [e Hold]. rewrite strings_saved. simpl.
    rewrite (Hf u id old e Hu Hold). apply lookup_insert_ne, Hne. by left.
  - apply live_Some in Hold as [e Hold]. rewrite strings_saved. simpl.
    rewrite (Hf u id old e Hu Hold). apply lookup_insert_ne, Hne. by left.
  - rewrite strings_removed. apply lookup_delete_ne, Hne. by left.
  - rewrite strings_delete_all. rewrite bool_decide_eq_false_2; [done|].
    intros (id & Hk & Hid)%list_elem_of_fmap. by eapply Hne.
  - rewrite strings_recorded. apply lookup_insert_ne. apply Hne. by left.
  - rewrite strings_saved. apply lookup_insert_ne. apply Hne. by left.
  - apply live_Some in Hold as [e Hold]. rewrite strings_recorded. simpl.
    rewrite (Hf u id old e Hu Hold). apply lookup_insert_ne, Hne. by left.
  - apply live_Some in Hold as [e Hold]. rewrite strings_recorded. simpl.
    rewrite (Hf u id old e Hu Hold). apply lookup_insert_ne, Hne. by left.
  - simpl. apply lookup_delete_ne, Hne. by left.
  - rewrite strings_delete_all. rewrite bool_decide_eq_false_2; [done|].
    intros (id & Hk & Hid)%list_elem_of_fmap. eapply Hne; [|done].
    rewrite Hids. apply elem_of_app. by left.
  - simpl. rewrite lookup_delete_ne.
    + rewrite strings_delete_all. rewrite bool_decide_eq_false_2; [done|].
      intros (id' & Hk & Hid)%list_elem_of_fmap. eapply Hne; [|done].
      rewrite Hids. apply elem_of_app. by left.
    + apply Hne. rewrite Hids. apply elem_of_app. right. by left.
Qed.

End InvariantFacts.
(** X9. Listing the conversations and fetching one never change Redis,
    whatever the request and whether it succeeds or fails. *)
Theorem reads_change_nothing
    (env : Env) (st : State) (limit offset : option Z) (id : string) :
  redis (ConversationsRoute.GET limit offset env st).2 = redis st /\
  redis (ConversationRoute.GET id env st).2 = redis st.
Proof.
  assert (forall request,
             targets env request = [] \/ (exists id, request = GetRequest id) ->
             redis (handle request env st).2 = redis st) as Hread.
  { intros request Hkind. destruct (redis st) as [r|] eqn:Hr.
    - destruct (InvariantFacts.handle_effect env request st r Hr)
        as (r' & -> & Heffect).
      destruct (authenticated (currentUserId env)); [|by subst].
      destruct Heffect; try done; destruct Hkind as [?|[? ?]]; try done.
      all: exfalso; by eapply StoreFacts.split_comma_nonempty.
    - by apply FrameFacts.handle_no_handle. }
  split.
  - apply (Hread (ListRequest limit offset)). by left.
  - apply (Hread (GetRequest id)). right. by eexists.
Qed.

(** X14. In a store that the handlers have filled, for users whose id has no
    [":"]: a conversation found under the key of a user and an id carries
    that id and that user, and the JavaScript length of its title is between
    1 and 100. *)
Theorem stored_conversations_are_well_formed
    (requests : list (Env * Request)) (now : Z) (userId id : string)
    (conversation : Conversation) :
  Forall (fun er => plain_user er.1) requests ->
  no_colon userId = true ->
  stored (serve requests initial) now userId id = Some conversation ->
  conv_id conversation = id /\
  conv_userId conversation = userId /\
  valid_title (conv_title conversation).
Proof.
  intros Hall Hu.
  assert (holds well_kept (serve requests initial)) as Hk.
  { apply InvariantFacts.serve_keeps_well_kept; [done|].
    intros u' c' conv e _. simpl. by rewrite lookup_empty. }
  unfold stored, holds in *.
  destruct (redis (serve requests initial)) as [r|]; [|done].
  intros [e Hrecord]%InvariantFacts.live_Some. by eapply Hk.
Qed.

Lemma stored_conversations_are_well_formed_witness :
  conv_userId
    {| conv_id := "A"; conv_title := "first"; conv_messages := [];
       conv_model := "gpt-4o-mini"; conv_createdAt := "t1";
       conv_updatedAt := "t1"; conv_userId := "u1" |} = "u1" /\
  valid_title "first".
Proof.
  apply (stored_conversations_are_well_formed
           [ (at_ 1000 "t1" "A", CreateRequest (titled "first"));
             (at_ 2000 "t2" "B", CreateRequest (titled "second")) ]
           3000 "u1" "A"
           {| conv_id := "A"; conv_title := "first"; conv_messages := [];
              conv_model := "gpt-4o-mini"; conv_createdAt := "t1";
              conv_updatedAt := "t1"; conv_userId := "u1" |}).
  - repeat constructor; intros userId [= <-]; reflexivity.
  - reflexivity.
  - by vm_compute.
Defined.


(** X13. In a store that the handlers have filled, a request of a user leaves
    every record of that user as it was, except those of the conversations
    that the request names: the one of the path, the one being created, or
    those of the [ids] parameter. *)
Theorem request_touches_only_its_conversations
    (requests : list (Env * Request)) (env : Env) (request : Request)
    (userId : string) (r : Redis.t) :
  Forall (fun er => plain_user er.1) requests ->
  plain_user env ->
  acting env userId ->
  redis (serve requests initial) = Some r ->
  exists r',
    redis (handle request env (serve requests initial)).2 = Some r' /\
    forall conversationId,
      conversationId ∉ targets env request ->
      Redis.strings r' !! getConversationKey userId conversationId
      = Redis.strings r !! getConversationKey userId conversationId.
Proof.
  intros Hall Hplain Hauth Hr.
  assert (holds filed (serve requests initial)) as Hf.
  { apply HandlerFacts.serve_keeps_filed; [done|].
    intros u' c' conv e _. simpl. by rewrite lookup_empty. }
  unfold holds in Hf. rewrite Hr in Hf.
  destruct (EffectFacts.handle_changes env request _ r userId Hauth Hr)
    as (r' & Hr' & Hchanges).
  exists r'. split; [done|]. intros c Hc.
  pose proof (HandlerFacts.plain_authenticated _ _ Hplain Hauth) as Hu.
  eapply InvariantFacts.changes_footprint; try done. by intros [_ ?].
Qed.

Lemma request_touches_only_its_conversations_witness :
  exists r',
    redis (handle (DeleteRequest "A") (at_ 3000 "t3" "") two_conversations).2
    = Some r' /\
    forall conversationId,
      conversationId ∉ ["A"] ->
      Redis.strings r' !! getConversationKey "u1" conversationId
      = Redis.strings (default Redis.empty (redis two_conversations))
          !! getConversationKey "u1" conversationId.
Proof.
  apply (request_touches_only_its_conversations
           [ (at_ 1000 "t1" "A", CreateRequest (titled "first"));
             (at_ 2000 "t2" "B", CreateRequest (titled "second")) ]
           (at_ 3000 "t3" "") (DeleteRequest "A") "u1").
  - repeat constructor; intros userId [= <-]; reflexivity.
  - intros userId [= <-]. reflexivity.
  - reflexivity.
  - by vm_compute.
Defined.

(** ** The answers of the handlers on a store that answers *)

Module AnswerFacts.
Import KeyFacts InvariantFacts.

Lemma GET_answer env st r u id :
  acting env u -> redis st = Some r -> redisUp env = true ->
  ConversationRoute.GET id env st
  = (Return match stored st (nowMs env) u id with
            | Some conversation => success (OneConversation conversation)
            | None => failure 404 "Conversation not found"
            end,
     {| redis := Some r;
        calls := calls st ++ [CallRedis "GET" (getConversationKey u id)] |}).
Proof.
  intros Hauth Hr Hup. destruct st as [rd cs]; simpl in Hr; subst rd.
  unfold acting in Hauth. apply StoreFacts.wp_equal.
  unfold ConversationRoute.GET. do 3 wp_step. rewrite Hauth. wp_step.
  eapply StoreFacts.wp_getConversation; [reflexivity|exact Hup|].
  unfold stored; cbn [redis].
  destruct (Redis.live _ _); by wp_run.
Qed.

Lemma POST_answer env st r u payload data :
  acting env u -> CreateConversationSchema (Some payload) = Ok data ->
  redis st = Some r -> redisUp env = true ->
  ConversationsRoute.POST (Some payload) env st
  = (Return (success (OneConversation (new_conversation env u data))),
     {| redis := Some (created (nowMs env) u (new_conversation env u data) r);
        calls := calls st ++
          [ CallRedis "SET" (getConversationKey u (nanoid env));
            CallRedis "ZADD" (getUserConversationsKey u);
            CallRedis "EXPIRE" (getUserConversationsKey u) ] |}).
Proof.
  intros Hauth Hdata Hr Hup. destruct st as [rd cs]; simpl in Hr; subst rd.
  unfold acting in Hauth. apply StoreFacts.wp_equal.
  unfold ConversationsRoute.POST. do 3 wp_step. rewrite Hauth. do 3 wp_step.
  eapply Rules.wp_parse_ok; [exact Hdata|]. wp_run; try discriminate.
  cbn [calls]. by rewrite <- !app_assoc.
Qed.

Lemma PUT_answer env st r u id payload data old :
  acting env u -> UpdateConversationSchema (Some payload) = Ok data ->
  redis st = Some r -> redisUp env = true ->
  stored st (nowMs env) u id = Some old ->
  ConversationRoute.PUT id (Some payload) env st
  = (Return (success (OneConversation (replaced env data old))),
     {| redis := Some (saved (nowMs env) u (replaced env data old) r);
        calls := calls st ++
          [ CallRedis "GET" (getConversationKey u id);
            CallRedis "SET" (getConversationKey u (conv_id old));
            CallRedis "ZADD" (getUserConversationsKey u) ] |}).
Proof.
  intros Hauth Hdata Hr Hup Hold. destruct st as [rd cs]; simpl in Hr; subst rd.
  unfold acting in Hauth. unfold stored in Hold; cbn [redis] in Hold.
  apply StoreFacts.wp_equal.
  unfold ConversationRoute.PUT, ConversationRoute.saveConversation.
  do 3 wp_step. rewrite Hauth. do 3 wp_step.
  eapply Rules.wp_parse_ok; [exact Hdata|]. wp_step.
  eapply StoreFacts.wp_getConversation; [reflexivity|exact Hup|].
  rewrite Hold. wp_run; try discriminate.
  cbn [calls]. by rewrite <- !app_assoc.
Qed.

Lemma PUT_not_found env st r u id payload data :
  acting env u -> UpdateConversationSchema (Some payload) = Ok data ->
  redis st = Some r -> redisUp env = true ->
  stored st (nowMs env) u id = None ->
  ConversationRoute.PUT id (Some payload) env st
  = (Return (failure 404 "Conversation not found"),
     {| redis := Some r;
        calls := calls st ++ [CallRedis "GET" (getConversationKey u id)] |}).
Proof.
  intros Hauth Hdata Hr Hup Hold. destruct st as [rd cs]; simpl in Hr; subst rd.
  unfold acting in Hauth. unfold stored in Hold; cbn [redis] in Hold.
  apply StoreFacts.wp_equal. unfold ConversationRoute.PUT.
  do 3 wp_step. rewrite Hauth. do 3 wp_step.
  eapply Rules.wp_parse_ok; [exact Hdata|]. wp_step.
  eapply StoreFacts.wp_getConversation; [reflexivity|exact Hup|].
  rewrite Hold. wp_auto.
Qed.

(** The record and the index entry that a save leaves. *)
Lemma saved_record now u conv r :
  Redis.strings (saved now u conv r) !! getConversationKey u (conv_id conv)
  = Some (conv, Some (now + ms TTL)).
Proof. rewrite strings_saved. by rewrite lookup_insert_eq. Qed.

Lemma saved_score now u conv r :
  Redis.members (getUserConversationsKey u) now (saved now u conv r) !! conv_id conv
  = Some now.
Proof.
  unfold Redis.members, saved; simpl. rewrite lookup_insert_eq.
  destruct (Redis.zsets r !! getUserConversationsKey u) as [[z e]|];
    [destruct (Redis.alive now e) eqn:Halive|]; simpl;
    rewrite ?Halive; simpl;
    by rewrite ?lookup_insert_eq, ?lookup_singleton_eq.
Qed.

Lemma created_record now u conv r :
  Redis.strings (created now u conv r) !! getConversationKey u (conv_id conv)
  = Some (conv, Some (now + ms TTL)).
Proof.
  rewrite (strings_created _ _ _ _ (u, conv_id conv)). by rewrite lookup_insert_eq.
Qed.

End AnswerFacts.

(** X5. A conversation that has just been created can be fetched by its user,
    under the id it was given, for thirty days: until then the fetch answers
    with the conversation as the creation answered it, from then on with
    404. *)
Theorem created_conversation_is_kept_thirty_days
    (env later : Env) (st : State) (userId : string)
    (payload : JSON) (data : CreateConversation) :
  acting env userId ->
  acting later userId ->
  CreateConversationSchema (Some payload) = Ok data ->
  is_Some (redis st) ->
  redisUp env = true ->
  redisUp later = true ->
  let answer := ConversationsRoute.POST (Some payload) env st in
  let conversation := new_conversation env userId data in
  answer.1 = Return (success (OneConversation conversation)) /\
  conv_id conversation = nanoid env /\
  conv_userId conversation = userId /\
  conv_title conversation = create_title data /\
  (ConversationRoute.GET (nanoid env) later answer.2).1
  = Return (if nowMs later <? nowMs env + ms TTL
            then success (OneConversation conversation)
            else failure 404 "Conversation not found").
Proof.
  intros Hauth Hlater Hdata [r Hr] Hup Hup' answer conversation.
  subst answer. rewrite (AnswerFacts.POST_answer env st r userId payload data) by done.
  cbn [fst snd]. repeat split.
  erewrite AnswerFacts.GET_answer; [|done..]. cbn [fst].
  unfold stored; cbn [redis].
  change (nanoid env) with (conv_id conversation) at 1.
  rewrite AnswerFacts.created_record. simpl.
  by destruct (nowMs later <? nowMs env + ms TTL).
Qed.

Lemma created_conversation_is_kept_thirty_days_witness :
  (ConversationRoute.GET "A" (at_ (29 * day) "day 29" "")
     (ConversationsRoute.POST (titled "first") (at_ 0 "day 0" "A") initial).2).1
  = Return (success (OneConversation
              {| conv_id := "A"; conv_title := "first"; conv_messages := [];
                 conv_model := "gpt-4o-mini"; conv_createdAt := "day 0";
                 conv_updatedAt := "day 0"; conv_userId := "u1" |})) /\
  (ConversationRoute.GET "A" (at_ (30 * day) "day 30" "")
     (ConversationsRoute.POST (titled "first") (at_ 0 "day 0" "A") initial).2).1
  = Return (failure 404 "Conversation not found").
Proof.
  split.
  - exact (proj2 (proj2 (proj2 (proj2
             (created_conversation_is_kept_thirty_days
                (at_ 0 "day 0" "A") (at_ (29 * day) "day 29" "") initial "u1"
                (JObj [("title", JStr "first")])
                {| create_title := "first"; create_model := None;
                   create_systemPrompt := None |}
                eq_refl eq_refl eq_refl (ex_intro _ Redis.empty eq_refl)
                eq_refl eq_refl))))).
  - exact (proj2 (proj2 (proj2 (proj2
             (created_conversation_is_kept_thirty_days
                (at_ 0 "day 0" "A") (at_ (30 * day) "day 30" "") initial "u1"
                (JObj [("title", JStr "first")])
                {| create_title := "first"; create_model := None;
                   create_systemPrompt := None |}
                eq_refl eq_refl eq_refl (ex_intro _ Redis.empty eq_refl)
                eq_refl eq_refl))))).
Defined.


(** X11. Replacing on a conversation that exists answers 200 with the
    conversation where the title is the one of the request, if it gives
    one, and the messages are those of the request, if it gives any, in
    their order and each with its own timestamp or else the instant of the
    request; the id, the model, the creation instant and the user stay, and
    [updatedAt] is the instant of the request. The record is written again
    with thirty days to live and the index holds the conversation at the
    score of the instant of the request. Replacing on a conversation that is
    absent for this user answers 404 and writes nothing. *)
Theorem replace_conversation
    (env : Env) (st : State) (r : Redis.t) (userId id : string)
    (payload : JSON) (data : UpdateConversation) :
  acting env userId ->
  UpdateConversationSchema (Some payload) = Ok data ->
  redis st = Some r ->
  redisUp env = true ->
  match stored st (nowMs env) userId id with
  | Some old =>
      exists updated r' log,
        ConversationRoute.PUT id (Some payload) env st
        = (Return (success (OneConversation updated)),
           {| redis := Some r'; calls := calls st ++ log |}) /\
        conv_title updated = default (conv_title old) (update_title data) /\
        match update_messages data with
        | Some messages =>
            length (conv_messages updated) = length messages /\
            msg_role <$> conv_messages updated = upd_role <$> messages /\
            msg_content <$> conv_messages updated = upd_content <$> messages /\
            msg_timestamp <$> conv_messages updated
            = (fun m => Js.or_else (upd_timestamp m) (nowISO env)) <$> messages
        | None => conv_messages updated = conv_messages old
        end /\
        (conv_id updated, conv_model updated, conv_createdAt updated,
         conv_userId updated)
        = (conv_id old, conv_model old, conv_createdAt old, conv_userId old) /\
        conv_updatedAt updated = nowISO env /\
        Redis.strings r' !! getConversationKey userId (conv_id old)
        = Some (updated, Some (nowMs env + ms TTL)) /\
        Redis.members (getUserConversationsKey userId) (nowMs env) r'
          !! conv_id old = Some (nowMs env)
  | None =>
      ConversationRoute.PUT id (Some payload) env st
      = (Return (failure 404 "Conversation not found"),
         {| redis := Some r;
            calls := calls st ++
              [CallRedis "GET" (getConversationKey userId id)] |})
  end.
Proof.
  intros Hauth Hdata Hr Hup.
  destruct (stored st (nowMs env) userId id) as [old|] eqn:Hold.
  - eexists _, _, _. split; [by eapply AnswerFacts.PUT_answer|].
    split; [done|]. split.
    { simpl. destruct (update_messages data) as [messages|]; [|done].
      rewrite length_fmap, <- !list_fmap_compose. done. }
    split; [done|]. split; [done|]. split.
    + apply (AnswerFacts.saved_record _ _ (replaced env data old)).
    + apply (AnswerFacts.saved_score _ _ (replaced env data old)).
  - by eapply AnswerFacts.PUT_not_found.
Qed.

Lemma replace_conversation_witness :
  exists updated st',
    ConversationRoute.PUT "A" (Some (JObj [("title", JStr "renamed")]))
                          (at_ 3000 "t3" "") two_conversations
    = (Return (success (OneConversation updated)), st') /\
    conv_title updated = "renamed" /\
    conv_messages updated = [] /\
    conv_updatedAt updated = "t3".
Proof.
  pose proof (replace_conversation (at_ 3000 "t3" "") two_conversations
                (default Redis.empty (redis two_conversations)) "u1" "A"
                (JObj [("title", JStr "renamed")])
                {| update_title := Some "renamed"; update_messages := None |}
                eq_refl eq_refl eq_refl eq_refl) as H.
  assert (stored two_conversations (nowMs (at_ 3000 "t3" "")) "u1" "A"
          = Some {| conv_id := "A"; conv_title := "first"; conv_messages := [];
                    conv_model := "gpt-4o-mini"; conv_createdAt := "t1";
                    conv_updatedAt := "t1"; conv_userId := "u1" |}) as Hstored
    by (vm_compute; reflexivity).
  rewrite Hstored in H.
  destruct H as (updated & r' & log & Hput & Htitle & Hmessages & _ & Hat & _).
  eexists _, _. split; [exact Hput|]. split; [exact Htitle|].
  split; [exact Hmessages|exact Hat].
Defined.

(** ** The latest conversation comes first *)

Module RecencyFacts.
Import InvariantFacts.




End RecencyFacts.


(** ** The deletion of several conversations *)

Module DeleteFacts.
Import KeyFacts InvariantFacts.

(** The handlers keep the sorted sets under the index keys only. *)
Lemma handle_keeps_apart env request st :
  holds apart st -> holds apart (handle request env st).2.
Proof.
  assert (forall key score member now r,
             apart r -> apart (Redis.zadd (getUserConversationsKey key) score
                                 member now r).2) as Hzadd.
  { intros key score member now r Ha u c. simpl.
    rewrite lookup_insert_ne; [apply Ha|]. intros Hk. symmetry in Hk.
    by apply keys_differ in Hk. }
  assert (forall key seconds now r,
             apart r -> apart (Redis.expire (getUserConversationsKey key) seconds
                                 now r).2) as Hexpire.
  { intros key seconds now r Ha u c. unfold Redis.expire.
    destruct (Redis.strings r !! _) as [[v e]|].
    - destruct (Redis.alive now e); apply Ha.
    - destruct (Redis.zsets r !! _) as [[z e]|]; [|apply Ha].
      destruct (Redis.alive now e); [|apply Ha]. simpl.
      rewrite lookup_insert_ne; [apply Ha|]. intros Hk. symmetry in Hk.
      by apply keys_differ in Hk. }
  assert (forall key now r, apart r -> apart (Redis.del key now r).2) as Hdel.
  { intros key now r Ha u c. simpl. rewrite lookup_delete.
    case_decide; [done|apply Ha]. }
  assert (forall key member now r,
             apart r -> apart (Redis.zrem (getUserConversationsKey key) member
                                 now r).2) as Hzrem.
  { intros key member now r Ha u c. unfold Redis.zrem.
    destruct (Redis.zsets r !! _) as [[z e]|]; [|apply Ha].
    destruct (Redis.alive now e); [|apply Ha].
    destruct (z !! member); [|apply Ha]. simpl.
    assert (getUserConversationsKey key <> getConversationKey u c) as Hne.
    { intros Hk. symmetry in Hk. by apply keys_differ in Hk. }
    case_bool_decide.
    - rewrite lookup_delete_ne by done. apply Ha.
    - rewrite lookup_insert_ne by done. apply Ha. }
  apply HandlerFacts.handle_keeps.
  - intros u conv r _ Ha. unfold saved. apply Hzadd. intros u' c'. apply Ha.
  - intros u conv r _ Ha. unfold created, saved. apply Hexpire, Hzadd.
    intros u' c'. apply Ha.
  - intros u c r _ Ha. unfold removed. by apply Hzrem, Hdel.
  - intros u c r _ Ha _. by apply Hdel.
  - intros u conv r _ _ Ha u' c'. apply Ha.
  - intros u c r _ _ Ha. by apply Hdel.
Qed.

Lemma serve_keeps_apart requests st :
  holds apart st -> holds apart (serve requests st).
Proof.
  revert st. induction requests as [|[env request] requests IH]; intros st Hk;
    [done|].
  simpl. apply IH. by apply handle_keeps_apart.
Qed.

Lemma serve_keeps_handle requests st :
  is_Some (redis st) -> is_Some (redis (serve requests st)).
Proof.
  revert st. induction requests as [|[env request] requests IH]; intros st Hk;
    [done|].
  simpl. apply IH. by apply FrameFacts.handle_handle.
Qed.

Lemma apart_delete_one now u id r : apart r -> apart (delete_one now u id r).
Proof.
  intros Ha u' c'. unfold delete_one, removed.
  assert (Redis.zsets (Redis.del (getConversationKey u id) now r).2
            !! getConversationKey u' c' = None) as Hdel.
  { simpl. rewrite lookup_delete. case_decide; [done|apply Ha]. }
  destruct (_ =? 0); [done|]. unfold Redis.zrem.
  destruct (Redis.zsets _ !! getUserConversationsKey u) as [[z e]|]; [|done].
  destruct (Redis.alive now e); [|done]. destruct (z !! id); [|done]. simpl.
  assert (getUserConversationsKey u <> getConversationKey u' c') as Hne.
  { intros Hk. symmetry in Hk. by apply keys_differ in Hk. }
  case_bool_decide.
  - rewrite lookup_delete_ne by done. simpl in Hdel. exact Hdel.
  - rewrite lookup_insert_ne by done. simpl in Hdel. exact Hdel.
Qed.

Lemma has_delete_one now u id r id' :
  has now u (delete_one now u id r) id' <-> has now u r id' /\ id' <> id.
Proof.
  unfold has. rewrite strings_delete_one, lookup_delete. case_decide as Hk.
  - apply record_key_inj in Hk as ->. split; [by intros []|by intros [_ ?]].
  - split; [|by intros []]. intros H. split; [done|]. by intros ->.
Qed.

(** [DEL] counts the record when there is one. *)
Lemma del_counts now u id r :
  apart r ->
  (Redis.del (getConversationKey u id) now r).1
  = if decide (has now u r id) then 1 else 0.
Proof.
  intros Ha. unfold Redis.del, has; cbn [fst]. rewrite Ha. simpl.
  rewrite orb_false_r. by destruct (decide _) as [H|H];
    [rewrite bool_decide_eq_true_2|rewrite bool_decide_eq_false_2].
Qed.

Lemma deleteEach_counts u ids n env st r :
  redis st = Some r -> redisUp env = true -> apart r ->
  wp (ConversationsRoute.deleteEach u ids n) env st
     (fun o st' =>
        o = Return (n + Z.of_nat (length (filter (has (nowMs env) u r)
                                                 (Js.unique ids)))) /\
        redis st'
        = Some (foldl (fun r id => delete_one (nowMs env) u id r) r ids)).
Proof.
  intros Hr Hup. revert n st r Hr.
  induction ids as [|id ids IH]; intros n st r Hr Ha; simpl.
  - wp_step. split; [|done]. f_equal. lia.
  - wp_step. eapply Rules.wp_command_up; [exact Hr|exact Hup|].
    pose proof (apart_delete_one (nowMs env) u id r Ha) as Ha'.
    assert (length (filter (has (nowMs env) u r)
                      (filter (fun y => y <> id) (Js.unique ids)))
            = length (filter (has (nowMs env) u (delete_one (nowMs env) u id r))
                        (Js.unique ids))) as Hrest.
    { rewrite list_filter_filter. f_equal. apply list_filter_iff.
      intros id'. by rewrite has_delete_one. }
    unfold delete_one in Ha', Hrest |- *. rewrite filter_cons.
    rewrite del_counts in * by done.
    destruct (decide (has (nowMs env) u r id)) as [Hhas|Hhas]; simpl in *.
    + wp_run. eapply Rules.wp_mono; [|by eapply IH].
      intros o st' [-> Hst']. cbv beta. split; [|done]. rewrite Hrest.
      f_equal. unfold removed, Redis.del; cbn [snd]. lia.
    + wp_run. eapply Rules.wp_mono; [|by eapply IH].
      intros o st' [-> Hst']. cbv beta. split; [|done]. rewrite Hrest.
      f_equal.
Qed.

End DeleteFacts.

(** X12. In a store that the handlers have filled, deleting several
    conversations answers with the number of distinct ids of the request
    under which the user had a record (an id given twice counts once, an id
    without a record counts for nothing), and afterwards none of the ids of
    the request has a record. *)
Theorem delete_many_counts_each_record_once
    (requests : list (Env * Request)) (env : Env) (userId ids : string) :
  acting env userId ->
  redisUp env = true ->
  let st := serve requests initial in
  let listed := Js.split_comma ids in
  let found :=
    filter (fun id => is_Some (stored st (nowMs env) userId id))
           (Js.unique listed) in
  (ConversationsRoute.DELETE (Some ids) env st).1
  = Return (success (DeletedCount (Z.of_nat (length found)))) /\
  forall id instant,
    id ∈ listed ->
    stored (ConversationsRoute.DELETE (Some ids) env st).2 instant userId id = None.
Proof.
  intros Hauth Hup st listed found.
  destruct (DeleteFacts.serve_keeps_handle requests initial) as [r Hr];
    [by exists Redis.empty|].
  fold st in Hr.
  assert (apart r) as Ha.
  { pose proof (DeleteFacts.serve_keeps_apart requests initial) as Hk.
    unfold holds in Hk. fold st in Hk. rewrite Hr in Hk. apply Hk.
    intros u c. simpl. by rewrite lookup_empty. }
  apply (Rules.wp_elim (ConversationsRoute.DELETE (Some ids)) env st
           (fun o st' =>
              o = Return (success (DeletedCount (Z.of_nat (length found)))) /\
              forall id instant,
                id ∈ listed -> stored st' instant userId id = None)).
  unfold ConversationsRoute.DELETE. do 3 wp_step. rewrite Hauth.
  rewrite bool_decide_eq_false_2 by apply StoreFacts.split_comma_nonempty.
  do 2 wp_step. rewrite Hr, bool_decide_eq_true_2 by eauto. cbn [negb].
  wp_step. eapply Rules.wp_mono; [|by eapply DeleteFacts.deleteEach_counts].
  intros o st' [-> Hst']. wp_step. split.
  - subst found. unfold stored. rewrite Hr. by rewrite Z.add_0_l.
  - intros id instant Hid. unfold stored. rewrite Hst'.
    rewrite InvariantFacts.strings_delete_all.
    rewrite bool_decide_eq_true_2; [done|]. by apply list_elem_of_fmap_2.
Qed.

Lemma delete_many_counts_each_record_once_witness :
  (ConversationsRoute.DELETE (Some "A,A,Z") (at_ 3000 "t3" "") two_conversations).1
  = Return (success (DeletedCount 1)).
Proof.
  etrans;
    [exact (proj1 (delete_many_counts_each_record_once
                     [ (at_ 1000 "t1" "A", CreateRequest (titled "first"));
                       (at_ 2000 "t2" "B", CreateRequest (titled "second")) ]
                     (at_ 3000 "t3" "") "u1" "A,A,Z" eq_refl eq_refl))|].
  by vm_compute.
Defined.

(** X10. For a signed-in user, a body that the schema of its handler rejects
    is answered 400 with the offending fields, and a body that is not JSON
    is answered 500; either way the handler (create, replace, append, and
    chat for any user) has called neither the store nor a backend, and the
    state is as before. Replace and append validate the body before they
    look for the conversation. *)
Theorem rejected_body_changes_nothing
    (env : Env) (st : State) (userId id : string)
    (payload : JSON) (paths : list string) :
  acting env userId ->
  let rejected := Return (json 400 (Failure_ "Invalid request format" paths)) in
  (CreateConversationSchema (Some payload) = Issues paths ->
   ConversationsRoute.POST (Some payload) env st = (rejected, st)) /\
  (UpdateConversationSchema (Some payload) = Issues paths ->
   ConversationRoute.PUT id (Some payload) env st = (rejected, st)) /\
  (AddMessageSchema (Some payload) = Issues paths ->
   ConversationRoute.PATCH id (Some payload) env st = (rejected, st)) /\
  (ChatbotRequestSchema (Some payload) = Issues paths ->
   ChatRoute.POST (Some payload) env st = (rejected, st)) /\
  ConversationsRoute.POST None env st
  = (Return (failure 500 "Failed to create conversation"), st) /\
  ConversationRoute.PUT id None env st
  = (Return (failure 500 "Failed to update conversation"), st) /\
  ConversationRoute.PATCH id None env st
  = (Return (failure 500 "Failed to add message"), st) /\
  ChatRoute.POST None env st
  = (Return (failure 500 "Internal server error"), st).
Proof.
  intros Hauth rejected. unfold acting in Hauth. subst rejected.
  repeat apply conj; try intros Hbad; apply StoreFacts.wp_equal.
  - unfold ConversationsRoute.POST. do 3 wp_step. rewrite Hauth. do 3 wp_step.
    apply Rules.wp_parse; intros ? Hparse; rewrite Hbad in Hparse;
      [done|injection Hparse as <-]. by wp_run.
  - unfold ConversationRoute.PUT. do 3 wp_step. rewrite Hauth. do 3 wp_step.
    apply Rules.wp_parse; intros ? Hparse; rewrite Hbad in Hparse;
      [done|injection Hparse as <-]. by wp_run.
  - unfold ConversationRoute.PATCH. do 3 wp_step. rewrite Hauth. do 3 wp_step.
    apply Rules.wp_parse; intros ? Hparse; rewrite Hbad in Hparse;
      [done|injection Hparse as <-]. by wp_run.
  - unfold ChatRoute.POST. do 4 wp_step.
    apply Rules.wp_parse; intros ? Hparse; rewrite Hbad in Hparse;
      [done|injection Hparse as <-]. by wp_run.
  - unfold ConversationsRoute.POST. do 3 wp_step. rewrite Hauth. by wp_run.
  - unfold ConversationRoute.PUT. do 3 wp_step. rewrite Hauth. by wp_run.
  - unfold ConversationRoute.PATCH. do 3 wp_step. rewrite Hauth. by wp_run.
  - unfold ChatRoute.POST. by wp_run.
Qed.

Lemma rejected_body_changes_nothing_witness :
  ConversationsRoute.POST (titled "") (at_ 3000 "t3" "C") two_conversations
  = (Return (json 400 (Failure_ "Invalid request format" ["title"])),
     two_conversations).
Proof.
  exact (proj1 (rejected_body_changes_nothing (at_ 3000 "t3" "C")
                  two_conversations "u1" "A" (JObj [("title", JStr "")])
                  ["title"] eq_refl) eq_refl).
Defined.


(** X3. A chat request that passes the schema makes at most one call, and
    that to a backend. It makes exactly one when the model it runs on is a
    string (the model of the request, or without one the [id] that the JSON
    of the cookie holds, or else the default model) and the token limit is
    an integer: to the backend that the router gives for that model, with a
    system message that is never empty (the prompt of the request, or the
    default one) followed by the history as it came, with a temperature
    between 0 and 2 (0.7 when the request gives none) and a token limit
    between 1 and 4000 (2000 when it gives none). It makes none when the
    cookie is JSON without a string [id] (the router throws and the answer
    is 500), nor when the token limit is not an integer ([streamText]
    refuses it). *)
Theorem chat_calls_the_backend_at_most_once
    (env : Env) (st : State) (payload : JSON) (data : ChatbotRequest) :
  ChatbotRequestSchema (Some payload) = Ok data ->
  exists prompt temperature maxTokens,
    calls (ChatRoute.POST (Some payload) env st).2
    = calls st ++
        match selected data env with
        | Some model =>
            if Js.isInteger maxTokens then
              [CallGenerate (getProvider model)
                 ({| role := system; content := prompt |} :: req_messages data)
                 temperature maxTokens]
            else []
        | None => []
        end /\
    selected data env
    = (let saved :=
         match selectedModelCookie env with
         | CookieJson (JObj fields) =>
             match field "id" fields with
             | Some (JStr id) => Some id
             | _ => None
             end
         | CookieJson JNull => Some "gpt-4o-mini"
         | CookieJson _ => None
         | _ => Some "gpt-4o-mini"
         end in
       match req_model data with
       | Some requested => if String.eqb requested "" then saved else Some requested
       | None => saved
       end) /\
    (selected data env = None ->
     (ChatRoute.POST (Some payload) env st).1
     = Return (failure 500 "Internal server error")) /\
    prompt <> "" /\
    (req_systemPrompt data = None -> prompt = ChatRoute.SYSTEM_PROMPTS_default) /\
    (forall given, req_systemPrompt data = Some given -> given <> "" ->
                   prompt = given) /\
    (0 <= temperature <= 2)%Q /\
    (req_temperature data = None -> temperature = (7 # 10)%Q) /\
    (1 <= maxTokens <= 4000)%Q /\
    (req_maxTokens data = None -> maxTokens = (2000 # 1)%Q).
Proof.
  intros Hdata. destruct (SchemaFacts.chat_bounds _ _ Hdata) as [Ht Hn].
  exists (Js.or_else (req_systemPrompt data) ChatRoute.SYSTEM_PROMPTS_default),
    (ChatRoute.temperature data), (ChatRoute.maxTokens data).
  split.
  { rewrite (ChatFacts.POST_valid _ _ _ _ Hdata).
    destruct (selected data env) as [model|] eqn:Hmodel.
    - assert (calls (called data model st)
              = calls st ++
                  (if Js.isInteger (ChatRoute.maxTokens data)
                   then [backendCall data model] else [])) as Hcalled.
      { unfold called. destruct (Js.isInteger _); [done|].
        by rewrite app_nil_r. }
      destruct (req_stream data) eqn:Hs.
      + by rewrite (ChatFacts.respond_streaming _ _ _ _ Hmodel Hs).
      + rewrite (ChatFacts.respond_buffered _ _ _ _ Hmodel Hs).
        destruct (Js.isInteger _); [|done].
        by destruct (backendRun data env model).
    - rewrite (ChatFacts.respond_no_model _ _ _ Hmodel). simpl.
      by rewrite app_nil_r. }
  split.
  { unfold selected, ChatRoute.selectModel, Js.or_else, Js.truthy.
    destruct (req_model data) as [requested|],
      (selectedModelCookie env) as [| |[]]; simpl;
      try done; by destruct (String.eqb requested ""). }
  split.
  { intros Hnone. rewrite (ChatFacts.POST_valid _ _ _ _ Hdata).
    by rewrite (ChatFacts.respond_no_model _ _ _ Hnone). }
  split.
  { unfold Js.or_else. destruct (req_systemPrompt data) as [given|]; [|done].
    destruct (String.eqb given "") eqn:Hgiven; [done|].
    by apply String.eqb_neq in Hgiven. }
  split; [by intros ->|]. split.
  { intros given -> Hgiven. unfold Js.or_else.
    by rewrite (proj2 (String.eqb_neq given "")). }
  unfold ChatRoute.temperature, ChatRoute.maxTokens.
  repeat split; try (by intros ->).
  all: destruct (req_temperature data) as [t|], (req_maxTokens data) as [n|];
    simpl; try done; try (by apply Ht); try (by apply Hn).
Qed.

Lemma chat_calls_the_backend_at_most_once_witness :
  calls (ChatRoute.POST (Some (asks "Hello" true)) (at_ 1000 "t1" "") initial).2
  = [CallGenerate {| provider := openai; modelId := "gpt-4o-mini" |}
       [ {| role := system; content := ChatRoute.SYSTEM_PROMPTS_default |};
         {| role := user; content := "Hello" |} ]
       (7 # 10)%Q (2000 # 1)%Q] /\
  calls (ChatRoute.POST (Some (asks "Hello" true)) model_without_id initial).2
  = [] /\
  (ChatRoute.POST (Some (asks "Hello" true)) model_without_id initial).1
  = Return (failure 500 "Internal server error").
Proof.
  pose (d := {| req_messages := [ {| role := user; content := "Hello" |} ];
                req_conversationId := None; req_model := None;
                req_temperature := None; req_maxTokens := None;
                req_stream := true; req_systemPrompt := None |}).
  destruct (chat_calls_the_backend_at_most_once (at_ 1000 "t1" "") initial
              (asks "Hello" true) d eq_refl)
    as (prompt & temperature & maxTokens & Hcalls & _ & _ & _ & Hprompt & _
        & _ & Ht & _ & Hn).
  destruct (chat_calls_the_backend_at_most_once model_without_id initial
              (asks "Hello" true) d eq_refl)
    as (prompt' & temperature' & maxTokens' & Hcalls' & _ & Hfailed & _).
  rewrite (Hprompt eq_refl), (Ht eq_refl), (Hn eq_refl) in Hcalls.
  split; [exact Hcalls|]. split; [exact Hcalls'|]. by apply Hfailed.
Defined.
(** ** The models route *)

Module ModelsFacts.
Import Sync ModelsRoute.

(** *** The filters *)

Lemma filter_all {A} (P : A -> Prop) `{forall x, Decision (P x)} (l : list A) :
  (forall x, P x) -> filter P l = l.
Proof.
  intros HP. induction l as [|x l IH]; [done|].
  by rewrite filter_cons_True, IH.
Qed.

Lemma by_provider_filter config provider l :
  by_provider config provider l
  = filter (fun m => meets provider
                       (fun p => toLowerCase config (providerId m)
                                 = toLowerCase config p)) l.
Proof.
  destruct provider as [p|]; simpl.
  - destruct (String.eqb_spec p "") as [->|Hp].
    + symmetry. apply filter_all. intros m. by left.
    + apply list_filter_iff. intros m. split; [by right|]. by intros [?|?].
  - symmetry. by apply filter_all.
Qed.

Lemma by_capability_filter capability l :
  by_capability capability l
  = filter (fun m => meets capability (fun c => c ∈ capabilities m)) l.
Proof.
  destruct capability as [c|]; simpl.
  - destruct (String.eqb_spec c "") as [->|Hc].
    + symmetry. apply filter_all. intros m. by left.
    + apply list_filter_iff. intros m. split; [by right|]. by intros [?|?].
  - symmetry. by apply filter_all.
Qed.

Lemma by_pricingTier_filter tier l :
  by_pricingTier tier l
  = filter (fun m => meets tier (fun t => pricingTier m = t)) l.
Proof.
  destruct tier as [t|]; simpl.
  - destruct (String.eqb_spec t "") as [->|Ht].
    + symmetry. apply filter_all. intros m. by left.
    + apply list_filter_iff. intros m. split; [by right|]. by intros [?|?].
  - symmetry. by apply filter_all.
Qed.

Lemma filters_wanted config provider capability pricing_tier l :
  by_pricingTier pricing_tier
    (by_capability capability (by_provider config provider l))
  = filter (wanted config provider capability pricing_tier) l.
Proof.
  rewrite by_pricingTier_filter, by_capability_filter, by_provider_filter.
  rewrite !list_filter_filter. apply list_filter_iff. intros m.
  unfold wanted. tauto.
Qed.

(** *** The grouping *)

Lemma push_None key model acc :
  push key model acc = None <-> key ∉ acc.*1.
Proof.
  induction acc as [|[k ms] acc IH]; simpl.
  - split; [intros _; apply not_elem_of_nil|done].
  - destruct (String.eqb_spec k key) as [->|Hk].
    + split; [done|]. intros Hnot. destruct Hnot. by left.
    + rewrite fmap_None, IH, not_elem_of_cons. split; [by split|by intros []].
Qed.

Lemma push_Some key model acc acc' :
  push key model acc = Some acc' ->
  exists pre ms post,
    acc = pre ++ (key, ms) :: post /\ (key ∉ pre.*1) /\
    acc' = pre ++ (key, ms ++ [model]) :: post.
Proof.
  revert acc'. induction acc as [|[k ms] acc IH]; intros acc'; simpl; [done|].
  destruct (String.eqb_spec k key) as [->|Hk].
  - intros [= <-]. exists [], ms, acc. split; [done|]. split; [|done].
    apply not_elem_of_nil.
  - destruct (push key model acc) as [acc1|]; simpl; [|done]. intros [= <-].
    destruct (IH acc1 eq_refl) as (pre & ms' & post & -> & Hpre & ->).
    exists ((k, ms) :: pre), ms', post. split; [done|]. split; [|done].
    simpl. rewrite not_elem_of_cons. by split.
Qed.

Lemma grouped_nil : grouped [] [].
Proof.
  split; [constructor|]. split; [by intros k ms ?%elem_of_nil|].
  split; [|done]. by intros m ?%elem_of_nil.
Qed.

Lemma filter_snoc_other (k : string) seen model :
  providerId model <> k ->
  filter (fun m => providerId m = k) (seen ++ [model])
  = filter (fun m => providerId m = k) seen.
Proof.
  intros Hk. rewrite filter_app, filter_cons_False, filter_nil by done.
  by rewrite app_nil_r.
Qed.

Lemma filter_snoc_same seen model :
  filter (fun m => providerId m = providerId model) (seen ++ [model])
  = filter (fun m => providerId m = providerId model) seen ++ [model].
Proof. by rewrite filter_app, filter_cons_True, filter_nil by done. Qed.

Lemma group_step_grouped seen acc model acc' :
  grouped seen acc -> group_step acc model = Return acc' ->
  grouped (seen ++ [model]) acc'.
Proof.
  intros (Hnodup & Hall & Hseen & Hsum). unfold group_step.
  destruct (push (providerId model) model acc) as [acc1|] eqn:Hpush.
  - intros [= <-].
    apply push_Some in Hpush as (pre & ms & post & -> & Hpre & ->).
    rewrite fmap_app, fmap_cons in Hnodup, Hseen. simpl in Hnodup, Hseen.
    pose proof Hnodup as Hnd. apply NoDup_app in Hnd as (Hnd1 & Hnd2 & Hnd3).
    apply NoDup_cons in Hnd3 as [Hpost Hnd3].
    assert (forall k ms', (k, ms') ∈ pre \/ (k, ms') ∈ post ->
                          k <> providerId model) as Hother.
    { intros k ms' [Hin|Hin] ->.
      - apply Hpre. by apply (list_elem_of_fmap_2 fst _ (_, ms')).
      - apply Hpost. by apply (list_elem_of_fmap_2 fst _ (_, ms')). }
    split; [|split; [|split]].
    + by rewrite fmap_app, fmap_cons.
    + intros k ms' Hin.
      apply elem_of_app in Hin as [Hin|[Heq|Hin]%elem_of_cons].
      * destruct (Hall k ms') as [Hne Hms];
          [apply elem_of_app; by left|].
        split; [done|]. rewrite filter_snoc_other; [done|].
        intros Heq. eapply Hother; [by left|done].
      * injection Heq as -> ->.
        destruct (Hall (providerId model) ms) as [Hne Hms];
          [apply elem_of_app; right; by left|].
        split; [by destruct ms|]. by rewrite filter_snoc_same, <- Hms.
      * destruct (Hall k ms') as [Hne Hms];
          [apply elem_of_app; right; by right|].
        split; [done|]. rewrite filter_snoc_other; [done|].
        intros Heq. eapply Hother; [by right|done].
    + rewrite fmap_app, fmap_cons. simpl.
      intros m [Hm|Hm%list_elem_of_singleton]%elem_of_app; [by apply Hseen|].
      subst m. apply elem_of_app. right. by left.
    + rewrite sum_list_with_app in *. simpl in *.
      rewrite !length_app in *. simpl. lia.
  - apply push_None in Hpush. case_bool_decide; [done|]. intros [= <-].
    split; [|split; [|split]].
    + rewrite fmap_app. apply NoDup_app. split; [done|]. split.
      * intros k Hk ->%list_elem_of_singleton. done.
      * apply NoDup_singleton.
    + intros k ms [Hin|Hin%list_elem_of_singleton]%elem_of_app.
      * destruct (Hall k ms Hin) as [Hne Hms]. split; [done|].
        rewrite filter_snoc_other; [done|]. intros Heq. apply Hpush.
        rewrite Heq. by apply (list_elem_of_fmap_2 fst _ (_, ms)).
      * injection Hin as -> ->. split; [done|].
        rewrite filter_snoc_same.
        assert (filter (fun m => providerId m = providerId model) seen = [])
          as ->; [|done].
        destruct (filter _ seen) as [|m l] eqn:Hfilter; [done|].
        assert (m ∈ filter (fun m => providerId m = providerId model) seen)
          as [Hpid Hm]%list_elem_of_filter by (rewrite Hfilter; by left).
        destruct Hpush. rewrite <- Hpid. by apply Hseen.
    + rewrite fmap_app. simpl.
      intros m [Hm|Hm%list_elem_of_singleton]%elem_of_app.
      * apply elem_of_app. left. by apply Hseen.
      * subst m. apply elem_of_app. right. by left.
    + rewrite sum_list_with_app, length_app. simpl. lia.
Qed.

Lemma group_grouped models seen acc acc' :
  grouped seen acc -> group models acc = Return acc' ->
  grouped (seen ++ models) acc'.
Proof.
  revert seen acc. induction models as [|model models IH]; intros seen acc Hg;
    simpl.
  - intros [= <-]. by rewrite app_nil_r.
  - destruct (group_step acc model) as [acc1|e] eqn:Hstep; [|done].
    intros Hgroup.
    replace (seen ++ model :: models) with ((seen ++ [model]) ++ models)
      by (by rewrite <- app_assoc).
    eapply IH; [|done]. by eapply group_step_grouped.
Qed.

(** The grouping fails only on a provider id that names an inherited
    property. *)
Lemma group_returns models acc :
  Forall (fun m => providerId m ∉ Js.inherited) models ->
  exists acc', group models acc = Return acc'.
Proof.
  intros Hall. revert acc.
  induction Hall as [|model models Hm _ IH]; intros acc; simpl; [by eauto|].
  unfold group_step. destruct (push _ _ _) as [acc1|]; [apply IH|].
  rewrite bool_decide_eq_false_2 by done. apply IH.
Qed.

(** A provider id that names an inherited property never becomes a property
    of the object, and the round that meets it throws. *)
Lemma group_throws models acc :
  Forall (fun k => k ∉ Js.inherited) acc.*1 ->
  Exists (fun m => providerId m ∈ Js.inherited) models ->
  exists e, group models acc = Throw e.
Proof.
  intros Hacc Hexists. revert acc Hacc.
  induction models as [|model models IH]; intros acc Hacc; simpl;
    [by apply Exists_nil in Hexists|].
  unfold group_step.
  destruct (push (providerId model) model acc) as [acc1|] eqn:Hpush.
  - apply push_Some in Hpush as (pre & ms & post & -> & Hpre & ->).
    apply Exists_cons in Hexists as [Hhere|Hlater].
    + rewrite fmap_app, fmap_cons in Hacc.
      apply Forall_app in Hacc as [_ [Hkey _]%Forall_cons]. done.
    + apply IH; [done|]. by rewrite fmap_app, fmap_cons in *.
  - destruct (decide (providerId model ∈ Js.inherited)) as [Hin|Hout].
    + rewrite bool_decide_eq_true_2 by done. by eauto.
    + rewrite bool_decide_eq_false_2 by done.
      apply Exists_cons in Hexists as [Hhere|Hlater]; [done|].
      apply IH; [done|]. rewrite fmap_app. apply Forall_app. split; [done|].
      by apply Forall_singleton.
Qed.

(** *** The order of the properties *)

Lemma entries_Permutation {A} (o : list (string * A)) : Js.entries o ≡ₚ o.
Proof.
  unfold Js.entries.
  rewrite (merge_sort_Permutation _ _).
  assert ((omap (fun kv : string * A =>
                   (fun n => (n, kv)) <$> Js.array_index kv.1) o).*2
          = filter (fun kv : string * A => ~ Js.array_index kv.1 = None) o) as ->.
  { induction o as [|kv o IH]; [done|]. simpl.
    destruct (Js.array_index kv.1) as [n|] eqn:Hn; simpl.
    - rewrite filter_cons_True by (by rewrite Hn). f_equal. exact IH.
    - rewrite filter_cons_False; [exact IH|]. rewrite Hn. by intros []. }
  rewrite Permutation_app_comm. apply filter_app_complement.
Qed.

Lemma sum_list_fmap {A} (f : A -> nat) (l : list A) :
  sum_list (f <$> l) = sum_list_with f l.
Proof. induction l as [|x l IH]; simpl; [done|]. f_equal. exact IH. Qed.

Lemma filter_all_in {A} (P : A -> Prop) `{forall x, Decision (P x)} (l : list A) :
  Forall P l -> filter P l = l.
Proof.
  induction 1 as [|x l Hx _ IH]; [done|]. by rewrite filter_cons_True, IH.
Qed.

Lemma find_fmap {A B} (p : B -> bool) (f : A -> B) (l : list A) :
  List.find p (f <$> l) = f <$> List.find (fun a => p (f a)) l.
Proof.
  induction l as [|a l IH]; simpl; [done|]. destruct (p (f a)); [done|exact IH].
Qed.

(** *** The table of the details *)

Lemma MODEL_DETAILS_sound : Forall (fun kv => sound kv.2) MODEL_DETAILS.
Proof.
  repeat (apply Forall_cons; split;
          [repeat split; simpl; try lia; try done;
           repeat (first [by left | right])|]).
  constructor.
Qed.

Lemma details_of_sound id details :
  details_of id = Some details -> sound details.
Proof.
  unfold details_of. destruct (List.find _ _) as [kv|] eqn:Hfind; [|done].
  intros [= <-]. apply find_some in Hfind as [Hin _].
  apply list_elem_of_In in Hin.
  by apply (proj1 (Forall_forall _ _) MODEL_DETAILS_sound).
Qed.

Lemma enrich_text config model : "text" ∈ capabilities (enrich config model).
Proof.
  unfold enrich; simpl.
  destruct (details_of (model_id model)) as [details|] eqn:Hd; simpl.
  - by apply details_of_sound in Hd as [? _].
  - by left.
Qed.

End ModelsFacts.
(** X16. The listing of the models. When the configuration can be read and
    no listed model has a provider id that names an inherited property, the
    answer is 200 and its models are the configured models, enriched, that
    meet every criterion of the query (provider, both sides lowered by the
    [toLowerCase] of the engine, whatever its case mapping; capability;
    pricing tier; a criterion that is absent or empty asks for nothing), in
    the order of the configuration; [totalModels] is their number. When a
    listed model has such a provider id, or when the configuration cannot be
    read, the answer is 500. *)
Theorem listing_is_filtered
    (config : Config) (provider capability pricing_tier : option string) :
  let failed :=
    {| ModelsRoute.status := 500;
       ModelsRoute.body := ModelsRoute.Failed "Failed to retrieve models" |} in
  match getModels config with
  | Some configModels =>
      let listed :=
        filter (wanted config provider capability pricing_tier)
               (ModelsRoute.enrich config <$> configModels) in
      (Forall (fun m => ModelsRoute.providerId m ∉ Js.inherited) listed ->
       exists data,
         lists (ModelsRoute.GET config provider capability pricing_tier) data /\
         ModelsRoute.models data = listed /\
         ModelsRoute.totalModels data = length listed) /\
      (Exists (fun m => ModelsRoute.providerId m ∈ Js.inherited) listed ->
       ModelsRoute.GET config provider capability pricing_tier = failed)
  | None => ModelsRoute.GET config provider capability pricing_tier = failed
  end.
Proof.
  cbv zeta. unfold ModelsRoute.GET, lists.
  destruct (getModels config) as [configModels|]; [|done].
  rewrite ModelsFacts.filters_wanted. set (listed := filter _ _). split.
  - intros Hplain.
    destruct (ModelsFacts.group_returns listed [] Hplain) as [acc ->].
    eexists. split; [reflexivity|]. by split.
  - intros Hnamed.
    by destruct (ModelsFacts.group_throws listed [] (Forall_nil_2 _) Hnamed)
      as [e ->].
Qed.

Lemma listing_is_filtered_witness :
  exists data,
    lists (ModelsRoute.GET sample_config (Some "OpenAI") (Some "vision") None)
          data /\
    model_id <$> (ModelsRoute.source <$> ModelsRoute.models data)
    = ["gpt-4o"; "gpt-4o-mini"].
Proof.
  destruct (proj1 (listing_is_filtered sample_config (Some "OpenAI")
                     (Some "vision") None))
    as (data & Hlists & Hmodels & _).
  - apply (bool_decide_unpack _). by vm_compute.
  - exists data. split; [exact Hlists|]. rewrite Hmodels. by vm_compute.
Defined.

(** X17. In every listing of the models the groups by provider split the
    listed models: the providers of the answer are distinct and are those
    of the groups, every listed model has its provider among them, the
    group of a provider holds the listed models of that provider, in their
    order, and is never empty, each provider counts at most as many enabled
    models as models, and the counts of the providers add up to
    [totalModels]. *)
Theorem listing_groups_by_provider
    (config : Config) (provider capability pricing_tier : option string)
    (data : ModelsRoute.Listing) :
  lists (ModelsRoute.GET config provider capability pricing_tier) data ->
  NoDup (ModelsRoute.availableProviders data) /\
  ModelsRoute.availableProviders data = (ModelsRoute.modelsByProvider data).*1 /\
  (forall model, model ∈ ModelsRoute.models data ->
                 ModelsRoute.providerId model ∈ ModelsRoute.availableProviders data) /\
  (forall key group,
      (key, group) ∈ ModelsRoute.modelsByProvider data ->
      group <> [] /\
      group = filter (fun model => ModelsRoute.providerId model = key)
                     (ModelsRoute.models data)) /\
  Forall (fun s => (ModelsRoute.stats_enabledModels s
                    <= ModelsRoute.stats_totalModels s)%nat)
         (ModelsRoute.providerStats data) /\
  sum_list (ModelsRoute.stats_totalModels <$> ModelsRoute.providerStats data)
  = ModelsRoute.totalModels data.
Proof.
  unfold ModelsRoute.GET, lists.
  destruct (getModels config) as [configModels|]; [|done].
  set (filtered := ModelsRoute.by_pricingTier _ _).
  destruct (ModelsRoute.group filtered []) as [acc|e] eqn:Hgroup; [|done].
  intros [= <-]; simpl.
  destruct (ModelsFacts.group_grouped filtered [] [] acc ModelsFacts.grouped_nil
              Hgroup) as (Hnodup & Hgroups & Hseen & Hsum).
  simpl in Hgroups, Hseen, Hsum.
  pose proof (ModelsFacts.entries_Permutation acc) as Hperm.
  split; [by rewrite Hperm|]. split; [done|]. split.
  { intros model Hmodel. rewrite Hperm. by apply Hseen. }
  split.
  { intros key group Hin. apply Hgroups. by rewrite <- Hperm. }
  split.
  { apply Forall_fmap, Forall_true. intros [key group]; simpl.
    apply length_filter. }
  rewrite <- list_fmap_compose, ModelsFacts.sum_list_fmap.
  by rewrite Hperm.
Qed.

Lemma listing_groups_by_provider_witness :
  exists data,
    lists (ModelsRoute.GET sample_config None None None) data /\
    ModelsRoute.availableProviders data = ["openai"; "anthropic"; "local"] /\
    sum_list (ModelsRoute.stats_totalModels <$> ModelsRoute.providerStats data)
    = ModelsRoute.totalModels data.
Proof.
  eexists. split; [reflexivity|]. split; [reflexivity|].
  eapply (listing_groups_by_provider sample_config None None None).
  reflexivity.
Defined.


(** X18. Whatever the configuration, a model of the listing carries the model
    of the configuration it comes from, has the capability ["text"], an
    output limit that is positive and within its context window, one of the
    three pricing tiers and a description; it is enabled exactly when both
    the model and its provider are. Hence asking for the capability
    ["text"] filters nothing. *)
Theorem every_listed_model_has_text
    (config : Config) (model : Model) (provider pricing_tier : option string) :
  let listed := ModelsRoute.enrich config model in
  ModelsRoute.source listed = model /\
  "text" ∈ ModelsRoute.capabilities listed /\
  0 < ModelsRoute.maxOutputTokens listed <= ModelsRoute.contextWindow listed /\
  ModelsRoute.pricingTier listed ∈ ["premium"; "standard"; "economy"] /\
  ModelsRoute.description listed <> "" /\
  (ModelsRoute.isEnabled listed = true <->
   model_enabled model = true /\
   isProviderEnabled config (model_providerId model) = true) /\
  ModelsRoute.GET config provider (Some "text") pricing_tier
  = ModelsRoute.GET config provider None pricing_tier.
Proof.
  intros listed. split; [done|]. split; [apply ModelsFacts.enrich_text|].
  assert (0 < ModelsRoute.maxOutputTokens listed <= ModelsRoute.contextWindow listed
          /\ ModelsRoute.pricingTier listed ∈ ["premium"; "standard"; "economy"]
          /\ ModelsRoute.description listed <> "") as (Hlimits & Htier & Hdesc).
  { subst listed. unfold ModelsRoute.enrich; simpl.
    destruct (ModelsRoute.details_of (model_id model)) as [details|] eqn:Hd;
      simpl.
    - apply ModelsFacts.details_of_sound in Hd as (_ & Hlimits & Htier & Hdesc).
      unfold Js.or_number, Js.or_else.
      destruct (Z.eqb_spec (ModelsRoute.details_maxOutputTokens details) 0),
        (Z.eqb_spec (ModelsRoute.details_contextWindow details) 0),
        (String.eqb_spec (ModelsRoute.details_pricingTier details) ""),
        (String.eqb_spec (ModelsRoute.details_description details) "");
        repeat split; try lia; try done; right; by left.
    - repeat split; try lia; try done. right; by left. }
  split; [done|]. split; [done|]. split; [done|].
  split; [apply andb_true_iff|].
  unfold ModelsRoute.GET. destruct (getModels config) as [configModels|]; [|done].
  assert (ModelsRoute.by_capability (Some "text")
            (ModelsRoute.by_provider config provider
               (ModelsRoute.enrich config <$> configModels))
          = ModelsRoute.by_capability None
              (ModelsRoute.by_provider config provider
                 (ModelsRoute.enrich config <$> configModels))) as ->; [|done].
  simpl. apply ModelsFacts.filter_all_in. rewrite ModelsFacts.by_provider_filter.
  apply Forall_forall. intros m [_ Hm]%list_elem_of_filter.
  apply list_elem_of_fmap in Hm as (configured & -> & _).
  apply ModelsFacts.enrich_text.
Qed.

(** X19. A preference for a model, named by a string that is not empty, when
    the configuration can be read: the answer is 200 exactly when the first
    model of the listing with that id is enabled, 400 when it is not, and
    404 when the listing has no model with that id. *)
Theorem preference_accepted_iff_listed_enabled
    (config : Config) (configModels : list Model)
    (fields : list (string * JSON)) (id : string) :
  getModels config = Some configModels ->
  field "modelId" fields = Some (JStr id) ->
  id <> "" ->
  ModelsRoute.status (ModelsRoute.POST config (Some (JObj fields)))
  = match List.find (fun listed =>
                       String.eqb (model_id (ModelsRoute.source listed)) id)
                    (ModelsRoute.enrich config <$> configModels) with
    | Some listed => if ModelsRoute.isEnabled listed then 200 else 400
    | None => 404
    end.
Proof.
  intros Hconfig Hfield Hid. unfold ModelsRoute.POST; simpl.
  rewrite Hfield; simpl. rewrite (proj2 (String.eqb_neq id "")) by done; simpl.
  rewrite Hconfig, ModelsFacts.find_fmap; simpl.
  destruct (List.find _ configModels) as [model|]; simpl; [|done].
  by destruct (model_enabled model),
       (isProviderEnabled config (model_providerId model)).
Qed.

Lemma preference_accepted_iff_listed_enabled_witness :
  ModelsRoute.status
    (ModelsRoute.POST sample_config (Some (JObj [("modelId", JStr "gpt-4o")])))
  = 200 /\
  ModelsRoute.status
    (ModelsRoute.POST sample_config
       (Some (JObj [("modelId", JStr "gpt-4o-mini")])))
  = 400.
Proof.
  split.
  - etrans;
      [exact (preference_accepted_iff_listed_enabled sample_config _
                [("modelId", JStr "gpt-4o")] "gpt-4o" eq_refl eq_refl
                ltac:(discriminate))|].
    reflexivity.
  - etrans;
      [exact (preference_accepted_iff_listed_enabled sample_config _
                [("modelId", JStr "gpt-4o-mini")] "gpt-4o-mini" eq_refl eq_refl
                ltac:(discriminate))|].
    reflexivity.
Defined.


(** X20. The table of the details and the router agree: every model of the
    table is routed, under its own id, to the backend of the provider that
    the table names for it; and every model that the API advertises as the
    default of a provider is routed to that provider and has its details in
    the table. *)
Theorem catalogue_agrees_with_router :
  Forall (fun entry : string * ModelsRoute.Details =>
            exists p,
              getProvider entry.1 = {| provider := p; modelId := entry.1 |} /\
              Js.toLowerCase (ModelsRoute.details_provider entry.2)
              = ChatRoute.provider_key p)
         ModelsRoute.MODEL_DETAILS /\
  Forall (fun advertised : string * string =>
            exists p,
              ChatRoute.provider_key p = advertised.1 /\
              getProvider advertised.2
              = {| provider := p; modelId := advertised.2 |} /\
              is_Some (ModelsRoute.details_of advertised.2))
         (ChatRoute.availableModels ChatRoute.GET).
Proof.
  split.
  - repeat (apply Forall_cons; split;
            [first [by exists openai | by exists anthropic | by exists google
                   | by exists groq | by exists xai]|]).
    constructor.
  - repeat (apply Forall_cons; split;
            [first [by exists openai | by exists anthropic | by exists google
                   | by exists groq | by exists xai]|]).
    constructor.
Qed.

(** ** Whose conversations an answer carries *)

Module OwnerFacts.
Import InvariantFacts.

Lemma found_own r u id now conversation :
  no_colon u = true -> well_kept r ->
  (Redis.get (getConversationKey u id) now r).1 = Some conversation ->
  conv_userId conversation = u.
Proof.
  intros Hu Hk [e Hrecord]%live_Some.
  by destruct (Hk u id conversation e Hu Hrecord) as (_ & ? & _).
Qed.

Lemma page_own r u now ids :
  no_colon u = true -> well_kept r ->
  Forall (fun c => conv_userId c = u)
         (omap (fun c => c)
               ((fun id => Redis.live now
                             (Redis.strings r !! getConversationKey u id))
                  <$> ids)).
Proof.
  intros Hu Hk. induction ids as [|id ids IH]; simpl; [constructor|].
  destruct (Redis.live now _) as [c|] eqn:Hlive; simpl; [|exact IH].
  constructor; [|exact IH]. by eapply (found_own r u id now).
Qed.

(** The chat handler answers with no conversation. *)
Lemma chat_answers_none payload env st response :
  (ChatRoute.POST payload env st).1 = Return response ->
  conversations_of (body response) = [].
Proof.
  destruct payload as [payload|]; [|by intros [= <-]].
  destruct (ChatbotRequestSchema (Some payload)) as [d|paths] eqn:Hd.
  - rewrite (ChatFacts.POST_valid _ _ _ _ Hd).
    destruct (selected d env) as [model|] eqn:Hmodel.
    + destruct (req_stream d) eqn:Hs.
      * rewrite (ChatFacts.respond_streaming _ _ _ _ Hmodel Hs).
        by intros [= <-].
      * rewrite (ChatFacts.respond_buffered _ _ _ _ Hmodel Hs).
        destruct (Js.isInteger _); [destruct (backendRun d env model)|];
          by intros [= <-].
    + rewrite (ChatFacts.respond_no_model _ _ _ Hmodel). by intros [= <-].
  - rewrite (ChatFacts.POST_invalid _ _ _ _ Hd). by intros [= <-].
Qed.

Ltac own :=
  intros ? [= <-];
  cbn [body json success failure conversations_of];
  repeat constructor; cbn [conv_userId];
  first [done | by eapply found_own; eauto].

Lemma handle_answers_own env request st u :
  no_colon u = true -> acting env u -> holds well_kept st ->
  wp (handle request) env st
     (fun o _ =>
        forall response,
          o = Return response ->
          Forall (fun c => conv_userId c = u) (conversations_of (body response))).
Proof.
  intros Hu Hauth Hk. unfold acting in Hauth.
  destruct request as [limit offset|payload|ids|id|id payload|id|id payload|payload];
    simpl.
  - unfold ConversationsRoute.GET. do 3 wp_step. rewrite Hauth.
    destruct st as [[r|] cs]; unfold holds in Hk; cbn [redis] in Hk;
      wp_run; try own.
    eapply Rules.wp_mono; [|by apply (ListFacts.mapM_get_any u)].
    intros [found|e|] st' [Hfound Hst']; wp_run; try own.
    intros response [= <-]. simpl. rewrite (Hfound _ eq_refl).
    by apply page_own.
  - unfold ConversationsRoute.POST. do 3 wp_step. rewrite Hauth.
    destruct st as [[r|] cs]; wp_run; try own.
  - unfold ConversationsRoute.DELETE. do 3 wp_step. rewrite Hauth.
    wp_run; try own.
    eapply (Rules.wp_mono _ _ _ (fun _ _ => True)); [|done].
    intros [a|e|] st' _; wp_run; own.
  - unfold ConversationRoute.GET, ConversationRoute.getConversation.
    do 3 wp_step. rewrite Hauth.
    destruct st as [[r|] cs]; unfold holds in Hk; cbn [redis] in Hk;
      wp_run; try own.
  - unfold ConversationRoute.PUT, ConversationRoute.getConversation,
      ConversationRoute.saveConversation.
    do 3 wp_step. rewrite Hauth.
    destruct st as [[r|] cs]; unfold holds in Hk; cbn [redis] in Hk;
      wp_run; try own.
  - unfold ConversationRoute.DELETE, ConversationRoute.getConversation.
    do 3 wp_step. rewrite Hauth.
    destruct st as [[r|] cs]; unfold holds in Hk; cbn [redis] in Hk;
      wp_run; try own.
  - unfold ConversationRoute.PATCH, ConversationRoute.getConversation,
      ConversationRoute.saveConversation.
    do 3 wp_step. rewrite Hauth.
    destruct st as [[r|] cs]; unfold holds in Hk; cbn [redis] in Hk;
      wp_run; try own.
  - unfold wp. intros response Hresponse.
    rewrite (chat_answers_none _ _ _ _ Hresponse). constructor.
Qed.

End OwnerFacts.

(** X15. In a store that the handlers have filled, for users whose id has no
    [":"]: every conversation that a handler answers with, alone or in a
    list, belongs to the user of the request. *)
Theorem answers_carry_own_conversations_only
    (requests : list (Env * Request)) (env : Env) (request : Request)
    (userId : string) (response : Response) :
  Forall (fun er => plain_user er.1) requests ->
  plain_user env ->
  acting env userId ->
  (handle request env (serve requests initial)).1 = Return response ->
  Forall (fun conversation => conv_userId conversation = userId)
         (conversations_of (body response)).
Proof.
  intros Hall Hplain Hauth Hresponse.
  assert (holds well_kept (serve requests initial)) as Hk.
  { apply InvariantFacts.serve_keeps_well_kept; [done|].
    intros u' c' conv e _. simpl. by rewrite lookup_empty. }
  pose proof (HandlerFacts.plain_authenticated _ _ Hplain Hauth) as Hu.
  exact (Rules.wp_elim _ _ _ _
           (OwnerFacts.handle_answers_own env request _ userId Hu Hauth Hk)
           response Hresponse).
Qed.

Lemma answers_carry_own_conversations_only_witness :
  exists conversations total hasMore,
    (ConversationsRoute.GET None None (at_ 3000 "t3" "") three_conversations).1
    = Return (success (ConversationList conversations total hasMore)) /\
    Forall (fun conversation => conv_userId conversation = "u1") conversations.
Proof.
  eexists _, _, _. split; [by vm_compute|].
  eapply (answers_carry_own_conversations_only
           [ (at_ 1000 "t1" "A", CreateRequest (titled "first"));
             (at_ 2000 "t2" "B", CreateRequest (titled "second"));
             (as_user "u2" (at_ 2500 "t2b" "C"), CreateRequest (titled "theirs")) ]
           (at_ 3000 "t3" "") (ListRequest None None) "u1"
           (success (ConversationList _ _ _))).
  - repeat constructor; intros userId [= <-]; reflexivity.
  - intros userId [= <-]. reflexivity.
  - reflexivity.
  - by vm_compute.
Defined.

(** ** Deleting one conversation *)

Module RemovalFacts.
Import KeyFacts InvariantFacts.

Lemma DELETE_answer env st r u id old :
  acting env u -> redis st = Some r -> redisUp env = true ->
  stored st (nowMs env) u id = Some old ->
  ConversationRoute.DELETE id env st
  = (Return (success (Deleted true)),
     {| redis := Some (removed (nowMs env) u id r);
        calls := calls st ++
          [ CallRedis "GET" (getConversationKey u id);
            CallRedis "DEL" (getConversationKey u id);
            CallRedis "ZREM" (getUserConversationsKey u) ] |}).
Proof.
  intros Hauth Hr Hup Hold. destruct st as [rd cs]; simpl in Hr; subst rd.
  unfold acting in Hauth. unfold stored in Hold; cbn [redis] in Hold.
  pose proof (EffectFacts.del_found _ _ _ _ Hold) as Hdel.
  apply StoreFacts.wp_equal. unfold ConversationRoute.DELETE.
  do 3 wp_step. rewrite Hauth. do 2 wp_step. cbn [redis].
  rewrite bool_decide_eq_true_2 by eauto. cbn [negb]. wp_step.
  eapply StoreFacts.wp_getConversation; [reflexivity|exact Hup|].
  rewrite Hold. do 2 wp_step. rewrite Hdel.
  change (negb (1 =? 0)) with true. change (0 <? 1) with true.
  wp_run. cbn [calls redis]. by rewrite <- !app_assoc.
Qed.

Lemma DELETE_not_found env st r u id :
  acting env u -> redis st = Some r -> redisUp env = true ->
  stored st (nowMs env) u id = None ->
  ConversationRoute.DELETE id env st
  = (Return (failure 404 "Conversation not found"),
     {| redis := Some r;
        calls := calls st ++ [CallRedis "GET" (getConversationKey u id)] |}).
Proof.
  intros Hauth Hr Hup Hold. destruct st as [rd cs]; simpl in Hr; subst rd.
  unfold acting in Hauth. unfold stored in Hold; cbn [redis] in Hold.
  apply StoreFacts.wp_equal. unfold ConversationRoute.DELETE.
  do 3 wp_step. rewrite Hauth. do 2 wp_step. cbn [redis].
  rewrite bool_decide_eq_true_2 by eauto. cbn [negb]. wp_step.
  eapply StoreFacts.wp_getConversation; [reflexivity|exact Hup|].
  rewrite Hold. wp_auto.
Qed.

(** The index of the user after the removal: the same without the id. *)
Lemma members_removed now u id r :
  Redis.members (getUserConversationsKey u) now (removed now u id r)
  = delete id (Redis.members (getUserConversationsKey u) now r).
Proof.
  unfold Redis.members, removed, Redis.del; cbn [snd].
  set (userKey := getUserConversationsKey u).
  set (r0 := {| Redis.strings := delete (getConversationKey u id) (Redis.strings r);
                Redis.zsets := delete (getConversationKey u id) (Redis.zsets r) |}).
  assert (Redis.zsets r0 !! userKey = Redis.zsets r !! userKey) as Hsame
    by (apply lookup_delete_ne, keys_differ).
  unfold Redis.zrem. rewrite <- Hsame.
  destruct (Redis.zsets r0 !! userKey) as [[z e]|] eqn:Hz;
    [|by cbn [snd]; rewrite Hz].
  destruct (Redis.alive now e) eqn:Halive.
  - destruct (z !! id) as [score|] eqn:Hid; cbn [snd Redis.zsets].
    + case_bool_decide as Hempty.
      * rewrite lookup_delete_eq. simpl. rewrite Halive. simpl.
        by rewrite Hempty.
      * rewrite lookup_insert_eq. simpl. by rewrite !Halive.
    + rewrite Hz. simpl. rewrite Halive. simpl. by rewrite delete_id.
  - cbn [snd]. rewrite Hz. simpl. rewrite Halive. simpl.
    by rewrite delete_empty.
Qed.

End RemovalFacts.

(** X21. Deleting a conversation that exists answers 200 with [deleted] set;
    the record is gone, the index of the user is the same without the id,
    and three commands went to the store. Deleting a conversation that is
    absent for this user answers 404 and changes nothing. *)
Theorem delete_conversation
    (env : Env) (st : State) (r : Redis.t) (userId id : string) :
  acting env userId ->
  redis st = Some r ->
  redisUp env = true ->
  match stored st (nowMs env) userId id with
  | Some _ =>
      exists r',
        ConversationRoute.DELETE id env st
        = (Return (success (Deleted true)),
           {| redis := Some r';
              calls := calls st ++
                [ CallRedis "GET" (getConversationKey userId id);
                  CallRedis "DEL" (getConversationKey userId id);
                  CallRedis "ZREM" (getUserConversationsKey userId) ] |}) /\
        Redis.strings r' !! getConversationKey userId id = None /\
        Redis.members (getUserConversationsKey userId) (nowMs env) r'
        = delete id
            (Redis.members (getUserConversationsKey userId) (nowMs env) r)
  | None =>
      ConversationRoute.DELETE id env st
      = (Return (failure 404 "Conversation not found"),
         {| redis := Some r;
            calls := calls st ++
              [CallRedis "GET" (getConversationKey userId id)] |})
  end.
Proof.
  intros Hauth Hr Hup.
  destruct (stored st (nowMs env) userId id) as [old|] eqn:Hold.
  - eexists. split; [by eapply RemovalFacts.DELETE_answer|]. split.
    + rewrite InvariantFacts.strings_removed. apply lookup_delete_eq.
    + apply RemovalFacts.members_removed.
  - by apply RemovalFacts.DELETE_not_found.
Qed.

Lemma delete_conversation_witness :
  exists st',
    ConversationRoute.DELETE "A" (at_ 3000 "t3" "") two_conversations
    = (Return (success (Deleted true)), st') /\
    ConversationRoute.DELETE "Z" (at_ 3000 "t3" "") two_conversations
    = (Return (failure 404 "Conversation not found"),
       {| redis := redis two_conversations;
          calls := calls two_conversations ++
            [CallRedis "GET" (getConversationKey "u1" "Z")] |}).
Proof.
  pose proof (delete_conversation (at_ 3000 "t3" "") two_conversations
                (default Redis.empty (redis two_conversations)) "u1" "A"
                eq_refl eq_refl eq_refl) as Hfound.
  pose proof (delete_conversation (at_ 3000 "t3" "") two_conversations
                (default Redis.empty (redis two_conversations)) "u1" "Z"
                eq_refl eq_refl eq_refl) as Habsent.
  assert (is_Some (stored two_conversations (nowMs (at_ 3000 "t3" "")) "u1" "A"))
    as [old Hold] by (vm_compute; eauto).
  assert (stored two_conversations (nowMs (at_ 3000 "t3" "")) "u1" "Z" = None)
    as Hnone by (vm_compute; reflexivity).
  rewrite Hold in Hfound. rewrite Hnone in Habsent.
  destruct Hfound as (r' & Hdelete & _).
  eexists. split; [exact Hdelete|exact Habsent].
Defined.

(** ** Every request is answered, or waits *)

Module StatusFacts.

Ltac answered :=
  eexists; (split; [reflexivity|]);
  cbn [status json success failure];
  by apply (bool_decide_unpack _).

(** Reading the records of a page comes to an end. *)
Lemma mapM_get_ends u ids env st r :
  redis st = Some r ->
  wp (mapM (fun id => command "GET" (getConversationKey u id)
                        (Redis.get (getConversationKey u id))) ids)
     env st (fun o st' => o <> Pending /\ redis st' = Some r).
Proof.
  revert st. induction ids as [|id ids IH]; intros st Hr; simpl.
  - by wp_step.
  - wp_run; [|done].
    eapply Rules.wp_mono; [|by apply IH].
    intros [a|e|] st' [Hends Hst']; [by wp_step|done..].
Qed.

(** A signed-in user is answered, and never with 401. *)
Lemma handle_signed env request st u :
  acting env u ->
  match request with
  | ChatRequest _ => True
  | _ => wp (handle request) env st
           (fun o _ => exists response,
                o = Return response /\ status response ∈ [200; 400; 404; 500])
  end.
Proof.
  intros Hauth. unfold acting in Hauth.
  destruct request as [limit offset|payload|ids|id|id payload|id|id payload|payload];
    simpl; [..|done].
  - unfold ConversationsRoute.GET. do 3 wp_step. rewrite Hauth.
    destruct st as [[r|] cs]; wp_run; try answered.
    eapply Rules.wp_mono; [|by apply (mapM_get_ends u)].
    intros [a|e|] st' [Hends Hst']; [| |done]; wp_run; answered.
  - unfold ConversationsRoute.POST. do 3 wp_step. rewrite Hauth.
    destruct st as [[r|] cs]; wp_run; answered.
  - unfold ConversationsRoute.DELETE. do 3 wp_step. rewrite Hauth.
    wp_run; try answered.
    eapply (Rules.wp_mono _ _ _ (fun o _ => o <> Pending));
      [|apply FrameFacts.deleteEach_ends].
    intros [a|e|] st' Hends; [| |done]; wp_run; answered.
  - unfold ConversationRoute.GET, ConversationRoute.getConversation.
    do 3 wp_step. rewrite Hauth.
    destruct st as [[r|] cs]; wp_run; answered.
  - unfold ConversationRoute.PUT, ConversationRoute.getConversation,
      ConversationRoute.saveConversation.
    do 3 wp_step. rewrite Hauth.
    destruct st as [[r|] cs]; wp_run; answered.
  - unfold ConversationRoute.DELETE, ConversationRoute.getConversation.
    do 3 wp_step. rewrite Hauth.
    destruct st as [[r|] cs]; wp_run; answered.
  - unfold ConversationRoute.PATCH, ConversationRoute.getConversation,
      ConversationRoute.saveConversation.
    do 3 wp_step. rewrite Hauth.
    destruct st as [[r|] cs]; wp_run; answered.
Qed.

(** The chat handler answers with 200, 400 or 500, or waits for the text
    of a buffered request. *)
Lemma chat_answered payload env st :
  match (ChatRoute.POST payload env st).1 with
  | Return response => status response ∈ [200; 400; 500]
  | Throw _ => False
  | Pending =>
      exists body data,
        payload = Some body /\ ChatbotRequestSchema (Some body) = Ok data /\
        req_stream data = false
  end.
Proof.
  destruct payload as [payload|]; [|by apply (bool_decide_unpack _)].
  destruct (ChatbotRequestSchema (Some payload)) as [d|paths] eqn:Hd.
  - rewrite (ChatFacts.POST_valid _ _ _ _ Hd).
    destruct (selected d env) as [model|] eqn:Hmodel.
    + destruct (req_stream d) eqn:Hs.
      * rewrite (ChatFacts.respond_streaming _ _ _ _ Hmodel Hs).
        by apply (bool_decide_unpack _).
      * rewrite (ChatFacts.respond_buffered _ _ _ _ Hmodel Hs).
        destruct (Js.isInteger _); [destruct (backendRun d env model)|]; simpl;
          first [by apply (bool_decide_unpack _) | by eauto].
    + rewrite (ChatFacts.respond_no_model _ _ _ Hmodel).
      by apply (bool_decide_unpack _).
  - rewrite (ChatFacts.POST_invalid _ _ _ _ Hd).
    by apply (bool_decide_unpack _).
Qed.

End StatusFacts.

(** X22. No exception leaves a handler. A conversation handler always
    answers: with status 200, 400, 401, 404 or 500, and with 401 exactly
    when no user is signed in. The chat handler answers with 200, 400 or
    500 (it asks who the user is and serves the request whatever the
    answer), or does not answer at all, which only a buffered request can
    come to. *)
Theorem no_exception_leaves_a_handler
    (request : Request) (env : Env) (st : State) :
  match (handle request env st).1 with
  | Return response =>
      match request with
      | ChatRequest _ => status response ∈ [200; 400; 500]
      | _ =>
          status response ∈ [200; 400; 401; 404; 500] /\
          (status response = 401 <-> authenticated (currentUserId env) = None)
      end
  | Throw _ => False
  | Pending =>
      exists payload data,
        request = ChatRequest (Some payload) /\
        ChatbotRequestSchema (Some payload) = Ok data /\
        req_stream data = false
  end.
Proof.
  destruct (authenticated (currentUserId env)) as [u|] eqn:Hauth.
  - pose proof (StatusFacts.handle_signed env request st u Hauth) as Hsigned.
    destruct request as [ | | | | | | |payload];
      [..|pose proof (StatusFacts.chat_answered payload env st) as Hchat; simpl;
          destruct (ChatRoute.POST payload env st).1; [done..|];
          destruct Hchat as (body & data & -> & Hdata & Hs); by eauto];
      apply Rules.wp_elim in Hsigned;
      destruct Hsigned as (response & -> & Hstatus);
      rewrite !elem_of_cons, elem_of_nil in Hstatus;
      destruct Hstatus as [->|[->|[->|[->|[]]]]];
      (split; [by apply (bool_decide_unpack _)|by split]).
  - pose proof (StoreFacts.conversation_handlers_require_user env st request Hauth)
      as Hnone.
    destruct request as [ | | | | | | |payload];
      [..|pose proof (StatusFacts.chat_answered payload env st) as Hchat; simpl;
          destruct (ChatRoute.POST payload env st).1; [done..|];
          destruct Hchat as (body & data & -> & Hdata & Hs); by eauto];
      simpl in Hnone |- *; rewrite Hnone; simpl;
      (split; [by apply (bool_decide_unpack _)|done]).
Qed.
